(** * tracy: event ingestion, location classifier and event cache

    A shallow embedding of [api/common/event.go]: the recursive walk that
    classifies where a tracer string resurfaces in a parsed HTML document
    ([getTracerLocation]), the ingestion path around it ([getDOMContexts],
    [AddEvent]), the store load path ([getTracerEventsDB]) and the goroutine
    that owns the per-tracer event cache ([tracerEventCache]). *)

From Stdlib Require Import String Ascii ZArith NArith List Lia Bool.
From stdpp Require Import base option list gmap.
Import ListNotations.

Local Open Scope string_scope.
Local Open Scope list_scope.
Local Open Scope N_scope.

(** ** Go strings *)

Module strings.

(** [strings.HasPrefix(s, prefix)]. *)
Fixpoint HasPrefix (s prefix : string) {struct prefix} : bool :=
  match prefix with
  | EmptyString => true
  | String c prefix' =>
      match s with
      | EmptyString => false
      | String d s' => Ascii.eqb d c && HasPrefix s' prefix'
      end
  end.

(** [strings.Contains(s, substr)]: [substr] occurs at some offset of [s]. *)
Fixpoint Contains (s substr : string) {struct s} : bool :=
  HasPrefix s substr ||
  match s with
  | EmptyString => false
  | String _ s' => Contains s' substr
  end.

End strings.

(** ** Data model *)

(** Go's [error] values are carried as their message. *)
Definition error := string.

(** [html.NodeType] of golang.org/x/net/html. *)
Inductive NodeType :=
| ErrorNode | TextNode | DocumentNode | ElementNode | CommentNode
| DoctypeNode | RawNode.

(** [html.Attribute]. *)
Record Attribute := { Key : string; Val : string }.

(** [html.Node]. The sibling chain [FirstChild], [NextSibling] is the list
    [children]; [Parent] is not stored in the node: the walk receives the
    parent's [Data], as read through [n.Parent.Data]. *)
#[local] Unset Elimination Schemes.
Inductive Node := mkNode {
  Type_ : NodeType;
  Data : string;
  Attr : list Attribute;
  children : list Node
}.
#[local] Set Elimination Schemes.

(** Modelled from the spec: the location kinds of package [types]
    ([types.Text], [types.NodeName], [types.Attr], [types.AttrVal],
    [types.Comment]), whose declaration is not part of this file. *)
Inductive LocationType := Text | NodeName | AttrT | AttrVal | Comment.

(** Modelled from the spec: the reason codes of package [types].
    [Unclassified] is the zero value a fresh [var reason uint] holds. *)
Inductive ReasonCode :=
| Unclassified
| LeafNode
| LeafNodeScriptTag
| TagName
| LeafNodeCommentTag
| AttributeName
| AttributeNameHTTPResponse
| AttributeValueHTTPResponse
| AttributeValueStartHref
| AttributeValueOnEventHandler.

(** [types.DOMContext]. *)
Record DOMContext := {
  TracerEventID : N;
  HTMLNodeType : string;
  HTMLLocationType : LocationType;
  EventContext : string;
  Severity : N;
  Reason : ReasonCode
}.

(** [types.RawEvent]; the two formats are [types.HTML] and [types.JSON]. *)
Inductive FormatTag := HTML | JSON.

Record RawEvent := {
  RawID : N;
  RawData : string;
  Format : FormatTag
}.

(** The zero value [types.RawEvent{}]. Modelled from the spec: which of the
    two format constants is the zero one is not visible here; the empty
    record is taken to carry [JSON]. No statement below depends on it. *)
Definition RawEvent_zero : RawEvent :=
  {| RawID := 0; RawData := EmptyString; Format := JSON |}.

(** [types.TracerEvent]. The field [RawEvent] is written [RawEvent_]. *)
Record TracerEvent := {
  ID : N;
  TracerID : N;
  RawEvent_ : RawEvent;
  RawEventID : N;
  EventType : string;
  DOMContexts : list DOMContext
}.

(** [types.Tracer]; its [ID] is written [Tracer_ID]. *)
Record Tracer := {
  Tracer_ID : N;
  TracerPayload : string;
  HasTracerEvents : bool;
  OverallSeverity : N;
  TracerEvents : list TracerEvent
}.

Definition isResponse (tracerEvent : TracerEvent) : bool :=
  String.eqb (EventType tracerEvent) "response".

(** ** The location classifier *)

Section Classifier.

(** [gohtml.Format], the pretty printer applied to the node text. *)
Variable gohtml_Format : string -> string.

(** The variables of one activation of [getTracerLocation]: the two
    out-parameters and the locals [sev] and [reason], which live for the
    whole activation. *)
Record Locals := {
  tracerLocations : list DOMContext;
  highest : N;
  sev : N;
  reason : ReasonCode
}.

(** [if sev > *highest { *highest = sev }]. *)
Definition raiseHighest (l : Locals) : Locals :=
  if highest l <? sev l
  then {| tracerLocations := tracerLocations l; highest := sev l;
          sev := sev l; reason := reason l |}
  else l.

(** Lines 198-255: the check of the node's own [Data]. [parentName] is
    [n.Parent.Data]. *)
Definition checkNode (n : Node) (parentName tracer : string)
    (tracerEvent : TracerEvent) (l : Locals) : Locals :=
  if strings.Contains (Data n) tracer then
    let mk loc s r :=
      {| TracerEventID := ID tracerEvent; HTMLNodeType := parentName;
         HTMLLocationType := loc; EventContext := gohtml_Format (Data n);
         Severity := s; Reason := r |} in
    match Type_ n with
    | TextNode =>
        raiseHighest
          {| tracerLocations := tracerLocations l ++ [mk Text (sev l) LeafNode];
             highest := highest l; sev := sev l; reason := reason l |}
    | DocumentNode | ElementNode | DoctypeNode =>
        let '(sev1, reason1) :=
          if String.eqb parentName "script" then
            if negb (isResponse tracerEvent) then (1, LeafNodeScriptTag)
            else (sev l, reason l)
          else (sev l, reason l) in
        let '(sev2, reason2) :=
          match Type_ n with
          | ElementNode =>
              if negb (isResponse tracerEvent) then (3, TagName)
              else (sev1, reason1)
          | _ => (sev1, reason1)
          end in
        raiseHighest
          {| tracerLocations := tracerLocations l ++ [mk NodeName sev2 reason2];
             highest := highest l; sev := sev2; reason := reason2 |}
    | _ =>
        let sev1 := if negb (isResponse tracerEvent) then 1 else sev l in
        raiseHighest
          {| tracerLocations :=
               tracerLocations l ++ [mk Comment sev1 LeafNodeCommentTag];
             highest := highest l; sev := sev1; reason := reason l |}
    end
  else l.

(** Lines 257-307: the body of the loop over [n.Attr]; [nodeData] is
    [n.Data]. *)
Definition checkAttr (nodeData tracer : string) (tracerEvent : TracerEvent)
    (l : Locals) (a : Attribute) : Locals :=
  let mk loc s r :=
    {| TracerEventID := ID tracerEvent; HTMLNodeType := nodeData;
       HTMLLocationType := loc; EventContext := Val a;
       Severity := s; Reason := r |} in
  raiseHighest
    (if strings.Contains (Key a) tracer then
       let '(sev1, reason1) :=
         if negb (isResponse tracerEvent) then (3, AttributeName)
         else (1, AttributeNameHTTPResponse) in
       {| tracerLocations := tracerLocations l ++ [mk AttrT sev1 reason1];
          highest := highest l; sev := sev1; reason := reason1 |}
     else if strings.Contains (Val a) tracer then
       let '(sev1, reason1) :=
         if negb (isResponse tracerEvent) then
           if String.eqb (Key a) "href" && strings.HasPrefix (Val a) tracer
           then (2, AttributeValueStartHref)
           else if strings.HasPrefix (Key a) "on"
           then (2, AttributeValueOnEventHandler)
           else (1, AttributeValueHTTPResponse)
         else (1, AttributeValueHTTPResponse) in
       {| tracerLocations := tracerLocations l ++ [mk AttrVal sev1 reason1];
          highest := highest l; sev := sev1; reason := reason1 |}
     else l).

(** The state shared by all activations: [*tracerLocations], [*highest]. *)
Definition Shared : Type := list DOMContext * N.

(** A fresh activation: [var sev uint], [var reason uint]. *)
Definition enter (st : Shared) : Locals :=
  {| tracerLocations := fst st; highest := snd st;
     sev := 0; reason := Unclassified |}.

Definition leave (l : Locals) : Shared := (tracerLocations l, highest l).

(** [n.Parent.Data] after lines 193-197: [Parent] is [Some] of the parent's
    [Data], or [None] when [n.Parent] is nil, in which case the code
    installs a parent whose [Data] is empty. *)
Definition parentData (Parent : option string) : string :=
  match Parent with Some d => d | None => EmptyString end.

(** [getTracerLocation(n, tracerLocations, tracer, tracerEvent, highest)]:
    the node check, the loop over the attributes, then the children from
    [FirstChild] along [NextSibling], each with [n] as its parent. *)
Fixpoint getTracerLocation (n : Node) (Parent : option string)
    (tracer : string) (tracerEvent : TracerEvent) (st : Shared) : Shared :=
  let l := checkNode n (parentData Parent) tracer tracerEvent (enter st) in
  let l := fold_left (checkAttr (Data n) tracer tracerEvent) (Attr n) l in
  fold_left
    (fun st c => getTracerLocation c (Some (Data n)) tracer tracerEvent st)
    (children n) (leave l).

End Classifier.

(** ** Statements about the classifier *)

(** The largest severity of a list of findings, 0 for the empty list. *)
Definition maxSeverity (cs : list DOMContext) : N :=
  fold_right N.max 0 (map Severity cs).

(** What an activation that started from the shared state [base] has
    reached: the findings emitted since, [highest] as their running
    maximum, and [sev] never above one of them. *)
Definition tracks (base : Shared) (l : Locals) : Prop :=
  exists new,
    tracerLocations l = fst base ++ new /\
    highest l = N.max (snd base) (maxSeverity new) /\
    sev l <= maxSeverity new.

(** The shared state after a walk: what was there, followed by the
    findings of the walk, and [highest] raised to their maximum. *)
Definition extends (st st' : Shared) : Prop :=
  exists new,
    fst st' = fst st ++ new /\ snd st' = N.max (snd st) (maxSeverity new).

Section RuleFindings.

Variable gohtml_Format : string -> string.

(** The finding of the tag-name rule for node [n] below [Parent]. *)
Definition tagNameFinding (n : Node) (Parent : option string)
    (tracerEvent : TracerEvent) : DOMContext :=
  {| TracerEventID := ID tracerEvent; HTMLNodeType := parentData Parent;
     HTMLLocationType := NodeName; EventContext := gohtml_Format (Data n);
     Severity := 3; Reason := TagName |}.

(** The attribute-value rule in the words of the specification: the
    severity and the reason of a value match on attribute [a]. *)
Definition attrValueRule (tracer : string) (tracerEvent : TracerEvent)
    (a : Attribute) : N * ReasonCode :=
  if negb (isResponse tracerEvent) && String.eqb (Key a) "href"
     && strings.HasPrefix (Val a) tracer
  then (2, AttributeValueStartHref)
  else if negb (isResponse tracerEvent) && strings.HasPrefix (Key a) "on"
  then (2, AttributeValueOnEventHandler)
  else (1, AttributeValueHTTPResponse).

Definition attrValueFinding (nodeData tracer : string)
    (tracerEvent : TracerEvent) (a : Attribute) : DOMContext :=
  {| TracerEventID := ID tracerEvent; HTMLNodeType := nodeData;
     HTMLLocationType := AttrVal; EventContext := Val a;
     Severity := fst (attrValueRule tracer tracerEvent a);
     Reason := snd (attrValueRule tracer tracerEvent a) |}.

End RuleFindings.

(** ** Record updates *)

Definition withID (event : TracerEvent) (id : N) : TracerEvent :=
  {| ID := id; TracerID := TracerID event; RawEvent_ := RawEvent_ event;
     RawEventID := RawEventID event; EventType := EventType event;
     DOMContexts := DOMContexts event |}.

Definition withRawEvent (event : TracerEvent) (r : RawEvent) : TracerEvent :=
  {| ID := ID event; TracerID := TracerID event; RawEvent_ := r;
     RawEventID := RawEventID event; EventType := EventType event;
     DOMContexts := DOMContexts event |}.

Definition withDOMContexts (event : TracerEvent) (cs : list DOMContext)
  : TracerEvent :=
  {| ID := ID event; TracerID := TracerID event; RawEvent_ := RawEvent_ event;
     RawEventID := RawEventID event; EventType := EventType event;
     DOMContexts := cs |}.

Definition withSeverity (c : DOMContext) (s : N) : DOMContext :=
  {| TracerEventID := TracerEventID c; HTMLNodeType := HTMLNodeType c;
     HTMLLocationType := HTMLLocationType c; EventContext := EventContext c;
     Severity := s; Reason := Reason c |}.

Definition withHasTracerEvents (tracer : Tracer) (b : bool) : Tracer :=
  {| Tracer_ID := Tracer_ID tracer; TracerPayload := TracerPayload tracer;
     HasTracerEvents := b; OverallSeverity := OverallSeverity tracer;
     TracerEvents := TracerEvents tracer |}.

Definition withOverallSeverity (tracer : Tracer) (s : N) : Tracer :=
  {| Tracer_ID := Tracer_ID tracer; TracerPayload := TracerPayload tracer;
     HasTracerEvents := HasTracerEvents tracer; OverallSeverity := s;
     TracerEvents := TracerEvents tracer |}.

Definition withTracerEvents (tracer : Tracer) (es : list TracerEvent) : Tracer :=
  {| Tracer_ID := Tracer_ID tracer; TracerPayload := TracerPayload tracer;
     HasTracerEvents := HasTracerEvents tracer;
     OverallSeverity := OverallSeverity tracer; TracerEvents := es |}.

(** ** Integers

    [int] and [uint] are taken 64 bits wide; [int(u)] and [uint(i)] keep the
    bit pattern. *)

Definition int_of_uint (u : N) : Z :=
  ((Z.of_N u + 2 ^ 63) mod 2 ^ 64 - 2 ^ 63)%Z.

Definition uint_of_int (i : Z) : N := Z.to_N (i mod 2 ^ 64)%Z.

(** ** Effects

    What the code does to its collaborators is kept as a trace: the calls on
    [store.DB] with their outcome, the values handed to [UpdateSubscribers],
    the sends on [inUpdateChanEvent] and the warnings logged. *)

Inductive result (A : Type) :=
| Ok (a : A)
| Err (err : error).
Arguments Ok {A} a.
Arguments Err {A} err.

(** [type tracerUpdate struct]; its [ID] is written [Update_ID]. *)
Record tracerUpdate := { Event : TracerEvent; Update_ID : Z }.

(** The one-entry field maps given to [Updates]. *)
Inductive TracerField :=
| overall_severity (s : N)
| has_tracer_events (b : bool).

(** The values given to [UpdateSubscribers]. *)
Inductive Published :=
| PubEvent (event : TracerEvent)
| PubTracer (tracer : Tracer)
| PubNotification (tracer : Tracer) (event : TracerEvent).

Inductive Effect :=
| LogWarning (err : error)
| Create (event : TracerEvent) (r : result N)
| Updates (c : Tracer) (f : TracerField) (err : option error)
| Find (tracerID : N)
| Related (v : TracerEvent)
| Send (u : tracerUpdate)
| UpdateSubscribers (p : Published).

(** [store.DB] seen from this file: the four calls made on it, over a store
    state [DB]. [db_Create] answers with the identifier given to the new
    row; [db_Related] answers with the raw event of [v], its error dropped as
    the code drops it. *)
Class Store (DB : Type) := {
  db_Create : TracerEvent -> DB -> DB * result N;
  db_Updates : Tracer -> TracerField -> DB -> DB * option error;
  db_Find : N -> DB -> result (list TracerEvent);
  db_Related : TracerEvent -> DB -> RawEvent
}.

(** Computations over the store that write the trace. *)
Definition M (DB A : Type) : Type := DB -> A * DB * list Effect.

#[global] Instance M_ret {DB} : MRet (M DB) :=
  fun A (a : A) db => (a, db, []).

#[global] Instance M_bind {DB} : MBind (M DB) :=
  fun A B (k : A -> M DB B) (m : M DB A) db =>
    let '(a, db1, t1) := m db in
    let '(b, db2, t2) := k a db1 in
    (b, db2, t1 ++ t2).

Definition emit {DB} (e : Effect) : M DB unit := fun db => (tt, db, [e]).

(** Runs [m] and also hands back the trace it wrote. *)
Definition listen {DB A} (m : M DB A) : M DB (A * list Effect) :=
  fun db => let '(a, db1, t) := m db in ((a, t), db1, t).

Definition when {DB} (b : bool) (m : M DB unit) : M DB unit :=
  if b then m else mret tt.

Section StoreCalls.

Context {DB : Type} `{Store DB}.

Definition Create_ (event : TracerEvent) : M DB (result N) :=
  fun db => let '(db', r) := db_Create event db in (r, db', [Create event r]).

Definition Updates_ (c : Tracer) (f : TracerField) : M DB (option error) :=
  fun db => let '(db', err) := db_Updates c f db in (err, db', [Updates c f err]).

Definition Find_ (tracerID : N) : M DB (result (list TracerEvent)) :=
  fun db => (db_Find tracerID db, db, [Find tracerID]).

Definition Related_ (v : TracerEvent) : M DB RawEvent :=
  fun db => (db_Related v db, db, [Related v]).

End StoreCalls.

(** ** Event ingestion *)

Section Ingestion.

Context {DB : Type} `{Store DB}.

(** [gohtml.Format], [html.Parse] over the text of the raw event, and
    [json.Marshal] of an event. *)
Variable gohtml_Format : string -> string.
Variable html_Parse : string -> result Node.
Variable json_Marshal : TracerEvent -> string * option error.

(** [getDOMContexts(event, tracer)]. The result is the event as the
    function leaves it behind the pointer, the last value of the local
    [sev] (read through [sevp]) and the returned error. *)
Definition getDOMContexts (event : TracerEvent) (tracer : Tracer)
  : M DB (TracerEvent * N * option error) :=
  match html_Parse (RawData (RawEvent_ event)) with
  | Err err =>
      emit (LogWarning err);;
      mret (event, 0, Some err)
  | Ok doc =>
      let old := HasTracerEvents tracer in
      let '(contexts, sev) :=
        getTracerLocation gohtml_Format doc None (TracerPayload tracer)
          event ([], 0) in
      if (length contexts =? 0)%nat then mret (event, sev, None)
      else
        let event := withDOMContexts event contexts in
        let '(event, sev) :=
          if String.eqb (EventType event) "text"
          then (withDOMContexts event
                  (map (fun c => withSeverity c 0) (DOMContexts event)), 0)
          else (event, sev) in
        let tracer := withHasTracerEvents tracer true in
        let c := withTracerEvents tracer [] in
        '(tracer, c, err, newSev) ←
          (if OverallSeverity tracer <? sev then
             let tracer := withOverallSeverity tracer sev in
             let c := withOverallSeverity c sev in
             err ← Updates_ c (overall_severity sev);
             mret (tracer, c, err, true)
           else mret (tracer, c, None, false));
        err ←
          (if negb old
           then Updates_ c (has_tracer_events (HasTracerEvents tracer))
           else mret err);
        when (negb old || newSev) (emit (UpdateSubscribers (PubTracer tracer)));;
        mret (event, sev, err)
  end.

(** Lines 82-111 of [AddEvent]: the event is created without its raw
    event, and the copy that kept it goes to the cache and the subscribers.
    The keys the store writes into the rows it creates are not followed,
    except the [ID] of the event, which the code copies over. *)
Definition createAndPublish (tracer : Tracer) (event : TracerEvent)
  : M DB (string * option error) :=
  let copy := event in
  let event := withRawEvent event RawEvent_zero in
  r ← Create_ event;
  match r with
  | Err e => emit (LogWarning e);; mret (EmptyString, Some e)
  | Ok id =>
      let copy := withID copy id in
      emit (Send {| Event := copy; Update_ID := int_of_uint (Tracer_ID tracer) |});;
      emit (UpdateSubscribers (PubEvent copy));;
      let '(ret, err) := json_Marshal copy in
      match err with
      | Some e => emit (LogWarning e)
      | None => mret tt
      end;;
      when (existsb (fun c => 2 <=? Severity c) (DOMContexts copy))
        (emit (UpdateSubscribers (PubNotification tracer copy)));;
      mret (ret, err)
  end.

(** [AddEvent(tracer, event)]; the nil [ret] is the empty string. *)
Definition AddEvent (tracer : Tracer) (event : TracerEvent)
  : M DB (string * option error) :=
  match Format (RawEvent_ event) with
  | HTML =>
      '(event, _, err) ← getDOMContexts event tracer;
      match err with
      | Some e => emit (LogWarning e);; mret (EmptyString, Some e)
      | None => createAndPublish tracer event
      end
  | JSON => createAndPublish tracer event
  end.

End Ingestion.

(** ** The store load path and the event cache *)

Section Cache.

Context {DB : Type} `{Store DB}.

(** The body of the [range] loop of [getTracerEventsDB], at index [k] with
    element [v]. A hit assigns to the loop variable [v] only; a miss writes
    the fetched raw event into [tracerEvents[k]] and into [cache[k]]. *)
Definition resolveRawEvent (k : nat) (v : TracerEvent)
    (st : list TracerEvent * gmap Z RawEvent)
  : M DB (list TracerEvent * gmap Z RawEvent) :=
  let '(tracerEvents, cache) := st in
  match cache !! int_of_uint (RawEventID v) with
  | Some cachedEvent => mret (tracerEvents, cache)
  | None =>
      rawTracerEvent ← Related_ v;
      mret (alter (fun e => withRawEvent e rawTracerEvent) k tracerEvents,
            <[Z.of_nat k := rawTracerEvent]> cache)
  end.

(** [for k, v := range tracerEvents], from index [k] on; [vs] are the
    elements still to visit. *)
Fixpoint rangeTracerEvents (k : nat) (vs : list TracerEvent)
    (st : list TracerEvent * gmap Z RawEvent)
  : M DB (list TracerEvent * gmap Z RawEvent) :=
  match vs with
  | [] => mret st
  | v :: vs' =>
      st' ← resolveRawEvent k v st;
      rangeTracerEvents (S k) vs' st'
  end.

(** [getTracerEventsDB(tracerID)]. *)
Definition getTracerEventsDB (tracerID : N) : M DB (result (list TracerEvent)) :=
  r ← Find_ tracerID;
  match r with
  | Err err => emit (LogWarning err);; mret (Err err)
  | Ok tracerEvents =>
      '(tracerEvents, _) ← rangeTracerEvents 0 tracerEvents (tracerEvents, ∅);
      mret (Ok tracerEvents)
  end.

(** What the goroutine of [tracerEventCache] receives: a value on [inR] or
    a value on [inU]. *)
Inductive Msg :=
| inR (i : Z)
| inU (e : tracerUpdate).

(** One turn of the [for] loop of [tracerEventCache]: the map [events]
    after the message and the value sent on [out], if any. [Err] is
    [log.Error.Fatal]: the process exits. *)
Definition tracerEventCache_step (events : gmap Z (list TracerEvent)) (m : Msg)
  : M DB (result (gmap Z (list TracerEvent) * option (list TracerEvent))) :=
  match m with
  | inR i =>
      if (i =? -1)%Z then mret (Ok (∅, None))
      else if (length (events !!! i) =? 0)%nat then
        r ← getTracerEventsDB (uint_of_int i);
        match r with
        | Err err => mret (Err err)
        | Ok loaded => mret (Ok (<[i := loaded]> events, Some loaded))
        end
      else mret (Ok (events, Some (events !!! i)))
  | inU e =>
      match events !! Update_ID e with
      | Some ev => mret (Ok (<[Update_ID e := ev ++ [Event e]]> events, None))
      | None => mret (Ok (<[Update_ID e := [Event e]]> events, None))
      end
  end.

(** The loop over the messages in the order the goroutine receives them,
    with the values sent on [out] collected in order. *)
Fixpoint tracerEventCache (events : gmap Z (list TracerEvent))
    (out : list (list TracerEvent)) (msgs : list Msg)
  : M DB (result (gmap Z (list TracerEvent) * list (list TracerEvent))) :=
  match msgs with
  | [] => mret (Ok (events, out))
  | m :: msgs' =>
      r ← tracerEventCache_step events m;
      match r with
      | Err err => mret (Err err)
      | Ok (events', reply) =>
          tracerEventCache events' (out ++ option_list reply) msgs'
      end
  end.

End Cache.

(** ** The tracer row across calls *)

(** Modelled from the spec: update-tracer-fields of the Store, which is not
    part of this file. An [Updates] that succeeded sets the named field of
    the row whose identifier is that of [c]; a failed one changes nothing. *)
Definition applyField (f : TracerField) (row : Tracer) : Tracer :=
  match f with
  | overall_severity s => withOverallSeverity row s
  | has_tracer_events b => withHasTracerEvents row b
  end.

Definition applyEffect (row : Tracer) (e : Effect) : Tracer :=
  match e with
  | Updates c f None =>
      if Tracer_ID c =? Tracer_ID row then applyField f row else row
  | _ => row
  end.

Definition rowAfter (trace : list Effect) (row : Tracer) : Tracer :=
  fold_left applyEffect trace row.

(** The events the store accepted, as they were handed to [Create]. *)
Definition created (trace : list Effect) : list TracerEvent :=
  omap (fun e => match e with Create event (Ok _) => Some event | _ => None end)
    trace.

(** The findings that came with the events the store accepted. *)
Definition storedFindings (trace : list Effect) : list DOMContext :=
  concat (map DOMContexts (created trace)).

Definition hasFindings (event : TracerEvent) : bool :=
  negb (length (DOMContexts event) =? 0)%nat.

(** No write to the store was refused. *)
Definition writesSucceed (trace : list Effect) : bool :=
  forallb (fun e => match e with
                    | Create _ (Err _) => false
                    | Updates _ _ (Some _) => false
                    | _ => true
                    end) trace.

Section Calls.

Context {DB : Type} `{Store DB}.
Variable gohtml_Format : string -> string.
Variable html_Parse : string -> result Node.
Variable json_Marshal : TracerEvent -> string * option error.

(** Modelled from the spec: the callers of [AddEvent], which are not part
    of this file. A sequence of calls for one tracer, each call receiving
    the tracer as the updates of the earlier calls left its row. *)
Fixpoint AddEvents (tracer : Tracer) (events : list TracerEvent)
  : M DB Tracer :=
  match events with
  | [] => mret tracer
  | event :: events' =>
      '(_, trace) ←
        listen (AddEvent gohtml_Format html_Parse json_Marshal tracer event);
      AddEvents (rowAfter trace tracer) events'
  end.

End Calls.

(** ** Reading traces *)

Definition isFind (e : Effect) : bool :=
  match e with Find _ => true | _ => false end.

Definition isTracerUpdate (e : Effect) : bool :=
  match e with
  | Updates _ _ _ | UpdateSubscribers (PubTracer _) => true
  | _ => false
  end.

Definition isOutward (e : Effect) : bool :=
  match e with
  | LogWarning _ => false
  | _ => true
  end.

(** The call behind an entry of the trace. *)
Definition effectName (e : Effect) : string :=
  match e with
  | LogWarning _ => "log.Warning.Print"
  | Create _ _ => "Create"
  | Updates _ (overall_severity _) _ => "Updates overall_severity"
  | Updates _ (has_tracer_events _) _ => "Updates has_tracer_events"
  | Find _ => "Find"
  | Related _ => "Related"
  | Send _ => "inUpdateChanEvent"
  | UpdateSubscribers (PubEvent _) => "UpdateSubscribers event"
  | UpdateSubscribers (PubTracer _) => "UpdateSubscribers tracer"
  | UpdateSubscribers (PubNotification _ _) => "UpdateSubscribers notification"
  end.

(** The number of loads ([Find]) in a trace. *)
Definition storeLoads (trace : list Effect) : nat :=
  length (List.filter isFind trace).

Definition isRelatedOf (id : N) (e : Effect) : bool :=
  match e with
  | Related v => RawEventID v =? id
  | _ => false
  end.

(** The number of fetches of the raw event with identifier [id]. *)
Definition rawFetches (id : N) (trace : list Effect) : nat :=
  length (List.filter (isRelatedOf id) trace).

(** A message about a tracer identifier other than [t]: neither a read or
    an update for [t] nor the flush, which is the read of -1. *)
Definition otherTracer (t : Z) (m : Msg) : bool :=
  match m with
  | inR i => negb (i =? t)%Z && negb (i =? -1)%Z
  | inU e => negb (Update_ID e =? t)%Z
  end.

(** The load of identifier [i] is refused by the store in state [db]. *)
Definition loadFails {DB : Type} `{Store DB} (i : Z) (db : DB) : Prop :=
  exists err, db_Find (uint_of_int i) db = Err err.

(** The reading rule in the words of the specification, over every state
    the goroutine reaches from the empty map: a read of [t] loads from the
    store exactly when [t] is absent from the map or was never loaded. *)
Definition loadsWhenAbsentOrNeverLoaded : Prop :=
  forall (DB : Type) (S : Store DB) (msgs : list Msg) (db : DB)
         events out db1 history (t : Z),
    tracerEventCache ∅ [] msgs db = (Ok (events, out), db1, history) ->
    t <> (-1)%Z ->
    (0 < storeLoads (snd (tracerEventCache_step events (inR t) db1)))%nat <->
    (events !! t = None \/ ~ In (Find (uint_of_int t)) history).

(** What the specification asks of one load: a raw event is fetched at most
    once, and every event returned carries the raw event of its own
    [RawEventID]. *)
Definition fetchedAtMostOnce (trace : list Effect) : Prop :=
  forall id, (rawFetches id trace <= 1)%nat.

Definition rawEventsResolved {DB : Type} `{Store DB} (db : DB)
    (tracerEvents : list TracerEvent) : Prop :=
  Forall (fun e => RawEvent_ e = db_Related e db) tracerEvents.

(** ** A store to run the code on *)

(** Modelled from the spec: a Store in which every call succeeds. It keeps
    the created events and the raw events; [Find] selects the events of a
    tracer and [Related] looks the raw event up by [RawEventID]. It serves
    to evaluate the code on concrete inputs. *)
Record MemDB := {
  mem_events : list TracerEvent;
  mem_raw : list RawEvent;
  mem_next : N
}.

Definition mem_Create (event : TracerEvent) (db : MemDB) : MemDB * result N :=
  ({| mem_events := mem_events db ++ [withID event (mem_next db)];
      mem_raw := mem_raw db;
      mem_next := mem_next db + 1 |},
   Ok (mem_next db)).

Definition mem_Related (v : TracerEvent) (db : MemDB) : RawEvent :=
  match List.find (fun r => RawID r =? RawEventID v) (mem_raw db) with
  | Some r => r
  | None => RawEvent_zero
  end.

#[global] Instance MemStore : Store MemDB := {
  db_Create := mem_Create;
  db_Updates := fun _ _ db => (db, None);
  db_Find := fun tracerID db =>
    Ok (List.filter (fun e => TracerID e =? tracerID) (mem_events db));
  db_Related := mem_Related
}.

(** ** Concrete inputs *)

Module Fixtures.

Definition plain (s : string) : string := s.

Definition marshal (event : TracerEvent) : string * option error :=
  ("{}", None).

Definition rawMarkup : RawEvent :=
  {| RawID := 1;
     RawData := "<a href=XSS1 zzXSS=1 title=none>see XSS</a><!--XSS-->";
     Format := HTML |}.

Definition rawBroken : RawEvent :=
  {| RawID := 2; RawData := "<"; Format := HTML |}.

Definition rawStructured : RawEvent :=
  {| RawID := 3; RawData := "[1, 2]"; Format := JSON |}.

Definition eventOf (kind : string) : TracerEvent :=
  {| ID := 0; TracerID := 1; RawEvent_ := rawMarkup; RawEventID := 1;
     EventType := kind; DOMContexts := [] |}.

Definition tracer : Tracer :=
  {| Tracer_ID := 1; TracerPayload := "XSS"; HasTracerEvents := false;
     OverallSeverity := 0; TracerEvents := [] |}.

Definition emptyDB : MemDB :=
  {| mem_events := []; mem_raw := [rawMarkup; rawBroken; rawStructured];
     mem_next := 1 |}.

(** An element whose tag name holds the tracer, below a script element. *)
Definition tagNode : Node := mkNode ElementNode "zzXSSzz" [] [].

Definition hrefAttr : Attribute := {| Key := "href"; Val := "XSS1" |}.
Definition onclickAttr : Attribute := {| Key := "onclick"; Val := "f(XSS)" |}.
Definition nameAttr : Attribute := {| Key := "zzXSS"; Val := "1" |}.
Definition titleAttr : Attribute := {| Key := "title"; Val := "none" |}.

Definition anchor : Node :=
  mkNode ElementNode "a" [hrefAttr; nameAttr; titleAttr]
    [mkNode TextNode "see XSS" [] []].

Definition document : Node :=
  mkNode DocumentNode EmptyString
    [] [mkNode ElementNode "html" []
          [mkNode ElementNode "body" [] [anchor; mkNode CommentNode "XSS" [] []]]].

Definition rawParagraph : RawEvent :=
  {| RawID := 5; RawData := "<p>XSS</p>"; Format := HTML |}.

(** An event row as [Find] returns it: the raw event is not loaded. *)
Definition row (id rawEventID : N) : TracerEvent :=
  {| ID := id; TracerID := 1; RawEvent_ := RawEvent_zero;
     RawEventID := rawEventID; EventType := "dom"; DOMContexts := [] |}.

(** Two events of tracer 1 that share raw event 5. *)
Definition sharedDB : MemDB :=
  {| mem_events := [row 1 5; row 2 5];
     mem_raw := [rawMarkup; rawBroken; rawStructured; rawParagraph];
     mem_next := 3 |}.

(** Three events of tracer 1; the third refers to raw event 1, which is
    also the list position of the second. *)
Definition positionDB : MemDB :=
  {| mem_events := [row 1 3; row 2 2; row 3 1];
     mem_raw := [rawMarkup; rawBroken; rawStructured; rawParagraph];
     mem_next := 4 |}.

(** A parser that knows one document and rejects [rawBroken]. *)
Definition parse (data : string) : result Node :=
  if String.eqb data (RawData rawBroken) then Err "html: cannot parse"
  else Ok document.

End Fixtures.

(** * Further definitions *)

(** ** The walk without its variables

    What one node check and one turn of the attribute loop append when
    they are read on their own, each from a fresh [sev] and [reason]. *)

Section Stateless.

Variable gohtml_Format : string -> string.

(** The finding of the check of [n]'s own [Data], if there is one. *)
Definition nodeFinding (n : Node) (parentName tracer : string)
    (tracerEvent : TracerEvent) : option DOMContext :=
  let mk loc s r :=
    {| TracerEventID := ID tracerEvent; HTMLNodeType := parentName;
       HTMLLocationType := loc; EventContext := gohtml_Format (Data n);
       Severity := s; Reason := r |} in
  if strings.Contains (Data n) tracer then
    Some
      match Type_ n with
      | TextNode => mk Text 0 LeafNode
      | ElementNode =>
          if isResponse tracerEvent then mk NodeName 0 Unclassified
          else mk NodeName 3 TagName
      | DocumentNode | DoctypeNode =>
          if negb (isResponse tracerEvent) && String.eqb parentName "script"
          then mk NodeName 1 LeafNodeScriptTag
          else mk NodeName 0 Unclassified
      | _ =>
          mk Comment (if isResponse tracerEvent then 0 else 1) LeafNodeCommentTag
      end
  else None.

(** The finding of attribute [a] of a node called [nodeData], if there is
    one. *)
Definition attrFinding (nodeData tracer : string) (tracerEvent : TracerEvent)
    (a : Attribute) : option DOMContext :=
  if strings.Contains (Key a) tracer then
    Some {| TracerEventID := ID tracerEvent; HTMLNodeType := nodeData;
            HTMLLocationType := AttrT; EventContext := Val a;
            Severity := if isResponse tracerEvent then 1 else 3;
            Reason := if isResponse tracerEvent
                      then AttributeNameHTTPResponse else AttributeName |}
  else if strings.Contains (Val a) tracer then
    Some (attrValueFinding nodeData tracer tracerEvent a)
  else None.

(** The findings of the document below [n], node first, then its
    attributes, then its children in order. *)
Fixpoint findingsOf (n : Node) (Parent : option string) (tracer : string)
    (tracerEvent : TracerEvent) : list DOMContext :=
  option_list (nodeFinding n (parentData Parent) tracer tracerEvent) ++
  omap (attrFinding (Data n) tracer tracerEvent) (Attr n) ++
  concat (map (fun c => findingsOf c (Some (Data n)) tracer tracerEvent)
            (children n)).

End Stateless.

(** The places of the document below [n] where the tracer occurs: nodes
    whose [Data] contains it and attributes whose key or value does. *)
Fixpoint occurrences (n : Node) (tracer : string) : nat :=
  (if strings.Contains (Data n) tracer then 1 else 0) +
  length (List.filter
            (fun a => strings.Contains (Key a) tracer
                      || strings.Contains (Val a) tracer) (Attr n)) +
  list_sum (map (fun c => occurrences c tracer) (children n)).

(** The nodes and the attributes of the document below [n]. *)
Fixpoint nodesAndAttributes (n : Node) : nat :=
  1 + length (Attr n) + list_sum (map nodesAndAttributes (children n)).

(** The pairs of location kind, severity and reason that the walk can
    produce. *)
Definition inRuleTable (c : DOMContext) : bool :=
  match HTMLLocationType c, Severity c, Reason c with
  | Text, 0, LeafNode => true
  | NodeName, 3, TagName => true
  | NodeName, 1, LeafNodeScriptTag => true
  | NodeName, 0, Unclassified => true
  | Comment, 1, LeafNodeCommentTag => true
  | Comment, 0, LeafNodeCommentTag => true
  | AttrT, 3, AttributeName => true
  | AttrT, 1, AttributeNameHTTPResponse => true
  | AttrVal, 2, AttributeValueStartHref => true
  | AttrVal, 2, AttributeValueOnEventHandler => true
  | AttrVal, 1, AttributeValueHTTPResponse => true
  | _, _, _ => false
  end.

(** ** Reading the trace of a call *)

(** The outcome of the last [Updates] of a trace, [None] when there is no
    [Updates] in it. *)
Definition lastUpdatesError (trace : list Effect) : option error :=
  fold_left (fun acc e => match e with
                          | Updates _ _ err => err
                          | _ => acc
                          end) trace None.

Definition isNotification (e : Effect) : bool :=
  match e with
  | UpdateSubscribers (PubNotification _ _) => true
  | _ => false
  end.

Definition isSend (e : Effect) : bool :=
  match e with Send _ => true | _ => false end.

Definition isPublishedEvent (e : Effect) : bool :=
  match e with
  | UpdateSubscribers (PubEvent _) => true
  | UpdateSubscribers (PubNotification _ _) => true
  | _ => false
  end.

(** The entries [getDOMContexts] can write: a warning, an [Updates] that
    raises, and the publication of the tracer. *)
Definition fromGetDOMContexts (tracer : Tracer) (e : Effect) : Prop :=
  match e with
  | LogWarning _ => True
  | Updates c (overall_severity s) _ =>
      Tracer_ID c = Tracer_ID tracer /\ TracerEvents c = [] /\
      OverallSeverity tracer < s /\ s <= 3 /\ OverallSeverity c = s
  | Updates c (has_tracer_events b) _ =>
      Tracer_ID c = Tracer_ID tracer /\ TracerEvents c = [] /\
      b = true /\ HasTracerEvents tracer = false
  | UpdateSubscribers (PubTracer _) => True
  | _ => False
  end.

(** A finding that [AddEvent] notifies about. *)
Definition isSevere (c : DOMContext) : bool := 2 <=? Severity c.

(** ** Reading the messages of the goroutine *)

(** A read that is answered: a value on [inR] other than -1. *)
Definition isRead (m : Msg) : bool :=
  match m with
  | inR i => negb (i =? -1)%Z
  | inU _ => false
  end.

(** The flush: the value -1 on [inR]. *)
Definition isFlush (m : Msg) : bool :=
  match m with
  | inR i => (i =? -1)%Z
  | inU _ => false
  end.

Definition isReadOf (t : Z) (m : Msg) : bool :=
  match m with
  | inR i => (i =? t)%Z
  | inU _ => false
  end.

(** The events the messages add to the list of [t], in order. *)
Definition updatesFor (t : Z) (msgs : list Msg) : list TracerEvent :=
  omap (fun m => match m with
                 | inU e => if (Update_ID e =? t)%Z then Some (Event e) else None
                 | inR _ => None
                 end) msgs.

(** The entries a load writes: the query, the fetches and a warning. *)
Definition isLoadEntry (e : Effect) : bool :=
  match e with
  | Find _ | Related _ | LogWarning _ => true
  | _ => false
  end.

(** ** The channels and the callers of the goroutine

    The callers and the goroutine of [tracerEventCache] run side by side
    and meet on three channels. The state they share is kept as a record,
    and a run of the program is a list of the steps its goroutines take,
    in the order they take them. *)

(** [init] makes each channel with room for ten values. *)
Definition capacity : nat := 10.

(** The channels, oldest value first, and the goroutine of
    [tracerEventCache]: its local [events] and, while it stands at
    [out <- events[i]], the list it is about to send. *)
Record System := {
  inReadChanEvent : list Z;
  inUpdateChanEvent : list tracerUpdate;
  outChanEvent : list (list TracerEvent);
  goroutine_events : gmap Z (list TracerEvent);
  goroutine_sending : option (list TracerEvent)
}.

(** [init()]: the channels are empty and the goroutine starts with an
    empty map. *)
Definition init : System :=
  {| inReadChanEvent := []; inUpdateChanEvent := []; outChanEvent := [];
     goroutine_events := ∅; goroutine_sending := None |}.

(** A send on a channel goes through while there is room; [None] when the
    sender has to wait. *)
Definition chan_send {A : Type} (ch : list A) (x : A) : option (list A) :=
  if (length ch <? capacity)%nat then Some (ch ++ [x]) else None.

(** One step of the program: a send or a receive of a caller, or a step
    of the goroutine. *)
Inductive Action :=
| SendRead (i : Z)
| Receive
| SendUpdate (u : tracerUpdate)
| SelectRead
| SelectUpdate
| SendOut.

(** What a step or a call comes to: it cannot be taken now, the process
    exited in [log.Error.Fatal], or it is done. *)
Inductive Outcome (A : Type) :=
| Blocked
| Fatal (err : error)
| Done (s : System) (a : A).
Arguments Blocked {A}.
Arguments Fatal {A} err.
Arguments Done {A} s a.

(** No caller of [getTracerEventsCache] or [ClearTracerEventCache] acts
    in the schedule. *)
Definition isCallerAction (a : Action) : bool :=
  match a with
  | SendRead _ | Receive => true
  | _ => false
  end.

Definition quiet (sched : list Action) : bool :=
  forallb (fun a => negb (isCallerAction a)) sched.

(** The updates [AddEvent] sends in the schedule, in order. *)
Definition sentUpdates (sched : list Action) : list tracerUpdate :=
  omap (fun a => match a with SendUpdate u => Some u | _ => None end) sched.

(** No read waits in [inReadChanEvent], no answer waits on
    [outChanEvent], and the goroutine stands at its [select]. *)
Definition idle (s : System) : bool :=
  match inReadChanEvent s, outChanEvent s, goroutine_sending s with
  | [], [], None => true
  | _, _, _ => false
  end.

Section CacheCallers.

Context {DB : Type} `{Store DB}.

(** [json.Marshal] of a list of events. *)
Variable json_MarshalEvents : list TracerEvent -> string * option error.

(** The step [a] in state [s], with the list a receive obtained.
    - [SendRead i] is [inReadChanEvent <- i], by [getTracerEventsCache] or
      [ClearTracerEventCache];
    - [Receive] is [<-outChanEvent] of [getTracerEventsCache]: it takes the
      oldest list on the channel, whoever it was sent for;
    - [SendUpdate u] is [inUpdateChanEvent <- u] of [AddEvent];
    - [SelectRead] and [SelectUpdate] are the two cases of the [select]:
      the goroutine takes the oldest value of that channel and runs the
      body, up to the send on [out]; with values on both channels either
      case can be taken;
    - [SendOut] is the send on [out] the goroutine stands at. *)
Definition act (a : Action) (s : System)
  : M DB (Outcome (option (list TracerEvent))) :=
  match a with
  | SendRead i =>
      match chan_send (inReadChanEvent s) i with
      | Some ch =>
          mret (Done {| inReadChanEvent := ch;
                        inUpdateChanEvent := inUpdateChanEvent s;
                        outChanEvent := outChanEvent s;
                        goroutine_events := goroutine_events s;
                        goroutine_sending := goroutine_sending s |} None)
      | None => mret Blocked
      end
  | Receive =>
      match outChanEvent s with
      | l :: rest =>
          mret (Done {| inReadChanEvent := inReadChanEvent s;
                        inUpdateChanEvent := inUpdateChanEvent s;
                        outChanEvent := rest;
                        goroutine_events := goroutine_events s;
                        goroutine_sending := goroutine_sending s |} (Some l))
      | [] => mret Blocked
      end
  | SendUpdate u =>
      match chan_send (inUpdateChanEvent s) u with
      | Some ch =>
          mret (Done {| inReadChanEvent := inReadChanEvent s;
                        inUpdateChanEvent := ch;
                        outChanEvent := outChanEvent s;
                        goroutine_events := goroutine_events s;
                        goroutine_sending := goroutine_sending s |} None)
      | None => mret Blocked
      end
  | SelectRead =>
      match goroutine_sending s, inReadChanEvent s with
      | None, i :: rest =>
          r ← tracerEventCache_step (goroutine_events s) (inR i);
          match r with
          | Err err => mret (Fatal err)
          | Ok (events', reply) =>
              mret (Done {| inReadChanEvent := rest;
                            inUpdateChanEvent := inUpdateChanEvent s;
                            outChanEvent := outChanEvent s;
                            goroutine_events := events';
                            goroutine_sending := reply |} None)
          end
      | _, _ => mret Blocked
      end
  | SelectUpdate =>
      match goroutine_sending s, inUpdateChanEvent s with
      | None, e :: rest =>
          r ← tracerEventCache_step (goroutine_events s) (inU e);
          match r with
          | Err err => mret (Fatal err)
          | Ok (events', reply) =>
              mret (Done {| inReadChanEvent := inReadChanEvent s;
                            inUpdateChanEvent := rest;
                            outChanEvent := outChanEvent s;
                            goroutine_events := events';
                            goroutine_sending := reply |} None)
          end
      | _, _ => mret Blocked
      end
  | SendOut =>
      match goroutine_sending s with
      | Some l =>
          match chan_send (outChanEvent s) l with
          | Some ch =>
              mret (Done {| inReadChanEvent := inReadChanEvent s;
                            inUpdateChanEvent := inUpdateChanEvent s;
                            outChanEvent := ch;
                            goroutine_events := goroutine_events s;
                            goroutine_sending := None |} None)
          | None => mret Blocked
          end
      | None => mret Blocked
      end
  end.

(** The steps of [sched] one after the other, with the lists the
    receives obtained. [Blocked] when a step of [sched] cannot be taken
    where it stands: the program has no such run. *)
Fixpoint run (sched : list Action) (s : System)
    (received : list (list TracerEvent))
  : M DB (Outcome (list (list TracerEvent))) :=
  match sched with
  | [] => mret (Done s received)
  | a :: sched' =>
      o ← act a s;
      match o with
      | Blocked => mret Blocked
      | Fatal err => mret (Fatal err)
      | Done s' got => run sched' s' (received ++ option_list got)
      end
  end.

(** [us] are updates the goroutine can have taken by the time it takes a
    read: the oldest of those that wait in [inUpdateChanEvent] in state
    [s] or are sent during [sched]; [E1] is the map its turns on them
    leave. *)
Definition tookUpdates (s : System) (sched : list Action) (db : DB)
    (us : list tracerUpdate) (E1 : gmap Z (list TracerEvent)) : Prop :=
  us `prefix_of` (inUpdateChanEvent s ++ sentUpdates sched)%list /\
  tracerEventCache (goroutine_events s) [] (map inU us) db
  = (Ok (E1, []), db, []).

(** [getTracerEventsCache(tracerID)]: the send of [int(tracerID)] on
    [inReadChanEvent], the steps [between] that the goroutine and the
    other callers take before this caller goes on, and the receive from
    [outChanEvent]. *)
Definition getTracerEventsCache (tracerID : N) (between : list Action)
    (s : System) : M DB (Outcome (list TracerEvent)) :=
  sent ← act (SendRead (int_of_uint tracerID)) s;
  match sent with
  | Blocked => mret Blocked
  | Fatal err => mret (Fatal err)
  | Done s1 _ =>
      r ← run between s1 [];
      match r with
      | Blocked => mret Blocked
      | Fatal err => mret (Fatal err)
      | Done s2 _ =>
          got ← act Receive s2;
          match got with
          | Done s3 (Some tracerEvents) => mret (Done s3 tracerEvents)
          | Done _ None | Blocked => mret Blocked
          | Fatal err => mret (Fatal err)
          end
      end
  end.

(** [ClearTracerEventCache()]: the send of -1 on [inReadChanEvent]. *)
Definition ClearTracerEventCache : Action := SendRead (-1).

(** [GetEvents(tracerID)], with the steps [between] of the others during
    the call: the returned [ret] and [err]. *)
Definition GetEvents (tracerID : N) (between : list Action) (s : System)
  : M DB (Outcome (string * option error)) :=
  r ← getTracerEventsCache tracerID between s;
  match r with
  | Blocked => mret Blocked
  | Fatal err => mret (Fatal err)
  | Done s' tracerEvents =>
      let '(ret, err) := json_MarshalEvents tracerEvents in
      match err with
      | Some e => emit (LogWarning e)
      | None => mret tt
      end;;
      mret (Done s' (ret, err))
  end.

End CacheCallers.

(** ** Raw events *)

Section RawEvents.

Context {DB : Type}.

(** [json.Valid], [json.MarshalIndent] of a string, [gohtml.Format], and
    [store.DB.FirstOrCreate], which answers with the raw event found or
    created. *)
Variable json_Valid : string -> bool.
Variable json_MarshalIndent : string -> result string.
Variable gohtml_Format : string -> string.
Variable db_FirstOrCreate : RawEvent -> DB -> DB * RawEvent * option error.

(** [AddEventData(eventData)]: the returned raw event and error, the store
    after the call and the warnings logged. The warning of the second
    error path is kept as its text without the printed raw event. *)
Definition AddEventData (eventData : string) (db : DB)
  : (RawEvent * option error) * DB * list Effect :=
  let prepared :=
    if negb (json_Valid eventData)
    then Ok (gohtml_Format eventData, HTML)
    else match json_MarshalIndent eventData with
         | Err err => Err err
         | Ok ind => Ok (ind, JSON)
         end in
  match prepared with
  | Err err => ((RawEvent_zero, Some err), db, [LogWarning err])
  | Ok (e, f) =>
      let '(db', re, err) :=
        db_FirstOrCreate {| RawID := 0; RawData := e; Format := f |} db in
      match err with
      | Some err' =>
          ((re, Some err'), db',
           [LogWarning "Wasn't able to create a raw event"])
      | None => ((re, None), db', [])
      end
  end.

End RawEvents.

(** ** A store that refuses one update *)

(** Modelled from the spec: a Store whose state counts the calls of
    [Updates] it has seen; it refuses the first and accepts every other
    call. It serves to evaluate the code where a write fails. *)
Definition refuse_first_Updates (c : Tracer) (f : TracerField) (calls : nat)
  : nat * option error :=
  match calls with
  | O => (1%nat, Some "database is locked")
  | S _ => (S calls, None)
  end.

Definition RefusingStore : Store nat := {|
  db_Create := fun _ calls => (calls, Ok 7);
  db_Updates := refuse_first_Updates;
  db_Find := fun _ _ => Err "database is locked";
  db_Related := fun _ _ => RawEvent_zero
|}.

(** ** A store that is full *)

(** Modelled from the spec: a Store that accepts every [Updates] and
    refuses every [Create]. It serves to evaluate the code where the event
    cannot be written. *)
Definition FullStore : Store unit := {|
  db_Create := fun _ db => (db, Err "disk full");
  db_Updates := fun _ _ db => (db, None);
  db_Find := fun _ _ => Ok [];
  db_Related := fun _ _ => RawEvent_zero
|}.

(** ** Two claims in the words of the specification *)

(** The watermark as the specification words it, for a tracer that starts
    at severity 0 without events: after any sequence of calls the row's
    [OverallSeverity] is the largest severity among the findings stored
    for the tracer, and [HasTracerEvents] is true exactly when a stored
    event has a finding. *)
Definition watermarkHolds : Prop :=
  forall (DB : Type) (S : Store DB) gohtml_Format html_Parse json_Marshal
         tracer events (db : DB),
    OverallSeverity tracer = 0 ->
    HasTracerEvents tracer = false ->
    let '(row, _, trace) :=
      AddEvents gohtml_Format html_Parse json_Marshal tracer events db in
    OverallSeverity row = maxSeverity (storedFindings trace) /\
    (HasTracerEvents row = true <->
     exists e, In e (created trace) /\ DOMContexts e <> []).

(** The frame of a call that is not markup as the specification words
    it: the classifier takes no part, the stored event carries no
    finding, and the tracer is neither updated nor published. *)
Definition notMarkupStoresNoFindings : Prop :=
  forall (DB : Type) (S : Store DB) gohtml_Format html_Parse json_Marshal
         tracer event (db : DB),
    Format (RawEvent_ event) <> HTML ->
    let '(res, db', trace) :=
      AddEvent gohtml_Format html_Parse json_Marshal tracer event db in
    (forall gohtml_Format' html_Parse',
        AddEvent gohtml_Format' html_Parse' json_Marshal tracer event db
        = AddEvent gohtml_Format html_Parse json_Marshal tracer event db) /\
    storedFindings trace = [] /\
    Forall (fun ef => isTracerUpdate ef = false) trace /\
    OverallSeverity (rowAfter trace tracer) = OverallSeverity tracer /\
    HasTracerEvents (rowAfter trace tracer) = HasTracerEvents tracer.

(** ** More concrete inputs *)

Module Inputs.

(** A tracer whose payload is nowhere in [Fixtures.document]. *)
Definition absentTracer : Tracer :=
  {| Tracer_ID := 2; TracerPayload := "QQQ"; HasTracerEvents := false;
     OverallSeverity := 0; TracerEvents := [] |}.

Definition marshalEvents (tracerEvents : list TracerEvent)
  : string * option error :=
  ("[]", None).

(** A finding an event can arrive with, and a JSON event that carries
    it. *)
Definition arrivedFinding : DOMContext :=
  {| TracerEventID := 0; HTMLNodeType := "a"; HTMLLocationType := Text;
     EventContext := "XSS"; Severity := 1; Reason := LeafNode |}.

Definition structuredWithFinding : TracerEvent :=
  withDOMContexts
    (withRawEvent (Fixtures.eventOf "dom") Fixtures.rawStructured)
    [arrivedFinding].

(** Stand-ins for [json.Valid] and [json.MarshalIndent]: a text that
    opens with a bracket counts as JSON and is kept as it is. *)
Definition valid (s : string) : bool := strings.HasPrefix s "[".

Definition indent (s : string) : result string := Ok s.

(** Modelled from the spec: find-or-create-raw-event of the Store, which
    is not part of this file. It answers with the stored raw event of the
    same data and format, or stores the one asked for under a new
    identifier. *)
Definition firstOrCreate (q : RawEvent) (db : MemDB)
  : MemDB * RawEvent * option error :=
  let same r :=
    String.eqb (RawData r) (RawData q) &&
    match Format r, Format q with
    | HTML, HTML | JSON, JSON => true
    | _, _ => false
    end in
  match List.find same (mem_raw db) with
  | Some r => (db, r, None)
  | None =>
      let re := {| RawID := N.of_nat (length (mem_raw db)) + 1;
                   RawData := RawData q; Format := Format q |} in
      ({| mem_events := mem_events db; mem_raw := mem_raw db ++ [re];
          mem_next := mem_next db |}, re, None)
  end.

End Inputs.

(** * Properties *)

(** Unfolds the plumbing of [M] in the goal. *)
Ltac run_M :=
  unfold mbind, mret, M_bind, M_ret, emit, when, listen,
    Create_, Updates_, Find_, Related_ in *.

(** ** Induction over documents *)

Section NodeInduction.

Variable P : Node -> Prop.
Hypothesis node_case :
  forall ty data attrs cs, Forall P cs -> P (mkNode ty data attrs cs).

Lemma Node_ind (n : Node) : P n.
Proof.
  revert n. fix IH 1. intros [ty data attrs cs]. apply node_case.
  induction cs as [|c cs IHcs]; constructor; [apply IH | exact IHcs].
Qed.

End NodeInduction.

(** ** Facts about the classifier *)

Lemma maxSeverity_app cs ds :
  maxSeverity (cs ++ ds) = N.max (maxSeverity cs) (maxSeverity ds).
Proof.
  unfold maxSeverity. induction cs as [|c cs IH]; simpl.
  - now rewrite N.max_0_l.
  - rewrite IH. now rewrite N.max_assoc.
Qed.

Lemma maxSeverity_single c : maxSeverity [c] = Severity c.
Proof. unfold maxSeverity. simpl. apply N.max_0_r. Qed.

Lemma maxSeverity_ge cs c : In c cs -> Severity c <= maxSeverity cs.
Proof.
  unfold maxSeverity. induction cs as [|d cs IH]; simpl; [tauto|].
  intros [->|H]; [apply N.le_max_l|].
  etransitivity; [exact (IH H)|apply N.le_max_r].
Qed.

Section ClassifierFacts.

Variable gohtml_Format : string -> string.

Lemma tracks_enter st : tracks st (enter st).
Proof.
  exists []. simpl. rewrite app_nil_r, N.max_0_r. repeat split. reflexivity.
Qed.

Lemma highest_raiseHighest l :
  highest (raiseHighest l) = N.max (highest l) (sev l).
Proof.
  unfold raiseHighest. destruct (N.ltb_spec (highest l) (sev l)); simpl; lia.
Qed.

Lemma sev_raiseHighest l : sev (raiseHighest l) = sev l.
Proof. unfold raiseHighest. now destruct (highest l <? sev l). Qed.

Lemma reason_raiseHighest l : reason (raiseHighest l) = reason l.
Proof. unfold raiseHighest. now destruct (highest l <? sev l). Qed.

Lemma tracerLocations_raiseHighest l :
  tracerLocations (raiseHighest l) = tracerLocations l.
Proof. unfold raiseHighest. now destruct (highest l <? sev l). Qed.

(** A step that appends one finding and leaves its severity in [sev]. *)
Lemma tracks_emit base l c r :
  tracks base l ->
  tracks base
    (raiseHighest
       {| tracerLocations := tracerLocations l ++ [c]; highest := highest l;
          sev := Severity c; reason := r |}).
Proof.
  intros (new & Hl & Hh & Hs). exists (new ++ [c]).
  rewrite tracerLocations_raiseHighest, highest_raiseHighest, sev_raiseHighest.
  simpl. rewrite Hl, Hh, maxSeverity_app, maxSeverity_single, app_assoc.
  repeat split; lia.
Qed.

(** A step that appends nothing: the stale [sev] is compared again, and
    cannot raise [highest]. *)
Lemma tracks_skip base l : tracks base l -> tracks base (raiseHighest l).
Proof.
  intros (new & Hl & Hh & Hs). exists new.
  rewrite tracerLocations_raiseHighest, highest_raiseHighest, sev_raiseHighest.
  repeat split; trivial; lia.
Qed.

Lemma tracks_checkNode base n parentName tracer ev l :
  tracks base l -> tracks base (checkNode gohtml_Format n parentName tracer ev l).
Proof.
  intros H. unfold checkNode.
  destruct (strings.Contains (Data n) tracer); [|exact H].
  destruct (Type_ n); destruct (String.eqb parentName "script");
    destruct (negb (isResponse ev)); cbv beta iota zeta;
    match goal with
    | |- tracks _ (raiseHighest
                     {| tracerLocations := _ ++ [?c]; highest := _;
                        sev := _; reason := ?r |}) =>
        exact (tracks_emit base l c r H)
    end.
Qed.

Lemma tracks_checkAttr base nodeData tracer ev l a :
  tracks base l -> tracks base (checkAttr nodeData tracer ev l a).
Proof.
  intros H. unfold checkAttr.
  destruct (strings.Contains (Key a) tracer).
  - destruct (negb (isResponse ev)); cbv beta iota zeta;
      match goal with
      | |- tracks _ (raiseHighest
                       {| tracerLocations := _ ++ [?c]; highest := _;
                          sev := _; reason := ?r |}) =>
          exact (tracks_emit base l c r H)
      end.
  - destruct (strings.Contains (Val a) tracer); [|now apply tracks_skip].
    destruct (negb (isResponse ev));
      [destruct (String.eqb (Key a) "href" && strings.HasPrefix (Val a) tracer);
       [|destruct (strings.HasPrefix (Key a) "on")]|];
      cbv beta iota zeta;
      match goal with
      | |- tracks _ (raiseHighest
                       {| tracerLocations := _ ++ [?c]; highest := _;
                          sev := _; reason := ?r |}) =>
          exact (tracks_emit base l c r H)
      end.
Qed.

Lemma tracks_attrs base nodeData tracer ev attrs : forall l,
  tracks base l ->
  tracks base (fold_left (checkAttr nodeData tracer ev) attrs l).
Proof.
  induction attrs as [|a attrs IH]; intros l H; simpl; [exact H|].
  apply IH. now apply tracks_checkAttr.
Qed.

Lemma extends_refl st : extends st st.
Proof.
  exists []. rewrite app_nil_r. unfold maxSeverity. simpl.
  now rewrite N.max_0_r.
Qed.

Lemma extends_trans st1 st2 st3 :
  extends st1 st2 -> extends st2 st3 -> extends st1 st3.
Proof.
  intros (n1 & L1 & H1) (n2 & L2 & H2). exists (n1 ++ n2).
  rewrite L2, L1, H2, H1, maxSeverity_app, app_assoc. split; [reflexivity|lia].
Qed.

Lemma tracks_leave st l : tracks st l -> extends st (leave l).
Proof. intros (new & Hl & Hh & _). exists new. now split. Qed.

Lemma extends_children (step : Shared -> Node -> Shared) cs :
  Forall (fun c => forall st, extends st (step st c)) cs ->
  forall st, extends st (fold_left step cs st).
Proof.
  induction 1 as [|c cs Hc _ IH]; intros st; simpl; [apply extends_refl|].
  eapply extends_trans; [apply Hc|apply IH].
Qed.

Lemma getTracerLocation_extends n : forall Parent tracer ev st,
  extends st (getTracerLocation gohtml_Format n Parent tracer ev st).
Proof.
  induction n as [ty data attrs cs IH] using Node_ind.
  intros Parent tracer ev st. simpl.
  eapply extends_trans.
  - apply tracks_leave, tracks_attrs, tracks_checkNode, tracks_enter.
  - apply extends_children. clear -IH.
    induction IH as [|c cs Hc _ IHcs]; constructor; [|exact IHcs].
    intros st. apply Hc.
Qed.

End ClassifierFacts.

(** From an empty list and 0, [highest] ends as the largest severity of
    the findings. *)
Lemma getTracerLocation_fresh gohtml_Format n Parent tracer tracerEvent :
  snd (getTracerLocation gohtml_Format n Parent tracer tracerEvent ([], 0))
  = maxSeverity
      (fst (getTracerLocation gohtml_Format n Parent tracer tracerEvent ([], 0))).
Proof.
  destruct (getTracerLocation_extends gohtml_Format n Parent tracer tracerEvent
              ([], 0)) as (new & Hl & Hh).
  simpl in Hl, Hh. rewrite N.max_0_l in Hh. now rewrite Hl, Hh.
Qed.

(** C1. Started as [getDOMContexts] starts it (no findings yet, [highest]
    at 0), the walk returns as [highest] the largest severity among the
    findings it emitted for the whole document, and 0 when it emitted none;
    the [sev] variable that survives from the node check into the attribute
    loop never pushes [highest] above an emitted severity. *)
Theorem getTracerLocation_highest_is_max :
  forall gohtml_Format n Parent tracer tracerEvent,
    let r :=
      getTracerLocation gohtml_Format n Parent tracer tracerEvent ([], 0) in
    snd r = maxSeverity (fst r) /\
    (forall c, In c (fst r) -> Severity c <= snd r) /\
    (fst r = [] -> snd r = 0) /\
    (fst r <> [] -> exists c, In c (fst r) /\ Severity c = snd r).
Proof.
  intros fmt n Parent tracer ev r.
  pose proof (getTracerLocation_fresh fmt n Parent tracer ev) as Hmax.
  fold r in Hmax. rewrite Hmax.
  generalize (fst r). intros found. clear r Hmax.
  split; [reflexivity|]. split; [|split].
  - intros c Hc. now apply maxSeverity_ge.
  - intros ->. reflexivity.
  - intros Hne. unfold maxSeverity.
    induction found as [|c found IH]; [congruence|]. simpl.
    destruct found as [|d found].
    + exists c. split; [now left|]. simpl. now rewrite N.max_0_r.
    + destruct IH as (c' & Hin & Hc'); [congruence|].
      destruct (N.max_spec (Severity c)
                  (fold_right N.max 0 (map Severity (d :: found))))
        as [[_ ->]|[_ ->]].
      * exists c'. split; [now right|exact Hc'].
      * exists c. split; [now left|reflexivity].
Qed.

(** ** The rule for one node and one attribute *)

Section Rules.

Variable gohtml_Format : string -> string.

Lemma checkAttr_grows nodeData tracer ev l a :
  exists new,
    tracerLocations (checkAttr nodeData tracer ev l a) = tracerLocations l ++ new.
Proof.
  unfold checkAttr. rewrite tracerLocations_raiseHighest.
  destruct (strings.Contains (Key a) tracer).
  - destruct (negb (isResponse ev)); eexists; reflexivity.
  - destruct (strings.Contains (Val a) tracer).
    + destruct (negb (isResponse ev));
        [destruct (String.eqb (Key a) "href" && strings.HasPrefix (Val a) tracer);
         [|destruct (strings.HasPrefix (Key a) "on")]|];
        eexists; reflexivity.
    + exists []. now rewrite app_nil_r.
Qed.

Lemma attrs_grow nodeData tracer ev attrs : forall l,
  exists new,
    tracerLocations (fold_left (checkAttr nodeData tracer ev) attrs l)
    = tracerLocations l ++ new.
Proof.
  induction attrs as [|a attrs IH]; intros l; simpl.
  - exists []. now rewrite app_nil_r.
  - destruct (IH (checkAttr nodeData tracer ev l a)) as (n2 & ->).
    destruct (checkAttr_grows nodeData tracer ev l a) as (n1 & ->).
    exists (n1 ++ n2). now rewrite app_assoc.
Qed.

Lemma children_grow tracer ev parent cs : forall st,
  exists new,
    fst (fold_left
           (fun st c => getTracerLocation gohtml_Format c parent tracer ev st)
           cs st)
    = fst st ++ new.
Proof.
  induction cs as [|c cs IH]; intros st; simpl.
  - exists []. now rewrite app_nil_r.
  - destruct (IH (getTracerLocation gohtml_Format c parent tracer ev st))
      as (n2 & ->).
    destruct (getTracerLocation_extends gohtml_Format c parent tracer ev st)
      as (n1 & -> & _).
    exists (n1 ++ n2). now rewrite app_assoc.
Qed.

Lemma checkAttr_value nodeData tracer ev l a :
  strings.Contains (Key a) tracer = false ->
  strings.Contains (Val a) tracer = true ->
  tracerLocations (checkAttr nodeData tracer ev l a)
  = tracerLocations l ++ [attrValueFinding nodeData tracer ev a].
Proof.
  intros HK HV. unfold checkAttr, attrValueFinding, attrValueRule.
  rewrite tracerLocations_raiseHighest, HK, HV.
  destruct (isResponse ev); [reflexivity|].
  destruct (String.eqb (Key a) "href"), (strings.HasPrefix (Val a) tracer),
    (strings.HasPrefix (Key a) "on"); reflexivity.
Qed.

End Rules.

(** The walk over [Fixtures.document] for a "dom" event: the attribute
    value, the attribute name, the stale [sev] at the attribute without
    the tracer, the text and the comment. *)
Example getTracerLocation_document :
  getTracerLocation Fixtures.plain Fixtures.document None "XSS"
    (Fixtures.eventOf "dom") ([], 0)
  = ([ {| TracerEventID := 0; HTMLNodeType := "a"; HTMLLocationType := AttrVal;
          EventContext := "XSS1"; Severity := 2;
          Reason := AttributeValueStartHref |};
       {| TracerEventID := 0; HTMLNodeType := "a"; HTMLLocationType := AttrT;
          EventContext := "1"; Severity := 3; Reason := AttributeName |};
       {| TracerEventID := 0; HTMLNodeType := "a"; HTMLLocationType := Text;
          EventContext := "see XSS"; Severity := 0; Reason := LeafNode |};
       {| TracerEventID := 0; HTMLNodeType := "body"; HTMLLocationType := Comment;
          EventContext := "XSS"; Severity := 1; Reason := LeafNodeCommentTag |} ],
     3).
Proof. reflexivity. Qed.

(** C2. An element whose tag name contains the tracer, in an event that is
    not a "response": the node check leaves exactly one finding, of kind
    [NodeName] with severity 3 and reason [TagName], whatever the parent is
    called, "script" included; it is the first finding of the walk of that
    node, and [sev] and [reason] hold 3 and [TagName] afterwards. *)
Theorem tag_name_wins_over_script_tag :
  forall gohtml_Format n Parent tracer tracerEvent st,
    Type_ n = ElementNode ->
    strings.Contains (Data n) tracer = true ->
    isResponse tracerEvent = false ->
    checkNode gohtml_Format n (parentData Parent) tracer tracerEvent (enter st)
    = {| tracerLocations :=
           fst st ++ [tagNameFinding gohtml_Format n Parent tracerEvent];
         highest := N.max (snd st) 3; sev := 3; reason := TagName |} /\
    Reason (tagNameFinding gohtml_Format n Parent tracerEvent)
      <> LeafNodeScriptTag /\
    exists rest,
      fst (getTracerLocation gohtml_Format n Parent tracer tracerEvent st)
      = fst st ++ tagNameFinding gohtml_Format n Parent tracerEvent :: rest.
Proof.
  intros fmt n Parent tracer ev st Hty Hdata Hresp.
  assert (Hnode :
    checkNode fmt n (parentData Parent) tracer ev (enter st)
    = {| tracerLocations := fst st ++ [tagNameFinding fmt n Parent ev];
         highest := N.max (snd st) 3; sev := 3; reason := TagName |}).
  { unfold checkNode. rewrite Hdata, Hty, Hresp. cbv beta iota zeta.
    destruct (String.eqb (parentData Parent) "script"); cbn [negb];
      cbv beta iota zeta; unfold raiseHighest; cbn [highest sev enter];
      destruct (N.ltb_spec (snd st) 3) as [Hlt|Hge];
      unfold tagNameFinding; f_equal; cbn [tracerLocations enter]; lia. }
  split; [exact Hnode|]. split; [discriminate|].
  destruct n as [ty data attrs cs]. cbn [getTracerLocation].
  cbn [Data Attr children] in *. rewrite Hnode.
  match goal with
  | |- context [fold_left (checkAttr ?d ?t ?e) attrs ?l] =>
      destruct (attrs_grow d t e attrs l) as (n1 & Hattrs)
  end.
  match goal with
  | |- context [fold_left ?f cs ?s] =>
      destruct (children_grow fmt tracer ev (Some data) cs s) as (n2 & Hcs)
  end.
  rewrite Hcs. cbn [leave fst]. rewrite Hattrs. cbn [tracerLocations].
  exists (n1 ++ n2). now rewrite <- !app_assoc.
Qed.

Lemma tag_name_wins_over_script_tag_witness :
  exists rest,
    fst (getTracerLocation Fixtures.plain Fixtures.tagNode (Some "script") "XSS"
           (Fixtures.eventOf "html") ([], 0))
    = {| TracerEventID := 0; HTMLNodeType := "script";
         HTMLLocationType := NodeName; EventContext := "zzXSSzz";
         Severity := 3; Reason := TagName |} :: rest.
Proof.
  exact (proj2 (proj2
    (tag_name_wins_over_script_tag Fixtures.plain Fixtures.tagNode
       (Some "script") "XSS" (Fixtures.eventOf "html") ([], 0)
       eq_refl eq_refl eq_refl))).
Defined.

Lemma HasPrefix_on_not_href key :
  strings.HasPrefix key "on" = true -> String.eqb key "href" = false.
Proof.
  destruct key as [|c key]; [discriminate|]. cbn.
  destruct (Ascii.eqb_spec c "o") as [->|]; [reflexivity|discriminate].
Qed.

Lemma In_attr_finding nodeData tracer ev c attrs : forall l,
  (exists pre a post l0,
      attrs = pre ++ a :: post /\
      tracerLocations (checkAttr nodeData tracer ev l0 a)
      = tracerLocations l0 ++ [c] /\
      l0 = fold_left (checkAttr nodeData tracer ev) pre l) ->
  In c (tracerLocations (fold_left (checkAttr nodeData tracer ev) attrs l)).
Proof.
  intros l (pre & a & post & l0 & -> & Hc & ->).
  rewrite fold_left_app. cbn [fold_left].
  destruct (attrs_grow nodeData tracer ev post
              (checkAttr nodeData tracer ev
                 (fold_left (checkAttr nodeData tracer ev) pre l) a))
    as (new & ->).
  rewrite Hc. rewrite !in_app_iff. left. right. now left.
Qed.

(** C3. An attribute whose name does not contain the tracer and whose value
    does: the loop body appends exactly one finding, of kind [AttrVal],
    whatever [sev] and [reason] held before. Its severity and reason are 2
    and [AttributeValueStartHref] when the event is not a "response", the
    key is "href" and the value starts with the tracer; 2 and
    [AttributeValueOnEventHandler] when the event is not a "response" and
    the key starts with "on"; 1 and [AttributeValueHTTPResponse] in every
    other case, so always for a "response". The finding is among those the
    walk returns for any node that carries the attribute. *)
Theorem attribute_value_finding :
  forall gohtml_Format nodeData tracer tracerEvent l a,
    strings.Contains (Key a) tracer = false ->
    strings.Contains (Val a) tracer = true ->
    tracerLocations (checkAttr nodeData tracer tracerEvent l a)
    = tracerLocations l ++ [attrValueFinding nodeData tracer tracerEvent a] /\
    HTMLLocationType (attrValueFinding nodeData tracer tracerEvent a) = AttrVal /\
    (isResponse tracerEvent = false -> Key a = "href" ->
     strings.HasPrefix (Val a) tracer = true ->
     attrValueRule tracer tracerEvent a = (2, AttributeValueStartHref)) /\
    (isResponse tracerEvent = false -> strings.HasPrefix (Key a) "on" = true ->
     attrValueRule tracer tracerEvent a = (2, AttributeValueOnEventHandler)) /\
    (isResponse tracerEvent = true \/
     (~ (Key a = "href" /\ strings.HasPrefix (Val a) tracer = true) /\
      strings.HasPrefix (Key a) "on" = false) ->
     attrValueRule tracer tracerEvent a = (1, AttributeValueHTTPResponse)) /\
    (forall n Parent st,
        In a (Attr n) ->
        In (attrValueFinding (Data n) tracer tracerEvent a)
           (fst (getTracerLocation gohtml_Format n Parent tracer tracerEvent st))).
Proof.
  intros fmt nodeData tracer ev l a HK HV.
  split; [now apply checkAttr_value|]. split; [reflexivity|].
  unfold attrValueRule. repeat split.
  - intros -> -> ->. reflexivity.
  - intros -> Hon. rewrite (HasPrefix_on_not_href _ Hon), Hon. reflexivity.
  - intros [->|[Hhref ->]]; [reflexivity|].
    destruct (String.eqb_spec (Key a) "href") as [Hk|_];
      destruct (strings.HasPrefix (Val a) tracer) eqn:Hp;
      destruct (isResponse ev); try reflexivity.
    exfalso. apply Hhref. now split.
  - intros [ty data attrs cs] Parent st Hin. cbn [getTracerLocation Data Attr children].
    cbn [Attr] in Hin. apply in_split in Hin as (pre & post & ->).
    match goal with
    | |- In _ (fst (fold_left ?f cs ?s)) =>
        destruct (children_grow fmt tracer ev (Some data) cs s) as (n2 & ->)
    end.
    cbn [leave fst]. apply in_app_iff. left.
    apply In_attr_finding. eexists pre, a, post, _. split; [reflexivity|].
    split; [|reflexivity]. now apply checkAttr_value.
Qed.

Lemma attribute_value_finding_witness :
  tracerLocations
    (checkAttr "a" "XSS" (Fixtures.eventOf "dom")
       (enter ([], 0)) Fixtures.hrefAttr)
  = [ {| TracerEventID := 0; HTMLNodeType := "a"; HTMLLocationType := AttrVal;
         EventContext := "XSS1"; Severity := 2;
         Reason := AttributeValueStartHref |} ].
Proof.
  exact (proj1
    (attribute_value_finding Fixtures.plain "a" "XSS" (Fixtures.eventOf "dom")
       (enter ([], 0)) Fixtures.hrefAttr eq_refl eq_refl)).
Defined.

(** The same attribute in a "response", and an event handler. *)
Example attribute_value_response :
  attrValueRule "XSS" (Fixtures.eventOf "response") Fixtures.hrefAttr
  = (1, AttributeValueHTTPResponse) /\
  attrValueRule "XSS" (Fixtures.eventOf "response") Fixtures.onclickAttr
  = (1, AttributeValueHTTPResponse) /\
  attrValueRule "XSS" (Fixtures.eventOf "dom") Fixtures.onclickAttr
  = (2, AttributeValueOnEventHandler).
Proof. repeat split. Qed.

(** ** Ingestion *)

Lemma maxSeverity_zeroed cs :
  maxSeverity (map (fun c => withSeverity c 0) cs) = 0.
Proof.
  unfold maxSeverity. induction cs as [|c cs IH]; [reflexivity|].
  cbn [map fold_right withSeverity Severity]. rewrite IH. reflexivity.
Qed.




(** The same document as a "text" event and as a "dom" event: the first
    leaves the tracer's severity alone, the second raises it to 3. *)
Example getDOMContexts_text_and_dom :
  (let '(event', sev, err, db', trace) :=
     getDOMContexts Fixtures.plain Fixtures.parse (Fixtures.eventOf "text")
       Fixtures.tracer Fixtures.emptyDB in
   (map Severity (DOMContexts event'), sev, map isTracerUpdate trace))
  = ([0; 0; 0; 0], 0, [true; true]) /\
  (let '(event', sev, err, db', trace) :=
     getDOMContexts Fixtures.plain Fixtures.parse (Fixtures.eventOf "dom")
       Fixtures.tracer Fixtures.emptyDB in
   (map Severity (DOMContexts event'), sev, rowAfter trace Fixtures.tracer))
  = ([2; 3; 0; 1], 3,
     withOverallSeverity (withHasTracerEvents Fixtures.tracer true) 3).
Proof. split; reflexivity. Qed.

(** One call on the DOM event of [Fixtures]: the two updates of the tracer
    and its publication come before the event is created; the finding of
    severity 3 raises the notification. *)
Example AddEvent_dom_trace :
  let '(res, db', trace) :=
    AddEvent Fixtures.plain Fixtures.parse Fixtures.marshal Fixtures.tracer
      (Fixtures.eventOf "dom") Fixtures.emptyDB in
  (res, map effectName trace)
  = (("{}", None),
     ["Updates overall_severity"; "Updates has_tracer_events";
      "UpdateSubscribers tracer"; "Create"; "inUpdateChanEvent";
      "UpdateSubscribers event"; "UpdateSubscribers notification"]).
Proof. vm_compute. reflexivity. Qed.

(** C9. A raw event of format HTML that does not parse: [AddEvent] returns
    the parse error with a nil [ret], and does nothing but log it. The
    store is unchanged and no call on it was made, so neither the event
    with its findings nor the tracer row was written; nothing was sent to
    the cache or to the subscribers. *)
Theorem AddEvent_parse_failure :
  forall (DB : Type) (S : Store DB) gohtml_Format html_Parse json_Marshal
         tracer event err (db : DB),
    Format (RawEvent_ event) = HTML ->
    html_Parse (RawData (RawEvent_ event)) = Err err ->
    AddEvent gohtml_Format html_Parse json_Marshal tracer event db
    = ((EmptyString, Some err), db, [LogWarning err; LogWarning err]) /\
    let '(ret, e, db', trace) :=
      AddEvent gohtml_Format html_Parse json_Marshal tracer event db in
    e = Some err /\ db' = db /\
    Forall (fun ef => isOutward ef = false) trace /\
    created trace = [] /\
    rowAfter trace tracer = tracer.
Proof.
  intros DB S fmt parse marshal tracer event err db Hfmt Hparse.
  assert (Hrun : AddEvent fmt parse marshal tracer event db
                 = ((EmptyString, Some err), db, [LogWarning err; LogWarning err])).
  { unfold AddEvent, getDOMContexts. rewrite Hfmt, Hparse. reflexivity. }
  split; [exact Hrun|]. rewrite Hrun.
  repeat split. repeat constructor.
Qed.

Lemma AddEvent_parse_failure_witness :
  AddEvent Fixtures.plain Fixtures.parse Fixtures.marshal Fixtures.tracer
    (withRawEvent (Fixtures.eventOf "dom") Fixtures.rawBroken) Fixtures.emptyDB
  = ((EmptyString, Some "html: cannot parse"), Fixtures.emptyDB,
     [LogWarning "html: cannot parse"; LogWarning "html: cannot parse"]).
Proof.
  exact (proj1
    (AddEvent_parse_failure MemDB MemStore Fixtures.plain Fixtures.parse
       Fixtures.marshal Fixtures.tracer
       (withRawEvent (Fixtures.eventOf "dom") Fixtures.rawBroken)
       "html: cannot parse" Fixtures.emptyDB eq_refl eq_refl)).
Defined.

Lemma createAndPublish_trace
    {DB : Type} `{Store DB} json_Marshal tracer event (db : DB) :
  let '(res, db', trace) := createAndPublish json_Marshal tracer event db in
  Forall (fun ef => isTracerUpdate ef = false) trace /\
  rowAfter trace tracer = tracer /\
  (forall stored r, In (Create stored r) trace ->
                    stored = withRawEvent event RawEvent_zero) /\
  (forall u, In (Send u) trace -> DOMContexts (Event u) = DOMContexts event) /\
  (forall e, In (UpdateSubscribers (PubEvent e)) trace ->
             DOMContexts e = DOMContexts event) /\
  (forall t e, In (UpdateSubscribers (PubNotification t e)) trace ->
               existsb (fun c => 2 <=? Severity c) (DOMContexts event) = true).
Proof.
  unfold createAndPublish. run_M.
  destruct (db_Create (withRawEvent event RawEvent_zero) db) as [db1 [id|e]].
  - change (DOMContexts (withID event id)) with (DOMContexts event).
    destruct (json_Marshal (withID event id)) as [ret [e|]];
      destruct (existsb (fun c => 2 <=? Severity c) (DOMContexts event));
      cbn; (split; [repeat constructor|]); (split; [reflexivity|]);
      (split; [|split; [|split]]); intros;
      repeat match goal with
             | Hin : _ \/ _ |- _ => destruct Hin as [Hin|Hin]
             | Hin : False |- _ => destruct Hin
             | Hin : _ = _ |- _ => first [discriminate Hin | injection Hin as <-]
             end; try reflexivity; subst; reflexivity.
  - cbn. (split; [repeat constructor|]); (split; [reflexivity|]);
      (split; [|split; [|split]]); intros;
      repeat match goal with
             | Hin : _ \/ _ |- _ => destruct Hin as [Hin|Hin]
             | Hin : False |- _ => destruct Hin
             | Hin : _ = _ |- _ => first [discriminate Hin | injection Hin as <-]
             end; try reflexivity; subst; reflexivity.
Qed.

(** C10, as the code has it. A raw event whose format is not HTML:
    [AddEvent] is [createAndPublish] on the event as it came, so neither the parser nor
    the walk takes part and the result is the same for any of them. The
    event handed to [Create], sent to the cache and published carries the
    findings the event arrived with and no other, hence none for an event
    that arrives without findings. No [Updates] is made, the tracer row is
    as before, and the tracer is not published; an event that arrives
    without findings raises no notification either. *)
Theorem AddEvent_not_markup :
  forall (DB : Type) (S : Store DB) gohtml_Format html_Parse json_Marshal
         tracer event (db : DB),
    Format (RawEvent_ event) <> HTML ->
    AddEvent gohtml_Format html_Parse json_Marshal tracer event db
    = createAndPublish json_Marshal tracer event db /\
    (forall gohtml_Format' html_Parse',
        AddEvent gohtml_Format' html_Parse' json_Marshal tracer event db
        = AddEvent gohtml_Format html_Parse json_Marshal tracer event db) /\
    let '(res, db', trace) :=
      AddEvent gohtml_Format html_Parse json_Marshal tracer event db in
    (forall stored r, In (Create stored r) trace ->
                      DOMContexts stored = DOMContexts event) /\
    (forall u, In (Send u) trace -> DOMContexts (Event u) = DOMContexts event) /\
    (DOMContexts event = [] -> storedFindings trace = []) /\
    Forall (fun ef => isTracerUpdate ef = false) trace /\
    (DOMContexts event = [] ->
     forall t e, ~ In (UpdateSubscribers (PubNotification t e)) trace) /\
    OverallSeverity (rowAfter trace tracer) = OverallSeverity tracer /\
    HasTracerEvents (rowAfter trace tracer) = HasTracerEvents tracer.
Proof.
  intros DB S fmt parse marshal tracer event db Hfmt.
  assert (Hrun : forall fmt' parse',
    AddEvent fmt' parse' marshal tracer event db
    = createAndPublish marshal tracer event db).
  { intros fmt' parse'. unfold AddEvent.
    destruct (Format (RawEvent_ event)); [congruence|reflexivity]. }
  split; [apply Hrun|]. split; [intros; now rewrite !Hrun|].
  rewrite Hrun.
  pose proof (createAndPublish_trace marshal tracer event db) as Htrace.
  destruct (createAndPublish marshal tracer event db) as [[res db'] trace].
  destruct Htrace as (Hupd & Hrow & Hcreate & Hsend & _ & Hnote).
  split; [|split; [exact Hsend|split;
    [|split; [exact Hupd|split; [|now rewrite Hrow]]]]].
  - intros stored r Hin. now rewrite (Hcreate stored r Hin).
  - intros Hnone. unfold storedFindings.
    assert (Hall : Forall (fun e => DOMContexts e = []) (created trace)).
    { unfold created. apply Forall_forall. intros e He.
      apply list_elem_of_omap in He as (ef & Hef & Hsome).
      destruct ef as [| stored [id|] | | | | |]; try discriminate.
      injection Hsome as ->. apply (proj1 (list_elem_of_In _ _)) in Hef.
      rewrite (Hcreate _ _ Hef). exact Hnone. }
    induction Hall as [|e es He _ IH]; [reflexivity|].
    cbn. now rewrite He, IH.
  - intros Hnone t e Hin. specialize (Hnote t e Hin).
    rewrite Hnone in Hnote. discriminate Hnote.
Qed.

Lemma AddEvent_not_markup_witness :
  let '(res, db', trace) :=
    AddEvent Fixtures.plain Fixtures.parse Fixtures.marshal Fixtures.tracer
      (withRawEvent (Fixtures.eventOf "dom") Fixtures.rawStructured)
      Fixtures.emptyDB in
  storedFindings trace = [] /\
  List.filter isTracerUpdate trace = [] /\
  length (created trace) = 1%nat.
Proof.
  pose proof (AddEvent_not_markup MemDB MemStore Fixtures.plain Fixtures.parse
                Fixtures.marshal Fixtures.tracer
                (withRawEvent (Fixtures.eventOf "dom") Fixtures.rawStructured)
                Fixtures.emptyDB ltac:(discriminate)) as (_ & _ & Hthm).
  destruct (AddEvent Fixtures.plain Fixtures.parse Fixtures.marshal
              Fixtures.tracer
              (withRawEvent (Fixtures.eventOf "dom") Fixtures.rawStructured)
              Fixtures.emptyDB) as [[res db'] trace] eqn:Hrun.
  destruct Hthm as (_ & _ & Hnone & _).
  split; [exact (Hnone eq_refl)|].
  injection Hrun as _ _ <-. split; reflexivity.
Defined.

(** C10, as stated, fails: [AddEvent] takes the event as the caller made
    it, and a JSON event that arrives with a finding is handed to
    [Create] with that finding. *)
Lemma notMarkupStoresNoFindings_fails : ~ notMarkupStoresNoFindings.
Proof.
  intros Hclaim.
  pose proof (Hclaim MemDB MemStore Fixtures.plain Fixtures.parse
                Fixtures.marshal Fixtures.tracer Inputs.structuredWithFinding
                Fixtures.emptyDB ltac:(discriminate)) as Hrun.
  assert (Hstored :
    storedFindings
      (snd (AddEvent Fixtures.plain Fixtures.parse Fixtures.marshal
              Fixtures.tracer Inputs.structuredWithFinding Fixtures.emptyDB))
    = [Inputs.arrivedFinding]) by (vm_compute; reflexivity).
  destruct (AddEvent Fixtures.plain Fixtures.parse Fixtures.marshal
              Fixtures.tracer Inputs.structuredWithFinding Fixtures.emptyDB)
    as [[res db'] trace].
  destruct Hrun as (_ & Hnone & _). cbn [snd] in Hstored.
  rewrite Hnone in Hstored. discriminate Hstored.
Qed.

(** ** The store load path *)

Section LoadFacts.

Context {DB : Type} `{Store DB}.

Lemma resolveRawEvent_run k v st (db : DB) :
  exists st' trace,
    resolveRawEvent k v st db = (st', db, trace) /\
    (trace = [] \/ trace = [Related v]).
Proof.
  destruct st as [tracerEvents cache]. unfold resolveRawEvent.
  destruct (cache !! int_of_uint (RawEventID v)); run_M.
  - eexists _, _. split; [reflexivity|now left].
  - eexists _, _. split; [reflexivity|now right].
Qed.

Lemma rangeTracerEvents_run vs : forall k st (db : DB),
  exists st' trace,
    rangeTracerEvents k vs st db = (st', db, trace) /\
    Forall (fun e => isFind e = false) trace.
Proof.
  induction vs as [|v vs IH]; intros k st db; cbn [rangeTracerEvents].
  - run_M. eexists _, _. split; [reflexivity|constructor].
  - destruct (resolveRawEvent_run k v st db) as (st1 & t1 & Hrun1 & Ht1).
    destruct (IH (S k) st1 db) as (st2 & t2 & Hrun2 & Ht2).
    exists st2, (t1 ++ t2). unfold mbind, M_bind. rewrite Hrun1, Hrun2.
    split; [reflexivity|]. apply Forall_app. split; [|exact Ht2].
    destruct Ht1 as [->| ->]; repeat constructor.
Qed.

Lemma storeLoads_app t1 t2 :
  storeLoads (t1 ++ t2) = (storeLoads t1 + storeLoads t2)%nat.
Proof. unfold storeLoads. now rewrite List.filter_app, length_app. Qed.

Lemma storeLoads_none trace :
  Forall (fun e => isFind e = false) trace -> storeLoads trace = 0%nat.
Proof.
  unfold storeLoads. induction 1 as [|e trace He _ IH]; [reflexivity|].
  cbn [List.filter]. now rewrite He.
Qed.

(** A load reads the store once and leaves it as it is. *)
Lemma getTracerEventsDB_run tracerID (db : DB) :
  exists r rest,
    getTracerEventsDB tracerID db = (r, db, Find tracerID :: rest) /\
    storeLoads (Find tracerID :: rest) = 1%nat.
Proof.
  unfold getTracerEventsDB. run_M.
  destruct (db_Find tracerID db) as [tracerEvents|err].
  - destruct (rangeTracerEvents_run tracerEvents 0 (tracerEvents, ∅) db)
      as ([tes cache] & trace & Hrun & Htrace).
    rewrite Hrun. exists (Ok tes), (trace ++ []). split; [reflexivity|].
    change (storeLoads ([Find tracerID] ++ trace ++ []) = 1%nat).
    rewrite !storeLoads_app, (storeLoads_none trace Htrace). reflexivity.
  - exists (Err err), [LogWarning err]. split; reflexivity.
Qed.

End LoadFacts.

(** ** The event cache *)

Lemma length_zero_nil {A} (l : list A) :
  (length l =? 0)%nat = true <-> l = [].
Proof. destruct l; cbn; split; congruence. Qed.

(** C5, as the code has it. A read of an identifier other than -1 loads
    from the store exactly when the list the map holds for it is empty:
    the identifier is absent (never read nor updated, or dropped by the
    flush) or the list put there is empty. It then makes one load, leaves
    the store as it is, installs the loaded list and sends it; a store
    error ends the process. Otherwise it sends the cached list and the
    trace is empty. The read of -1 empties the map, so the next read of
    any identifier makes exactly one load. *)
Theorem read_loads_iff_list_empty :
  forall (DB : Type) (S : Store DB) events (i : Z) (db : DB),
    i <> (-1)%Z ->
    let '(r, db', trace) := tracerEventCache_step events (inR i) db in
    db' = db /\
    ((0 < storeLoads trace)%nat <-> events !!! i = []) /\
    (events !!! i = [] ->
     storeLoads trace = 1%nat /\
     match fst (fst (getTracerEventsDB (uint_of_int i) db)) with
     | Ok loaded => r = Ok (<[i := loaded]> events, Some loaded)
     | Err err => r = Err err
     end) /\
    (events !!! i <> [] ->
     trace = [] /\ r = Ok (events, Some (events !!! i))) /\
    (events !! i = None -> storeLoads trace = 1%nat) /\
    tracerEventCache_step events (inR (-1)) db = (Ok (∅, None), db, []) /\
    storeLoads (snd (tracerEventCache_step ∅ (inR i) db)) = 1%nat.
Proof.
  intros DB S events i db Hi.
  assert (Hne : (i =? -1)%Z = false) by now apply Z.eqb_neq.
  assert (Hload : forall evs : gmap Z (list TracerEvent),
    evs !!! i = [] ->
    exists r rest,
      tracerEventCache_step evs (inR i) db
      = (r, db, Find (uint_of_int i) :: rest) /\
      storeLoads (Find (uint_of_int i) :: rest) = 1%nat /\
      match fst (fst (getTracerEventsDB (uint_of_int i) db)) with
      | Ok loaded => r = Ok (<[i := loaded]> evs, Some loaded)
      | Err err => r = Err err
      end).
  { intros evs Hnil. cbn [tracerEventCache_step]. rewrite Hne, Hnil.
    cbn [length Nat.eqb].
    destruct (getTracerEventsDB_run (uint_of_int i) db)
      as (r0 & rest & Hrun & Hone).
    unfold mbind, M_bind. rewrite Hrun. cbn [fst].
    destruct r0 as [loaded|err]; run_M;
      eexists _, (rest ++ []); (split; [reflexivity|]);
      rewrite app_nil_r; split; [exact Hone|reflexivity|exact Hone|reflexivity]. }
  assert (Hflush : (∅ : gmap Z (list TracerEvent)) !!! i = []).
  { unfold lookup_total, map_lookup_total. now rewrite lookup_empty. }
  destruct (Hload ∅ Hflush) as (r1 & rest1 & Hrun1 & Hone1 & _).
  destruct (tracerEventCache_step events (inR i) db) as [[r db'] trace] eqn:Hstep.
  assert (Hcases :
    db' = db /\
    ((0 < storeLoads trace)%nat <-> events !!! i = []) /\
    (events !!! i = [] ->
     storeLoads trace = 1%nat /\
     match fst (fst (getTracerEventsDB (uint_of_int i) db)) with
     | Ok loaded => r = Ok (<[i := loaded]> events, Some loaded)
     | Err err => r = Err err
     end) /\
    (events !!! i <> [] -> trace = [] /\ r = Ok (events, Some (events !!! i)))).
  { destruct (events !!! i) as [|e es] eqn:Hlist.
    - destruct (Hload events Hlist) as (r0 & rest & Hrun & Hone & Hres).
      rewrite Hrun in Hstep. injection Hstep as <- <- <-.
      split; [reflexivity|]. rewrite Hone.
      split; [split; [reflexivity|lia]|]. split; [now split|congruence].
    - cbn [tracerEventCache_step] in Hstep. rewrite Hne, Hlist in Hstep.
      cbn [length Nat.eqb] in Hstep. run_M. injection Hstep as <- <- <-.
      split; [reflexivity|]. split; [split; [cbn; lia|discriminate]|].
      split; [discriminate|]. now split. }
  destruct Hcases as (Hdb & Hiff & Hempty & Hfull).
  split; [exact Hdb|]. split; [exact Hiff|]. split; [exact Hempty|].
  split; [exact Hfull|]. split; [|split].
  - intros Hnone. apply Hempty.
    unfold lookup_total, map_lookup_total. now rewrite Hnone.
  - reflexivity.
  - rewrite Hrun1. exact Hone1.
Qed.

Lemma read_loads_iff_list_empty_witness :
  let '(r, db', trace) :=
    tracerEventCache_step (∅ : gmap Z (list TracerEvent)) (inR 1)
      Fixtures.emptyDB in
  db' = Fixtures.emptyDB /\ storeLoads trace = 1%nat.
Proof.
  pose proof (read_loads_iff_list_empty MemDB MemStore ∅ 1%Z Fixtures.emptyDB
                ltac:(discriminate)) as Hthm.
  destruct (tracerEventCache_step ∅ (inR 1) Fixtures.emptyDB)
    as [[r db'] trace].
  destruct Hthm as (Hdb & _ & _ & _ & Habsent & _).
  split; [exact Hdb|]. apply Habsent. reflexivity.
Defined.

(** A tracer without events in the store is read twice: the first read
    installs the empty list, and the second read loads again, although the
    identifier is in the map and was loaded before. *)
Example read_twice_loads_twice :
  tracerEventCache (∅ : gmap Z (list TracerEvent)) [] [inR 1; inR 1]
    Fixtures.emptyDB
  = (Ok ({[ 1%Z := [] ]}, [[]; []]), Fixtures.emptyDB, [Find 1; Find 1]).
Proof. vm_compute. reflexivity. Qed.

(** C5, as stated, fails: after one read of a tracer that has no events in
    the store, the identifier is present in the map and was loaded, and
    the next read still loads from the store. *)
Lemma loadsWhenAbsentOrNeverLoaded_fails : ~ loadsWhenAbsentOrNeverLoaded.
Proof.
  intros Hclaim.
  assert (Hrun :
    tracerEventCache (∅ : gmap Z (list TracerEvent)) [] [inR 1]
      Fixtures.emptyDB
    = (Ok (<[1%Z := []]> ∅, [[]]), Fixtures.emptyDB, [Find 1]))
    by (vm_compute; reflexivity).
  destruct (Hclaim MemDB MemStore _ _ _ _ _ _ 1%Z Hrun ltac:(discriminate))
    as [Hloads _].
  destruct Hloads as [Habsent|Hnever].
  - vm_compute. reflexivity.
  - vm_compute in Habsent. discriminate.
  - apply Hnever. left. reflexivity.
Qed.

Section CacheFacts.

Context {DB : Type} `{Store DB}.

(** An update touches neither the store nor the trace. *)
Lemma step_update (events : gmap Z (list TracerEvent)) u (db : DB) :
  tracerEventCache_step events (inU u) db
  = (Ok (<[Update_ID u := (events !!! Update_ID u) ++ [Event u]]> events, None),
     db, []).
Proof.
  cbn [tracerEventCache_step]. unfold lookup_total, map_lookup_total.
  destruct (events !! Update_ID u); reflexivity.
Qed.

Lemma getTracerEventsDB_Err tracerID (db : DB) err :
  fst (fst (getTracerEventsDB tracerID db)) = Err err ->
  db_Find tracerID db = Err err.
Proof.
  unfold getTracerEventsDB. run_M.
  destruct (db_Find tracerID db) as [tracerEvents|err'].
  - destruct (rangeTracerEvents 0 tracerEvents (tracerEvents, ∅) db)
      as [[[tes cache] db1] trace].
    cbn. discriminate.
  - cbn. congruence.
Qed.

(** A message about another tracer leaves the list of [t] alone. *)
Lemma step_other t m (events : gmap Z (list TracerEvent)) (db : DB) :
  otherTracer t m = true ->
  match tracerEventCache_step events m db with
  | (Ok (events', _), db', _) => events' !! t = events !! t /\ db' = db
  | (Err _, db', _) => db' = db /\ exists i, m = inR i /\ loadFails i db
  end.
Proof.
  destruct m as [i|u]; cbn [otherTracer]; intros Hother.
  - apply andb_prop in Hother as [Hit Hi1].
    apply negb_true_iff in Hit, Hi1. apply Z.eqb_neq in Hit.
    cbn [tracerEventCache_step]. rewrite Hi1.
    destruct (length (events !!! i) =? 0)%nat.
    + destruct (getTracerEventsDB_run (uint_of_int i) db)
        as (r & rest & Hrun & _).
      pose proof (getTracerEventsDB_Err (uint_of_int i) db) as Herr.
      unfold mbind, M_bind. rewrite Hrun in *. cbn [fst] in Herr.
      destruct r as [loaded|err]; run_M.
      * split; [|reflexivity]. now rewrite lookup_insert_ne.
      * split; [reflexivity|]. exists i. split; [reflexivity|].
        exists err. now apply Herr.
    + run_M. now split.
  - apply negb_true_iff, Z.eqb_neq in Hother. rewrite step_update.
    split; [|reflexivity]. now rewrite lookup_insert_ne.
Qed.

Lemma tracerEventCache_cons m msgs (events : gmap Z (list TracerEvent)) out
    (db : DB) :
  tracerEventCache events out (m :: msgs) db
  = match tracerEventCache_step events m db with
    | (Ok (events', reply), db1, t1) =>
        let '(r, db2, t2) :=
          tracerEventCache events' (out ++ option_list reply) msgs db1 in
        (r, db2, t1 ++ t2)
    | (Err err, db1, t1) => (Err err, db1, t1)
    end.
Proof.
  cbn [tracerEventCache]. unfold mbind, M_bind.
  destruct (tracerEventCache_step events m db) as [[[[events' reply]|err] db1] t1].
  - reflexivity.
  - run_M. now rewrite app_nil_r.
Qed.

Lemma tracerEventCache_app msgs1 msgs2 :
  forall (events : gmap Z (list TracerEvent)) out (db : DB),
    tracerEventCache events out (msgs1 ++ msgs2) db
    = match tracerEventCache events out msgs1 db with
      | (Ok (events1, out1), db1, t1) =>
          let '(r, db2, t2) := tracerEventCache events1 out1 msgs2 db1 in
          (r, db2, t1 ++ t2)
      | (Err err, db1, t1) => (Err err, db1, t1)
      end.
Proof.
  induction msgs1 as [|m msgs1 IH]; intros events out db.
  - cbn [app]. cbn [tracerEventCache]. run_M.
    now destruct (tracerEventCache events out msgs2 db) as [[r db2] t2].
  - cbn [app]. rewrite !tracerEventCache_cons.
    destruct (tracerEventCache_step events m db)
      as [[[[events' reply]|err] db1] t1]; [|reflexivity].
    rewrite IH.
    destruct (tracerEventCache events' (out ++ option_list reply) msgs1 db1)
      as [[[[events1 out1]|err] db2] t2]; [|reflexivity].
    destruct (tracerEventCache events1 out1 msgs2 db2) as [[r db3] t3].
    now rewrite app_assoc.
Qed.

(** Messages about other tracers leave the list of [t] alone; the loop
    ends early only when one of their loads is refused. *)
Lemma tracerEventCache_others t msgs :
  forall (events : gmap Z (list TracerEvent)) out (db : DB),
    forallb (otherTracer t) msgs = true ->
    match tracerEventCache events out msgs db with
    | (Ok (events', _), db', _) => events' !! t = events !! t /\ db' = db
    | (Err _, db', _) => db' = db /\ exists i, In (inR i) msgs /\ loadFails i db
    end.
Proof.
  induction msgs as [|m msgs IH]; intros events out db Hall.
  - cbn. now split.
  - cbn [forallb] in Hall. apply andb_prop in Hall as [Hm Hall].
    rewrite tracerEventCache_cons.
    pose proof (step_other t m events db Hm) as Hstep.
    destruct (tracerEventCache_step events m db)
      as [[[[events' reply]|err] db1] t1].
    + destruct Hstep as [Hlook ->].
      pose proof (IH events' (out ++ option_list reply) db Hall) as Hrest.
      destruct (tracerEventCache events' (out ++ option_list reply) msgs db)
        as [[[[events2 out2]|err] db2] t2].
      * destruct Hrest as [Hlook2 ->]. split; [congruence|reflexivity].
      * destruct Hrest as [-> (i & Hin & Hfail)]. split; [reflexivity|].
        exists i. split; [now right|exact Hfail].
    + destruct Hstep as [-> (i & -> & Hfail)]. split; [reflexivity|].
      exists i. split; [now left|exact Hfail].
Qed.

End CacheFacts.

(** C6. In the order the goroutine receives them: an update of [t] with
    [e1], messages about other tracers, an update of [t] with [e2], messages
    about other tracers. Unless a load for one of the other tracers was
    refused, which ends the process, a read of [t] then sends the list [t]
    had before followed by [e1] and [e2], so [[e1; e2]] when [t] had no
    events, with an empty trace and the store as it is. An update itself
    never touches the store or the trace. *)
Theorem updates_then_read :
  forall (DB : Type) (S : Store DB) (events : gmap Z (list TracerEvent)) out
         (t : Z) e1 e2 msgs1 msgs2 (db : DB),
    t <> (-1)%Z ->
    forallb (otherTracer t) msgs1 = true ->
    forallb (otherTracer t) msgs2 = true ->
    match
      tracerEventCache events out
        (inU {| Event := e1; Update_ID := t |} :: msgs1 ++
         inU {| Event := e2; Update_ID := t |} :: msgs2) db
    with
    | (Ok (events', _), db', _) =>
        tracerEventCache_step events' (inR t) db'
        = (Ok (events', Some ((events !!! t) ++ [e1; e2])), db', []) /\
        (events !!! t = [] ->
         tracerEventCache_step events' (inR t) db'
         = (Ok (events', Some [e1; e2]), db', []))
    | (Err _, _, _) => exists i, In (inR i) (msgs1 ++ msgs2) /\ loadFails i db
    end /\
    (forall (evs : gmap Z (list TracerEvent)) u (d : DB),
        exists evs', tracerEventCache_step evs (inU u) d = (Ok (evs', None), d, [])).
Proof.
  intros DB S events out t e1 e2 msgs1 msgs2 db Ht H1 H2.
  split; [|intros evs u d; eexists; apply step_update].
  rewrite tracerEventCache_cons, step_update.
  cbn [Update_ID Event option_list option_rect].
  rewrite tracerEventCache_app.
  set (events1 := <[t := (events !!! t) ++ [e1]]> events).
  pose proof (tracerEventCache_others t msgs1 events1 (out ++ []) db H1) as Hrun1.
  destruct (tracerEventCache events1 (out ++ []) msgs1 db)
    as [[[[events2 out2]|err] db2] t2].
  - destruct Hrun1 as [Hlook2 ->].
    rewrite tracerEventCache_cons, step_update.
    cbn [Update_ID Event option_list option_rect].
    set (events3 := <[t := (events2 !!! t) ++ [e2]]> events2).
    pose proof (tracerEventCache_others t msgs2 events3 (out2 ++ []) db H2)
      as Hrun2.
    destruct (tracerEventCache events3 (out2 ++ []) msgs2 db)
      as [[[[events4 out4]|err] db4] t4].
    + destruct Hrun2 as [Hlook4 ->].
      assert (Hlist : events4 !! t = Some ((events !!! t) ++ [e1; e2])).
      { rewrite Hlook4. subst events3. rewrite lookup_insert_eq.
        unfold lookup_total at 1, map_lookup_total at 1. rewrite Hlook2.
        subst events1. rewrite lookup_insert_eq. cbn [default from_option].
        unfold id. now rewrite <- app_assoc. }
      assert (Htotal : events4 !!! t = (events !!! t) ++ [e1; e2]).
      { unfold lookup_total, map_lookup_total. now rewrite Hlist. }
      assert (Hread :
        tracerEventCache_step events4 (inR t) db
        = (Ok (events4, Some ((events !!! t) ++ [e1; e2])), db, [])).
      { cbn [tracerEventCache_step].
        replace (t =? -1)%Z with false by (symmetry; now apply Z.eqb_neq).
        rewrite Htotal.
        destruct ((events !!! t) ++ [e1; e2]) eqn:Happ;
          [now destruct (events !!! t)|reflexivity]. }
      split; [exact Hread|].
      intros Hnone. rewrite Hread. now rewrite Hnone.
    + destruct Hrun2 as [_ (i & Hin & Hfail)].
      exists i. split; [apply in_or_app; now right|exact Hfail].
  - destruct Hrun1 as [_ (i & Hin & Hfail)].
    exists i. split; [apply in_or_app; now left|exact Hfail].
Qed.

Lemma updates_then_read_witness :
  let e1 := withID (Fixtures.eventOf "dom") 1 in
  let e2 := withID (Fixtures.eventOf "text") 2 in
  let e3 := withID (Fixtures.eventOf "response") 3 in
  let others1 := [inR 2; inU {| Event := e3; Update_ID := 2 |}] in
  let others2 := [inR 2] in
  match
    tracerEventCache (∅ : gmap Z (list TracerEvent)) []
      (inU {| Event := e1; Update_ID := 1 |} :: others1 ++
       inU {| Event := e2; Update_ID := 1 |} :: others2)
      Fixtures.emptyDB
  with
  | (Ok (events', _), db', _) =>
      tracerEventCache_step events' (inR 1) db'
      = (Ok (events', Some ((∅ : gmap Z (list TracerEvent)) !!! 1%Z ++ [e1; e2])),
         db', []) /\
      ((∅ : gmap Z (list TracerEvent)) !!! 1%Z = [] ->
       tracerEventCache_step events' (inR 1) db'
       = (Ok (events', Some [e1; e2]), db', []))
  | (Err _, _, _) =>
      exists i, In (inR i) (others1 ++ others2) /\ loadFails i Fixtures.emptyDB
  end.
Proof.
  intros e1 e2 e3 others1 others2.
  exact (proj1
    (updates_then_read MemDB MemStore ∅ [] 1%Z e1 e2 others1 others2
       Fixtures.emptyDB ltac:(discriminate) eq_refl eq_refl)).
Defined.

(** The run of the witness: the read of tracer 1 sends the two events in
    the order of their updates; the only loads are the reads of tracer 2. *)
Example cache_run_in_order :
  let e1 := withID (Fixtures.eventOf "dom") 1 in
  let e2 := withID (Fixtures.eventOf "text") 2 in
  let e3 := withID (Fixtures.eventOf "response") 3 in
  let '(r, db', trace) :=
    tracerEventCache (∅ : gmap Z (list TracerEvent)) []
      [inU {| Event := e1; Update_ID := 1 |}; inR 2;
       inU {| Event := e3; Update_ID := 2 |};
       inU {| Event := e2; Update_ID := 1 |}; inR 2; inR 1]
      Fixtures.emptyDB in
  (match r with Ok (_, out) => out | Err _ => [] end, trace)
  = ([[]; [e3]; [e1; e2]], [Find 2]).
Proof. vm_compute. reflexivity. Qed.

(** C8, on the code. The loop looks the cache up under [RawEventID] and
    fills it under the list position [k]. With two events that share raw
    event 5, the raw event is fetched twice. With an event whose
    [RawEventID] equals the position of an earlier event, the lookup hits
    the raw event of that other event, the assignment goes to the loop
    variable, and the event is returned without a raw event, although the
    store has its own. *)
Theorem getTracerEventsDB_caches_by_position :
  (let '(r, db', trace) := getTracerEventsDB 1 Fixtures.sharedDB in
   r = Ok [withRawEvent (Fixtures.row 1 5) Fixtures.rawParagraph;
           withRawEvent (Fixtures.row 2 5) Fixtures.rawParagraph] /\
   rawFetches 5 trace = 2%nat /\
   ~ fetchedAtMostOnce trace) /\
  (let '(r, db', trace) := getTracerEventsDB 1 Fixtures.positionDB in
   r = Ok [withRawEvent (Fixtures.row 1 3) Fixtures.rawStructured;
           withRawEvent (Fixtures.row 2 2) Fixtures.rawBroken;
           Fixtures.row 3 1] /\
   db_Related (Fixtures.row 3 1) Fixtures.positionDB = Fixtures.rawMarkup /\
   rawFetches 1 trace = 0%nat /\
   ~ rawEventsResolved Fixtures.positionDB
       [withRawEvent (Fixtures.row 1 3) Fixtures.rawStructured;
        withRawEvent (Fixtures.row 2 2) Fixtures.rawBroken;
        Fixtures.row 3 1]).
Proof.
  split.
  - assert (Hrun : getTracerEventsDB 1 Fixtures.sharedDB
             = (Ok [withRawEvent (Fixtures.row 1 5) Fixtures.rawParagraph;
                    withRawEvent (Fixtures.row 2 5) Fixtures.rawParagraph],
                Fixtures.sharedDB,
                [Find 1; Related (Fixtures.row 1 5); Related (Fixtures.row 2 5)]))
      by (vm_compute; reflexivity).
    rewrite Hrun. split; [reflexivity|]. split; [reflexivity|].
    intros Honce. specialize (Honce 5). vm_compute in Honce. lia.
  - assert (Hrun : getTracerEventsDB 1 Fixtures.positionDB
             = (Ok [withRawEvent (Fixtures.row 1 3) Fixtures.rawStructured;
                    withRawEvent (Fixtures.row 2 2) Fixtures.rawBroken;
                    Fixtures.row 3 1],
                Fixtures.positionDB,
                [Find 1; Related (Fixtures.row 1 3); Related (Fixtures.row 2 2)]))
      by (vm_compute; reflexivity).
    rewrite Hrun. split; [reflexivity|]. split; [reflexivity|].
    split; [reflexivity|].
    intros Hres. unfold rawEventsResolved in Hres.
    apply Forall_cons in Hres as [_ Hres].
    apply Forall_cons in Hres as [_ Hres].
    apply Forall_cons in Hres as [Hthird _].
    vm_compute in Hthird. discriminate Hthird.
Qed.

(** ** The tracer row across calls *)

Lemma rowAfter_app t1 t2 row :
  rowAfter (t1 ++ t2) row = rowAfter t2 (rowAfter t1 row).
Proof. unfold rowAfter. apply fold_left_app. Qed.

Lemma created_app t1 t2 : created (t1 ++ t2) = created t1 ++ created t2.
Proof. unfold created. apply omap_app. Qed.

Lemma storedFindings_app t1 t2 :
  storedFindings (t1 ++ t2) = storedFindings t1 ++ storedFindings t2.
Proof. unfold storedFindings. now rewrite created_app, map_app, concat_app. Qed.

Lemma writesSucceed_app t1 t2 :
  writesSucceed (t1 ++ t2) = writesSucceed t1 && writesSucceed t2.
Proof. unfold writesSucceed. apply forallb_app. Qed.

Lemma existsb_hasFindings_app es1 es2 :
  existsb hasFindings (es1 ++ es2)
  = existsb hasFindings es1 || existsb hasFindings es2.
Proof. apply existsb_app. Qed.

(** The row after a successful [Updates] of each kind. *)
Lemma applyEffect_severity row c s :
  Tracer_ID c = Tracer_ID row ->
  applyEffect row (Updates c (overall_severity s) None)
  = withOverallSeverity row s.
Proof. intros Hid. cbn. now rewrite Hid, N.eqb_refl. Qed.

Lemma applyEffect_has_events row c b :
  Tracer_ID c = Tracer_ID row ->
  applyEffect row (Updates c (has_tracer_events b) None)
  = withHasTracerEvents row b.
Proof. intros Hid. cbn. now rewrite Hid, N.eqb_refl. Qed.

Lemma hasFindings_cons event c cs :
  hasFindings (withDOMContexts event (c :: cs)) = true.
Proof. reflexivity. Qed.

Section RowFacts.

Context {DB : Type} `{Store DB}.
Variable gohtml_Format : string -> string.
Variable html_Parse : string -> result Node.
Variable json_Marshal : TracerEvent -> string * option error.

(** What one run of [getDOMContexts] does to the row of its tracer. *)
Lemma getDOMContexts_row event tracer (db : DB) :
  let '(event', sev, err, db', trace) :=
    getDOMContexts gohtml_Format html_Parse event tracer db in
  created trace = [] /\
  OverallSeverity tracer <= OverallSeverity (rowAfter trace tracer) /\
  (HasTracerEvents tracer = true ->
   HasTracerEvents (rowAfter trace tracer) = true) /\
  (writesSucceed trace = true -> DOMContexts event = [] ->
   (err = None /\
    OverallSeverity (rowAfter trace tracer)
    = N.max (OverallSeverity tracer) (maxSeverity (DOMContexts event')) /\
    HasTracerEvents (rowAfter trace tracer)
    = HasTracerEvents tracer || hasFindings event') \/
   (err <> None /\ rowAfter trace tracer = tracer)).
Proof.
  unfold getDOMContexts.
  destruct (html_Parse (RawData (RawEvent_ event))) as [doc|perr].
  2:{ run_M. cbn. split; [reflexivity|]. split; [lia|]. split; [tauto|].
      intros _ _. right. split; [discriminate|reflexivity]. }
  pose proof (getTracerLocation_fresh gohtml_Format doc None
                (TracerPayload tracer) event) as Hmax.
  destruct (getTracerLocation gohtml_Format doc None (TracerPayload tracer)
              event ([], 0)) as [contexts sev0].
  cbn [fst snd] in Hmax.
  destruct contexts as [|c contexts].
  - run_M. cbn. split; [reflexivity|]. split; [lia|]. split; [tauto|].
    intros _ Hnone. left. unfold hasFindings. rewrite Hnone. cbn.
    rewrite N.max_0_r, orb_false_r. now repeat split.
  - cbn [length Nat.eqb].
    assert (Hpair : exists event1 sev1,
      (if String.eqb (EventType (withDOMContexts event (c :: contexts))) "text"
       then (withDOMContexts (withDOMContexts event (c :: contexts))
               (map (fun c0 => withSeverity c0 0)
                  (DOMContexts (withDOMContexts event (c :: contexts)))), 0)
       else (withDOMContexts event (c :: contexts), sev0)) = (event1, sev1) /\
      sev1 = maxSeverity (DOMContexts event1) /\ hasFindings event1 = true).
    { destruct (String.eqb (EventType (withDOMContexts event (c :: contexts)))
                  "text"); eexists _, _; (split; [reflexivity|]).
      - cbn [DOMContexts withDOMContexts]. split; [|reflexivity].
        symmetry. apply maxSeverity_zeroed.
      - split; [exact Hmax|reflexivity]. }
    destruct Hpair as (event1 & sev1 & -> & Hsev & Hhas).
    clear Hmax. cbv beta iota zeta.
    run_M. cbn [OverallSeverity withHasTracerEvents HasTracerEvents].
    destruct (N.ltb_spec (OverallSeverity tracer) sev1) as [Hlt|Hge];
      [destruct (db_Updates
                   (withOverallSeverity
                      (withTracerEvents (withHasTracerEvents tracer true) []) sev1)
                   (overall_severity sev1) db) as [db1 [e1|]]|];
      (destruct (HasTracerEvents tracer) eqn:Hold; cbn [negb];
       [|match goal with
         | |- context [db_Updates ?c ?f ?d] =>
             destruct (db_Updates c f d) as [db2 [e2|]]
         end]);
      cbn [orb when]; cbn -[N.max N.le N.eqb];
      rewrite ?N.eqb_refl; cbn -[N.max N.le N.eqb];
      rewrite ?N.eqb_refl; cbn -[N.max N.le N.eqb];
      rewrite ?Hold, ?Hhas, <- ?Hsev;
      (split; [reflexivity|]); (split; [lia|]);
      (split; [try tauto; try reflexivity|]).
    all: try (intros Hw _; discriminate Hw).
    all: intros _ _; left; split; [reflexivity|]; split; [|reflexivity];
      symmetry; first [apply N.max_r; lia | apply N.max_l; lia].
Qed.

Lemma createAndPublish_row tracer event (db : DB) :
  let '(res, db', trace) := createAndPublish json_Marshal tracer event db in
  (forall row, rowAfter trace row = row) /\
  (writesSucceed trace = true ->
   created trace = [withRawEvent event RawEvent_zero]).
Proof.
  unfold createAndPublish. run_M.
  destruct (db_Create (withRawEvent event RawEvent_zero) db) as [db1 [id|e]].
  - destruct (json_Marshal (withID event id)) as [ret [e|]];
      destruct (existsb (fun c => 2 <=? Severity c) (DOMContexts (withID event id)));
      cbn; now split.
  - cbn. split; [reflexivity|discriminate].
Qed.

(** What one call of [AddEvent] does to the row of its tracer. *)
Lemma AddEvent_row tracer event (db : DB) :
  let '(res, db', trace) :=
    AddEvent gohtml_Format html_Parse json_Marshal tracer event db in
  OverallSeverity tracer <= OverallSeverity (rowAfter trace tracer) /\
  (HasTracerEvents tracer = true ->
   HasTracerEvents (rowAfter trace tracer) = true) /\
  (writesSucceed trace = true -> DOMContexts event = [] ->
   OverallSeverity (rowAfter trace tracer)
   = N.max (OverallSeverity tracer) (maxSeverity (storedFindings trace)) /\
   HasTracerEvents (rowAfter trace tracer)
   = HasTracerEvents tracer || existsb hasFindings (created trace)).
Proof.
  unfold AddEvent. destruct (Format (RawEvent_ event)).
  - pose proof (getDOMContexts_row event tracer db) as Hdom.
    unfold mbind, M_bind.
    destruct (getDOMContexts gohtml_Format html_Parse event tracer db)
      as [[[[event' sev] err] db1] t1].
    destruct Hdom as (Hcreated & Hle & Hhas & Hok).
    destruct err as [e|].
    + run_M. cbn [app]. rewrite rowAfter_app. cbn [rowAfter fold_left applyEffect].
      fold (rowAfter t1 tracer).
      split; [exact Hle|]. split; [exact Hhas|].
      intros Hw Hnone. rewrite writesSucceed_app in Hw.
      apply andb_prop in Hw as [Hw _].
      destruct (Hok Hw Hnone) as [(Herr & _)|(_ & Hrow)]; [discriminate|].
      unfold storedFindings. rewrite created_app, Hcreated, Hrow. cbn.
      rewrite N.max_0_r, orb_false_r. now split.
    + pose proof (createAndPublish_row tracer event' db1) as Hpub.
      destruct (createAndPublish json_Marshal tracer event' db1)
        as [[res db2] t2].
      destruct Hpub as (Hrow2 & Hcreated2).
      rewrite rowAfter_app, Hrow2.
      split; [exact Hle|]. split; [exact Hhas|].
      intros Hw Hnone. rewrite writesSucceed_app in Hw.
      apply andb_prop in Hw as [Hw1 Hw2].
      destruct (Hok Hw1 Hnone) as [(_ & Hsev & Hev)|(Herr & _)]; [|congruence].
      unfold storedFindings.
      rewrite created_app, Hcreated, (Hcreated2 Hw2). cbn [app map concat existsb].
      rewrite app_nil_r, orb_false_r. now split.
  - pose proof (createAndPublish_row tracer event db) as Hpub.
    destruct (createAndPublish json_Marshal tracer event db) as [[res db2] t2].
    destruct Hpub as (Hrow2 & Hcreated2). rewrite Hrow2.
    split; [lia|]. split; [tauto|].
    intros Hw Hnone. unfold storedFindings. rewrite (Hcreated2 Hw).
    cbn [map concat existsb withRawEvent DOMContexts]. unfold hasFindings.
    cbn [withRawEvent DOMContexts]. rewrite Hnone. cbn.
    rewrite N.max_0_r, orb_false_r. now split.
Qed.

Lemma AddEvents_cons tracer event events (db : DB) :
  AddEvents gohtml_Format html_Parse json_Marshal tracer (event :: events) db
  = let '(res, db1, t1) :=
      AddEvent gohtml_Format html_Parse json_Marshal tracer event db in
    let '(row, db2, t2) :=
      AddEvents gohtml_Format html_Parse json_Marshal (rowAfter t1 tracer)
        events db1 in
    (row, db2, t1 ++ t2).
Proof.
  cbn [AddEvents]. run_M.
  now destruct (AddEvent gohtml_Format html_Parse json_Marshal tracer event db)
    as [[res db1] t1].
Qed.

Lemma AddEvents_app events1 events2 : forall tracer (db : DB),
  AddEvents gohtml_Format html_Parse json_Marshal tracer (events1 ++ events2) db
  = let '(row1, db1, t1) :=
      AddEvents gohtml_Format html_Parse json_Marshal tracer events1 db in
    let '(row2, db2, t2) :=
      AddEvents gohtml_Format html_Parse json_Marshal row1 events2 db1 in
    (row2, db2, t1 ++ t2).
Proof.
  induction events1 as [|event events1 IH]; intros tracer db.
  - cbn [app]. cbn [AddEvents]. run_M.
    now destruct (AddEvents gohtml_Format html_Parse json_Marshal tracer
                    events2 db) as [[row2 db2] t2].
  - cbn [app]. rewrite !AddEvents_cons.
    destruct (AddEvent gohtml_Format html_Parse json_Marshal tracer event db)
      as [[res db1] t1].
    rewrite IH.
    destruct (AddEvents gohtml_Format html_Parse json_Marshal
                (rowAfter t1 tracer) events1 db1) as [[row1 db2] t2].
    destruct (AddEvents gohtml_Format html_Parse json_Marshal row1 events2 db2)
      as [[row2 db3] t3].
    now rewrite app_assoc.
Qed.

(** What a sequence of calls does to the row of its tracer. *)
Lemma AddEvents_row events : forall tracer (db : DB),
  let '(row, db', trace) :=
    AddEvents gohtml_Format html_Parse json_Marshal tracer events db in
  row = rowAfter trace tracer /\
  OverallSeverity tracer <= OverallSeverity row /\
  (HasTracerEvents tracer = true -> HasTracerEvents row = true) /\
  (writesSucceed trace = true ->
   Forall (fun e => DOMContexts e = []) events ->
   OverallSeverity row
   = N.max (OverallSeverity tracer) (maxSeverity (storedFindings trace)) /\
   HasTracerEvents row
   = HasTracerEvents tracer || existsb hasFindings (created trace)).
Proof.
  induction events as [|event events IH]; intros tracer db.
  - cbn. split; [reflexivity|]. split; [lia|]. split; [tauto|].
    intros _ _. now rewrite N.max_0_r, orb_false_r.
  - rewrite AddEvents_cons.
    pose proof (AddEvent_row tracer event db) as Hcall.
    destruct (AddEvent gohtml_Format html_Parse json_Marshal tracer event db)
      as [[res db1] t1].
    pose proof (IH (rowAfter t1 tracer) db1) as Hrest.
    destruct (AddEvents gohtml_Format html_Parse json_Marshal
                (rowAfter t1 tracer) events db1) as [[row db2] t2].
    destruct Hcall as (Hle1 & Hhas1 & Hok1).
    destruct Hrest as (Hrow & Hle2 & Hhas2 & Hok2).
    split; [now rewrite rowAfter_app|]. split; [lia|]. split; [tauto|].
    intros Hw Hall. rewrite writesSucceed_app in Hw.
    apply andb_prop in Hw as [Hw1 Hw2].
    apply Forall_cons in Hall as [Hnone Hall].
    destruct (Hok1 Hw1 Hnone) as [Hsev1 Hev1].
    destruct (Hok2 Hw2 Hall) as [Hsev2 Hev2].
    rewrite Hsev2, Hev2, Hsev1, Hev1.
    rewrite storedFindings_app, maxSeverity_app, created_app, existsb_app.
    split; [now rewrite N.max_assoc|now rewrite orb_assoc].
Qed.

End RowFacts.

(** C7, as the code has it. A sequence of [AddEvent] calls for one
    tracer, each call receiving the tracer as the updates of the earlier
    calls left its row. The row's
    [OverallSeverity] never decreases from one point of the sequence to a
    later one, and [HasTracerEvents] never falls back. When no write was
    refused by the store and the events arrive without findings, the row's
    [OverallSeverity] is the maximum of its first value and the severities
    of all findings stored with the events, and [HasTracerEvents] is its
    first value or the presence of a stored event that has a finding; for a
    tracer that starts without events, it is true exactly when such an
    event exists. *)
Theorem tracer_watermark :
  forall (DB : Type) (S : Store DB) gohtml_Format html_Parse json_Marshal
         tracer events1 events2 (db : DB),
    let '(row1, _, _) :=
      AddEvents gohtml_Format html_Parse json_Marshal tracer events1 db in
    let '(row2, _, trace) :=
      AddEvents gohtml_Format html_Parse json_Marshal tracer
        (events1 ++ events2) db in
    row2 = rowAfter trace tracer /\
    OverallSeverity tracer <= OverallSeverity row1 /\
    OverallSeverity row1 <= OverallSeverity row2 /\
    (HasTracerEvents row1 = true -> HasTracerEvents row2 = true) /\
    (writesSucceed trace = true ->
     Forall (fun e => DOMContexts e = []) (events1 ++ events2) ->
     OverallSeverity row2
     = N.max (OverallSeverity tracer) (maxSeverity (storedFindings trace)) /\
     HasTracerEvents row2
     = HasTracerEvents tracer || existsb hasFindings (created trace) /\
     (HasTracerEvents tracer = false ->
      HasTracerEvents row2 = true <->
      exists e, In e (created trace) /\ DOMContexts e <> [])).
Proof.
  intros DB S fmt parse marshal tracer events1 events2 db.
  pose proof (AddEvents_row fmt parse marshal (events1 ++ events2) tracer db)
    as Hall.
  rewrite AddEvents_app in Hall |- *.
  pose proof (AddEvents_row fmt parse marshal events1 tracer db) as H1.
  destruct (AddEvents fmt parse marshal tracer events1 db) as [[row1 db1] t1].
  pose proof (AddEvents_row fmt parse marshal events2 row1 db1) as H2.
  destruct (AddEvents fmt parse marshal row1 events2 db1) as [[row2 db2] t2].
  destruct Hall as (Hrow & _ & _ & Hok).
  destruct H1 as (_ & Hle1 & _). destruct H2 as (_ & Hle2 & Hhas2 & _).
  split; [exact Hrow|]. split; [exact Hle1|]. split; [exact Hle2|].
  split; [exact Hhas2|].
  intros Hw Hnone. destruct (Hok Hw Hnone) as [Hsev Hev].
  split; [exact Hsev|]. split; [exact Hev|].
  intros Hfresh. rewrite Hev, Hfresh. cbn [orb]. rewrite existsb_exists.
  split; intros (e & Hin & Hfind); exists e; (split; [exact Hin|]);
    unfold hasFindings in *; destruct (DOMContexts e); cbn in *; congruence.
Qed.

Lemma tracer_watermark_witness :
  let '(row2, _, trace) :=
    AddEvents Fixtures.plain Fixtures.parse Fixtures.marshal Fixtures.tracer
      ([Fixtures.eventOf "text"] ++
       [Fixtures.eventOf "dom";
        withRawEvent (Fixtures.eventOf "dom") Fixtures.rawStructured])
      Fixtures.emptyDB in
  OverallSeverity row2
  = N.max (OverallSeverity Fixtures.tracer) (maxSeverity (storedFindings trace)) /\
  HasTracerEvents row2
  = HasTracerEvents Fixtures.tracer || existsb hasFindings (created trace) /\
  (HasTracerEvents Fixtures.tracer = false ->
   HasTracerEvents row2 = true <->
   exists e, In e (created trace) /\ DOMContexts e <> []).
Proof.
  generalize (tracer_watermark MemDB MemStore Fixtures.plain Fixtures.parse
                Fixtures.marshal Fixtures.tracer [Fixtures.eventOf "text"]
                [Fixtures.eventOf "dom";
                 withRawEvent (Fixtures.eventOf "dom") Fixtures.rawStructured]
                Fixtures.emptyDB).
  destruct (AddEvents Fixtures.plain Fixtures.parse Fixtures.marshal
              Fixtures.tracer [Fixtures.eventOf "text"] Fixtures.emptyDB)
    as [[row1 db1] t1].
  destruct (AddEvents Fixtures.plain Fixtures.parse Fixtures.marshal
              Fixtures.tracer
              ([Fixtures.eventOf "text"] ++
               [Fixtures.eventOf "dom";
                withRawEvent (Fixtures.eventOf "dom") Fixtures.rawStructured])
              Fixtures.emptyDB) as [[row2 db2] trace] eqn:Hrun.
  intros (_ & _ & _ & _ & Hok). apply Hok.
  - replace trace with (snd (row2, db2, trace)) by reflexivity.
    rewrite <- Hrun. vm_compute. reflexivity.
  - repeat constructor.
Defined.

(** The updates and the [Create] are separate writes. With a store that
    accepts the updates and refuses the [Create], one call for a tracer
    without events leaves the row at severity 3 with [HasTracerEvents]
    set, and no event was stored. *)
Example AddEvents_create_refused :
  @AddEvents unit FullStore Fixtures.plain Fixtures.parse Fixtures.marshal
    Fixtures.tracer [Fixtures.eventOf "dom"] tt
  = (withOverallSeverity (withHasTracerEvents Fixtures.tracer true) 3, tt,
     snd (@AddEvents unit FullStore Fixtures.plain Fixtures.parse
            Fixtures.marshal Fixtures.tracer [Fixtures.eventOf "dom"] tt)) /\
  created
    (snd (@AddEvents unit FullStore Fixtures.plain Fixtures.parse
            Fixtures.marshal Fixtures.tracer [Fixtures.eventOf "dom"] tt))
  = [].
Proof. split; vm_compute; reflexivity. Qed.

(** With a store that refuses the first update, the refusal of the
    severity is overwritten by the second update: the event is stored with
    a finding of severity 3 and the row stays at severity 0. *)
Example AddEvents_update_refused :
  OverallSeverity
    (fst (fst (@AddEvents nat RefusingStore Fixtures.plain Fixtures.parse
                 Fixtures.marshal Fixtures.tracer [Fixtures.eventOf "dom"]
                 0%nat))) = 0 /\
  maxSeverity
    (storedFindings
       (snd (@AddEvents nat RefusingStore Fixtures.plain Fixtures.parse
               Fixtures.marshal Fixtures.tracer [Fixtures.eventOf "dom"]
               0%nat))) = 3.
Proof. split; vm_compute; reflexivity. Qed.

(** C7, as stated, fails on the run with the refused [Create]: the row has
    severity 3 and [HasTracerEvents] set while nothing is stored for the
    tracer. *)
Lemma watermarkHolds_fails : ~ watermarkHolds.
Proof.
  intros Hclaim.
  pose proof (Hclaim unit FullStore Fixtures.plain Fixtures.parse
                Fixtures.marshal Fixtures.tracer [Fixtures.eventOf "dom"] tt
                eq_refl eq_refl) as Hrun.
  destruct AddEvents_create_refused as [Hrow Hnone].
  rewrite Hrow in Hrun. destruct Hrun as [_ [Hhas _]].
  destruct (Hhas eq_refl) as (e & Hin & _).
  rewrite Hnone in Hin. destruct Hin.
Qed.

(** The run of the session of [Fixtures]: the text event leaves the
    severity at 0 and sets [HasTracerEvents]; the DOM event raises the
    severity to 3; the structured event changes nothing. *)
Example AddEvents_session :
  let '(row, db', trace) :=
    AddEvents Fixtures.plain Fixtures.parse Fixtures.marshal Fixtures.tracer
      [Fixtures.eventOf "text"; Fixtures.eventOf "dom";
       withRawEvent (Fixtures.eventOf "dom") Fixtures.rawStructured]
      Fixtures.emptyDB in
  (OverallSeverity row, HasTracerEvents row,
   map (fun e => map Severity (DOMContexts e)) (created trace),
   writesSucceed trace)
  = (3, true, [[0; 0; 0; 0]; [2; 3; 0; 1]; []], true).
Proof. vm_compute. reflexivity. Qed.

(** * Further properties *)

(** ** Go strings *)

Lemma HasPrefix_app s rest : strings.HasPrefix (s ++ rest)%string s = true.
Proof.
  induction s as [|c s IH]; [reflexivity|].
  change (String c s ++ rest)%string with (String c (s ++ rest)%string).
  cbn [strings.HasPrefix]. now rewrite Ascii.eqb_refl, IH.
Qed.

Lemma HasPrefix_split s pre :
  strings.HasPrefix s pre = true -> exists rest, s = (pre ++ rest)%string.
Proof.
  revert s. induction pre as [|c pre IH]; intros s Hp.
  - now exists s.
  - destruct s as [|d s]; [discriminate|]. cbn [strings.HasPrefix] in Hp.
    apply andb_prop in Hp as [Hc Hp]. apply Ascii.eqb_eq in Hc as ->.
    destruct (IH s Hp) as (rest & ->). now exists rest.
Qed.

(** X1. [strings.Contains] as the walk uses it is substring containment:
    it answers true exactly when the text splits into a part before, the
    substring and a part after; [strings.HasPrefix] answers true exactly
    when the part before is empty. In particular the empty string is
    contained in every text. *)
Theorem Contains_iff_substring :
  forall s substr,
    (strings.Contains s substr = true <->
     exists before after, s = (before ++ substr ++ after)%string) /\
    (strings.HasPrefix s substr = true <->
     exists after, s = (substr ++ after)%string) /\
    strings.Contains s EmptyString = true.
Proof.
  intros s substr. split; [|split].
  - split.
    + induction s as [|c s IH]; cbn [strings.Contains]; intros Hc.
      * apply orb_prop in Hc as [Hp|Hf]; [|discriminate].
        apply HasPrefix_split in Hp as (rest & ->).
        now exists EmptyString, rest.
      * apply orb_prop in Hc as [Hp|Hin].
        -- apply HasPrefix_split in Hp as (rest & ->).
           now exists EmptyString, rest.
        -- destruct (IH Hin) as (before & after & ->).
           now exists (String c before), after.
    + intros (before & after & ->).
      induction before as [|c before IH].
      * change (EmptyString ++ substr ++ after)%string
          with (substr ++ after)%string.
        pose proof (HasPrefix_app substr after) as Hp.
        destruct (substr ++ after)%string; cbn [strings.Contains];
          now rewrite Hp.
      * change (String c before ++ substr ++ after)%string
          with (String c (before ++ substr ++ after)%string).
        cbn [strings.Contains]. rewrite IH. apply orb_true_r.
  - split; [apply HasPrefix_split|].
    intros (after & ->). apply HasPrefix_app.
  - destruct s; reflexivity.
Qed.

(** ** The walk without its variables *)

Section StatelessFacts.

Variable gohtml_Format : string -> string.

(** The three facts that follow an activation: the findings since [st],
    [highest] as their running maximum, [sev] below that maximum. *)
Lemma emit_from st new l c r :
  tracerLocations l = fst st ++ new ->
  highest l = N.max (snd st) (maxSeverity new) ->
  sev l <= maxSeverity new ->
  let l' :=
    raiseHighest
      {| tracerLocations := tracerLocations l ++ [c]; highest := highest l;
         sev := Severity c; reason := r |} in
  tracerLocations l' = fst st ++ (new ++ [c]) /\
  highest l' = N.max (snd st) (maxSeverity (new ++ [c])) /\
  sev l' <= maxSeverity (new ++ [c]).
Proof.
  intros Hl Hh Hs l'. subst l'.
  rewrite tracerLocations_raiseHighest, highest_raiseHighest, sev_raiseHighest.
  simpl. rewrite Hl, Hh, maxSeverity_app, maxSeverity_single, app_assoc.
  repeat split; lia.
Qed.

Lemma skip_from st new l :
  tracerLocations l = fst st ++ new ->
  highest l = N.max (snd st) (maxSeverity new) ->
  sev l <= maxSeverity new ->
  tracerLocations (raiseHighest l) = fst st ++ (new ++ []) /\
  highest (raiseHighest l) = N.max (snd st) (maxSeverity (new ++ [])) /\
  sev (raiseHighest l) <= maxSeverity (new ++ []).
Proof.
  intros Hl Hh Hs.
  rewrite tracerLocations_raiseHighest, highest_raiseHighest, sev_raiseHighest.
  rewrite app_nil_r. repeat split; trivial; lia.
Qed.

Lemma checkNode_findings n parentName tracer ev st :
  let l := checkNode gohtml_Format n parentName tracer ev (enter st) in
  let new := option_list (nodeFinding gohtml_Format n parentName tracer ev) in
  tracerLocations l = fst st ++ new /\
  highest l = N.max (snd st) (maxSeverity new) /\
  sev l <= maxSeverity new.
Proof.
  assert (Hstart :
    tracerLocations (enter st) = fst st ++ [] /\
    highest (enter st) = N.max (snd st) (maxSeverity []) /\
    sev (enter st) <= maxSeverity []).
  { cbn. rewrite app_nil_r, N.max_0_r. repeat split. reflexivity. }
  destruct Hstart as (Hl & Hh & Hs).
  unfold checkNode, nodeFinding.
  destruct (strings.Contains (Data n) tracer);
    [|cbn [option_list option_rect]; now repeat split].
  destruct (Type_ n), (isResponse ev), (String.eqb parentName "script");
    cbn [negb andb option_list option_rect]; cbv beta iota zeta;
    match goal with
    | |- context [raiseHighest
                    {| tracerLocations := _ ++ [?c]; highest := _;
                       sev := _; reason := ?r |}] =>
        exact (emit_from st [] (enter st) c r Hl Hh Hs)
    end.
Qed.

Lemma checkAttr_findings nodeData tracer ev st new l a :
  tracerLocations l = fst st ++ new ->
  highest l = N.max (snd st) (maxSeverity new) ->
  sev l <= maxSeverity new ->
  let l' := checkAttr nodeData tracer ev l a in
  let new' := new ++ option_list (attrFinding nodeData tracer ev a) in
  tracerLocations l' = fst st ++ new' /\
  highest l' = N.max (snd st) (maxSeverity new') /\
  sev l' <= maxSeverity new'.
Proof.
  intros Hl Hh Hs. unfold checkAttr, attrFinding, attrValueFinding, attrValueRule.
  destruct (strings.Contains (Key a) tracer).
  - destruct (isResponse ev); cbn [negb option_list option_rect];
      cbv beta iota zeta;
      match goal with
      | |- context [raiseHighest
                      {| tracerLocations := _ ++ [?c]; highest := _;
                         sev := _; reason := ?r |}] =>
          exact (emit_from st new l c r Hl Hh Hs)
      end.
  - destruct (strings.Contains (Val a) tracer);
      [|cbn [option_list option_rect]; now apply skip_from].
    destruct (isResponse ev), (String.eqb (Key a) "href"),
      (strings.HasPrefix (Val a) tracer), (strings.HasPrefix (Key a) "on");
      cbn [negb andb option_list option_rect fst snd]; cbv beta iota zeta;
      match goal with
      | |- context [raiseHighest
                      {| tracerLocations := _ ++ [?c]; highest := _;
                         sev := _; reason := ?r |}] =>
          exact (emit_from st new l c r Hl Hh Hs)
      end.
Qed.

Lemma attrs_findings nodeData tracer ev st attrs : forall new l,
  tracerLocations l = fst st ++ new ->
  highest l = N.max (snd st) (maxSeverity new) ->
  sev l <= maxSeverity new ->
  let l' := fold_left (checkAttr nodeData tracer ev) attrs l in
  let new' := new ++ omap (attrFinding nodeData tracer ev) attrs in
  tracerLocations l' = fst st ++ new' /\
  highest l' = N.max (snd st) (maxSeverity new').
Proof.
  induction attrs as [|a attrs IH]; intros new l Hl Hh Hs.
  - cbn. rewrite app_nil_r. now split.
  - cbn [fold_left].
    destruct (checkAttr_findings nodeData tracer ev st new l a Hl Hh Hs)
      as (Hl' & Hh' & Hs').
    destruct (IH _ _ Hl' Hh' Hs') as (Hl2 & Hh2).
    assert (Heq :
      (new ++ option_list (attrFinding nodeData tracer ev a)) ++
      omap (attrFinding nodeData tracer ev) attrs
      = new ++ omap (attrFinding nodeData tracer ev) (a :: attrs)).
    { rewrite <- app_assoc. f_equal. cbn [omap list_omap].
      now destruct (attrFinding nodeData tracer ev a). }
    cbv zeta. rewrite <- Heq. now split.
Qed.

(** The walk is the list of the findings taken one by one. *)
Lemma getTracerLocation_findingsOf n : forall Parent tracer ev st,
  getTracerLocation gohtml_Format n Parent tracer ev st
  = (fst st ++ findingsOf gohtml_Format n Parent tracer ev,
     N.max (snd st)
       (maxSeverity (findingsOf gohtml_Format n Parent tracer ev))).
Proof.
  induction n as [ty data attrs cs IH] using Node_ind.
  intros Parent tracer ev st.
  cbn [getTracerLocation findingsOf Data Attr children].
  destruct (checkNode_findings (mkNode ty data attrs cs) (parentData Parent)
              tracer ev st) as (Hl & Hh & Hs).
  destruct (attrs_findings data tracer ev st attrs _ _ Hl Hh Hs) as (Hl2 & Hh2).
  cbn [Data] in Hl2, Hh2.
  set (l2 := fold_left (checkAttr data tracer ev) attrs
               (checkNode gohtml_Format (mkNode ty data attrs cs)
                  (parentData Parent) tracer ev (enter st))) in *.
  set (own := option_list
                (nodeFinding gohtml_Format (mkNode ty data attrs cs)
                   (parentData Parent) tracer ev) ++
              omap (attrFinding data tracer ev) attrs) in *.
  assert (Hkids : forall (s : Shared),
    fold_left
      (fun st c => getTracerLocation gohtml_Format c (Some data) tracer ev st)
      cs s
    = (fst s ++ concat (map (fun c => findingsOf gohtml_Format c (Some data)
                                        tracer ev) cs),
       N.max (snd s)
         (maxSeverity
            (concat (map (fun c => findingsOf gohtml_Format c (Some data)
                                     tracer ev) cs))))).
  { clear -IH. induction IH as [|c cs Hc _ IHcs]; intros s.
    - cbn. rewrite app_nil_r. unfold maxSeverity. cbn.
      rewrite N.max_0_r. now destruct s.
    - cbn [fold_left map concat]. rewrite Hc, IHcs. cbn [fst snd].
      rewrite maxSeverity_app, app_assoc, N.max_assoc. reflexivity. }
  rewrite Hkids. unfold leave. cbn [fst snd]. rewrite Hl2, Hh2.
  subst own. f_equal.
  - now rewrite <- !app_assoc.
  - rewrite (app_assoc (option_list _) (omap _ attrs)), (maxSeverity_app (_ ++ _)).
    now rewrite N.max_assoc.
Qed.

End StatelessFacts.

Section WalkProperties.

Variable gohtml_Format : string -> string.

(** A property of every single finding holds for the whole walk. *)
Lemma findingsOf_Forall (Q : DOMContext -> Prop) tracer ev :
  (forall n parentName c,
      nodeFinding gohtml_Format n parentName tracer ev = Some c -> Q c) ->
  (forall nodeData a c, attrFinding nodeData tracer ev a = Some c -> Q c) ->
  forall n Parent, Forall Q (findingsOf gohtml_Format n Parent tracer ev).
Proof.
  intros Hnode Hattr n.
  induction n as [ty data attrs cs IH] using Node_ind. intros Parent.
  cbn [findingsOf Data Attr children].
  apply Forall_app. split; [|apply Forall_app; split].
  - destruct (nodeFinding gohtml_Format (mkNode ty data attrs cs)
                (parentData Parent) tracer ev) as [c|] eqn:Hc;
      cbn [option_list option_rect]; [|constructor].
    constructor; [|constructor]. exact (Hnode _ _ _ Hc).
  - apply Forall_forall. intros c Hin.
    apply list_elem_of_omap in Hin as (a & _ & Ha). exact (Hattr _ _ _ Ha).
  - clear -IH. induction IH as [|c cs Hc _ IHcs]; [constructor|].
    cbn [map concat]. apply Forall_app. split; [apply Hc|exact IHcs].
Qed.

Lemma maxSeverity_le bound cs :
  Forall (fun c => Severity c <= bound) cs -> maxSeverity cs <= bound.
Proof.
  unfold maxSeverity. induction 1 as [|c cs Hc _ IH]; cbn; [lia|].
  apply N.max_lub; assumption.
Qed.

Lemma nodeFinding_table n parentName tracer ev c :
  nodeFinding gohtml_Format n parentName tracer ev = Some c ->
  inRuleTable c = true /\ (isResponse ev = true -> Severity c = 0).
Proof.
  unfold nodeFinding. destruct (strings.Contains (Data n) tracer); [|discriminate].
  destruct (Type_ n), (isResponse ev), (String.eqb parentName "script");
    cbn [negb andb]; intros [= <-]; split; try reflexivity; discriminate.
Qed.

Lemma attrFinding_table nodeData tracer ev a c :
  attrFinding nodeData tracer ev a = Some c ->
  inRuleTable c = true /\ (isResponse ev = true -> Severity c = 1).
Proof.
  unfold attrFinding, attrValueFinding, attrValueRule.
  destruct (strings.Contains (Key a) tracer).
  - destruct (isResponse ev); intros [= <-]; split; try reflexivity; discriminate.
  - destruct (strings.Contains (Val a) tracer); [|discriminate].
    destruct (isResponse ev), (String.eqb (Key a) "href"),
      (strings.HasPrefix (Val a) tracer), (strings.HasPrefix (Key a) "on");
      intros [= <-]; split; try reflexivity; discriminate.
Qed.

Lemma length_option_list {A} (o : option A) :
  length (option_list o) = match o with Some _ => 1%nat | None => 0%nat end.
Proof. now destruct o. Qed.

Lemma findingsOf_length n : forall Parent tracer ev,
  length (findingsOf gohtml_Format n Parent tracer ev) = occurrences n tracer.
Proof.
  induction n as [ty data attrs cs IH] using Node_ind. intros Parent tracer ev.
  cbn [findingsOf occurrences Data Attr children].
  rewrite !length_app, length_option_list, Nat.add_assoc. f_equal; [f_equal|].
  - unfold nodeFinding. cbn [Data].
    now destruct (strings.Contains data tracer).
  - clear. induction attrs as [|a attrs IHa]; [reflexivity|].
    cbn [omap list_omap List.filter]. unfold attrFinding at 1.
    destruct (strings.Contains (Key a) tracer); cbn [orb length];
      [now rewrite <- IHa|].
    destruct (strings.Contains (Val a) tracer); cbn [length];
      now rewrite <- IHa.
  - clear -IH. induction IH as [|c cs Hc _ IHcs]; [reflexivity|].
    cbn [map concat list_sum foldr]. rewrite length_app, Hc.
    f_equal. exact IHcs.
Qed.

End WalkProperties.

(** X2. The walk is the pre-order list of the findings of each node and
    each attribute taken on its own, every one from a fresh [sev] and
    [reason]: the variables that survive inside an activation change no
    finding. What a walk adds to the list and to [highest] does not depend
    on what they held before. *)
Theorem walk_is_list_of_single_findings :
  forall gohtml_Format n Parent tracer tracerEvent st,
    let walk := getTracerLocation gohtml_Format n Parent tracer tracerEvent in
    walk st
    = (fst st ++ findingsOf gohtml_Format n Parent tracer tracerEvent,
       N.max (snd st)
         (maxSeverity (findingsOf gohtml_Format n Parent tracer tracerEvent))) /\
    fst (walk st) = fst st ++ fst (walk ([], 0)) /\
    snd (walk st) = N.max (snd st) (snd (walk ([], 0))).
Proof.
  intros fmt n Parent tracer ev st walk. subst walk.
  rewrite !getTracerLocation_findingsOf. cbn [fst snd app].
  rewrite N.max_0_l. now repeat split.
Qed.

(** X3. The walk appends exactly one finding for every node whose [Data]
    contains the tracer and for every attribute whose key or value contains
    it, whatever the event type and the parent are. Where the tracer occurs
    nowhere the list and [highest] come back unchanged; where it occurs at
    least one finding is appended. *)
Theorem walk_counts_occurrences :
  forall gohtml_Format n Parent tracer tracerEvent st,
    let r := getTracerLocation gohtml_Format n Parent tracer tracerEvent st in
    length (fst r) = (length (fst st) + occurrences n tracer)%nat /\
    (occurrences n tracer = 0%nat -> r = st) /\
    (occurrences n tracer <> 0%nat -> length (fst st) < length (fst r))%nat.
Proof.
  intros fmt n Parent tracer ev st r. subst r.
  rewrite getTracerLocation_findingsOf. cbn [fst snd].
  pose proof (findingsOf_length fmt n Parent tracer ev) as Hlen.
  rewrite length_app, Hlen. split; [reflexivity|]. split.
  - intros Hzero. rewrite Hzero in Hlen.
    destruct (findingsOf fmt n Parent tracer ev); [|discriminate].
    rewrite app_nil_r. unfold maxSeverity. cbn. rewrite N.max_0_r.
    now destruct st.
  - lia.
Qed.

Lemma inRuleTable_high c :
  inRuleTable c = true -> 2 <= Severity c ->
  Severity c <= 3 /\
  (Reason c = TagName \/ Reason c = AttributeName \/
   Reason c = AttributeValueStartHref \/
   Reason c = AttributeValueOnEventHandler).
Proof.
  destruct c as [id nodeType loc context s r]. unfold inRuleTable.
  cbn [HTMLLocationType Severity Reason].
  destruct loc, r, s as [|[[p|p|]|[p|p|]|]];
    try discriminate; intros _ Hs; try lia; split; try lia; tauto.
Qed.

Lemma inRuleTable_bound c : inRuleTable c = true -> Severity c <= 3.
Proof.
  destruct c as [id nodeType loc context s r]. unfold inRuleTable.
  cbn [HTMLLocationType Severity Reason].
  destruct loc, r, s as [|[[p|p|]|[p|p|]|]]; try discriminate; intros _; lia.
Qed.

(** X4. Every finding of a walk is a row of the rule table: its location
    kind, severity and reason are one of the eleven combinations the code
    can assign, so the severity is at most 3 and [highest] ends at most at
    3. A finding of severity 2 or more, the ones [AddEvent] notifies
    about, comes from an event that is not a "response" and has reason
    [TagName], [AttributeName], [AttributeValueStartHref] or
    [AttributeValueOnEventHandler]. *)
Theorem walk_findings_in_rule_table :
  forall gohtml_Format n Parent tracer tracerEvent,
    let r :=
      getTracerLocation gohtml_Format n Parent tracer tracerEvent ([], 0) in
    Forall (fun c => inRuleTable c = true) (fst r) /\
    snd r <= 3 /\
    (forall c, In c (fst r) -> 2 <= Severity c ->
               isResponse tracerEvent = false /\
               (Reason c = TagName \/ Reason c = AttributeName \/
                Reason c = AttributeValueStartHref \/
                Reason c = AttributeValueOnEventHandler)).
Proof.
  intros fmt n Parent tracer ev r. subst r.
  rewrite getTracerLocation_findingsOf. cbn [fst snd app].
  rewrite N.max_0_l.
  assert (Hall : Forall (fun c => inRuleTable c = true /\
                                  (isResponse ev = true -> Severity c <= 1))
                   (findingsOf fmt n Parent tracer ev)).
  { apply findingsOf_Forall.
    - intros m pn c Hc. destruct (nodeFinding_table fmt m pn tracer ev c Hc)
        as [Ht Hr]. split; [exact Ht|]. intros Hresp. rewrite (Hr Hresp). lia.
    - intros nd a c Hc. destruct (attrFinding_table nd tracer ev a c Hc)
        as [Ht Hr]. split; [exact Ht|]. intros Hresp. rewrite (Hr Hresp). lia. }
  split; [|split].
  - eapply Forall_impl; [exact Hall|]. now intros c [Ht _].
  - apply maxSeverity_le. eapply Forall_impl; [exact Hall|].
    intros c [Ht _]. now apply inRuleTable_bound.
  - intros c Hin Hs. rewrite Forall_forall in Hall.
    apply (proj2 (list_elem_of_In _ _)) in Hin.
    destruct (Hall c Hin) as [Ht Hr]. split.
    + destruct (isResponse ev); [|reflexivity]. specialize (Hr eq_refl). lia.
    + now apply inRuleTable_high.
Qed.

(** X5. In a "response" event no finding is worth more than 1: node
    findings have severity 0 and attribute findings severity 1, so
    [highest] ends at most at 1. *)
Theorem walk_response_severity_at_most_one :
  forall gohtml_Format n Parent tracer tracerEvent,
    isResponse tracerEvent = true ->
    let r :=
      getTracerLocation gohtml_Format n Parent tracer tracerEvent ([], 0) in
    Forall (fun c => Severity c <= 1) (fst r) /\
    snd r <= 1 /\
    Forall (fun c => match HTMLLocationType c with
                     | AttrT | AttrVal => Severity c = 1
                     | _ => Severity c = 0
                     end) (fst r).
Proof.
  intros fmt n Parent tracer ev Hresp r. subst r.
  rewrite getTracerLocation_findingsOf. cbn [fst snd app].
  rewrite N.max_0_l.
  assert (Hall : Forall (fun c => match HTMLLocationType c with
                                  | AttrT | AttrVal => Severity c = 1
                                  | _ => Severity c = 0
                                  end)
                   (findingsOf fmt n Parent tracer ev)).
  { apply findingsOf_Forall.
    - intros m pn c Hc.
      pose proof (proj2 (nodeFinding_table fmt m pn tracer ev c Hc) Hresp) as Hs.
      revert Hc. unfold nodeFinding.
      destruct (strings.Contains (Data m) tracer); [|discriminate].
      rewrite Hresp.
      destruct (Type_ m); cbn [negb andb]; intros [= <-]; reflexivity.
    - intros nd a c Hc.
      pose proof (proj2 (attrFinding_table nd tracer ev a c Hc) Hresp) as Hs.
      revert Hc Hs. unfold attrFinding, attrValueFinding.
      destruct (strings.Contains (Key a) tracer); [intros [= <-]; now cbn|].
      destruct (strings.Contains (Val a) tracer); [|discriminate].
      intros [= <-]. now cbn. }
  assert (Hle : Forall (fun c => Severity c <= 1)
                  (findingsOf fmt n Parent tracer ev)).
  { eapply Forall_impl; [exact Hall|]. intros c. cbv beta.
    destruct (HTMLLocationType c); intros ->; lia. }
  split; [exact Hle|]. split; [now apply maxSeverity_le|exact Hall].
Qed.

Lemma walk_response_severity_at_most_one_witness :
  let r :=
    getTracerLocation Fixtures.plain Fixtures.document None "XSS"
      (Fixtures.eventOf "response") ([], 0) in
  Forall (fun c => Severity c <= 1) (fst r) /\
  snd r <= 1 /\
  Forall (fun c => match HTMLLocationType c with
                   | AttrT | AttrVal => Severity c = 1
                   | _ => Severity c = 0
                   end) (fst r).
Proof.
  exact (walk_response_severity_at_most_one Fixtures.plain Fixtures.document
           None "XSS" (Fixtures.eventOf "response") eq_refl).
Defined.

Lemma Contains_empty s : strings.Contains s EmptyString = true.
Proof. now destruct s. Qed.

Lemma occurrences_empty n : occurrences n EmptyString = nodesAndAttributes n.
Proof.
  induction n as [ty data attrs cs IH] using Node_ind.
  cbn [occurrences nodesAndAttributes Data Attr children].
  rewrite Contains_empty. f_equal; [f_equal|].
  - induction attrs as [|a attrs IHa]; [reflexivity|].
    cbn [List.filter]. rewrite Contains_empty. cbn [orb length]. now f_equal.
  - induction IH as [|c cs Hc _ IHcs]; [reflexivity|].
    cbn [map]. change (list_sum (?x :: ?l)) with (x + list_sum l)%nat.
    cbn [list_sum fold_right map]. f_equal; [exact Hc|exact IHcs].
Qed.

(** X6. With an empty tracer string everything matches: the walk appends
    one finding for every node and one for every attribute of the
    document, and every attribute is reported by its name, never by its
    value. *)
Theorem walk_empty_tracer_reports_everything :
  forall gohtml_Format n Parent tracerEvent st,
    let r :=
      getTracerLocation gohtml_Format n Parent EmptyString tracerEvent st in
    length (fst r) = (length (fst st) + nodesAndAttributes n)%nat /\
    Forall (fun c => HTMLLocationType c <> AttrVal)
      (findingsOf gohtml_Format n Parent EmptyString tracerEvent) /\
    fst r = fst st ++ findingsOf gohtml_Format n Parent EmptyString tracerEvent.
Proof.
  intros fmt n Parent ev st r. subst r.
  rewrite getTracerLocation_findingsOf. cbn [fst snd].
  rewrite length_app, findingsOf_length, occurrences_empty.
  split; [reflexivity|]. split; [|reflexivity].
  apply findingsOf_Forall.
  - intros m pn c. unfold nodeFinding. rewrite Contains_empty.
    destruct (Type_ m), (isResponse ev), (String.eqb pn "script");
      cbn [negb andb]; intros [= <-]; discriminate.
  - intros nd a c. unfold attrFinding. rewrite Contains_empty.
    intros [= <-]. discriminate.
Qed.

(** ** One call of the ingestion *)

Section CallFacts.

Context {DB : Type} `{Store DB}.
Variable gohtml_Format : string -> string.
Variable html_Parse : string -> result Node.
Variable json_Marshal : TracerEvent -> string * option error.

(** The run of [getDOMContexts] where the walk found something, written
    out: the two conditional updates and the conditional publication. *)
Lemma getDOMContexts_found event tracer (db : DB) doc c cs sev0 :
  html_Parse (RawData (RawEvent_ event)) = Ok doc ->
  getTracerLocation gohtml_Format doc None (TracerPayload tracer) event ([], 0)
  = (c :: cs, sev0) ->
  let text := String.eqb (EventType event) "text" in
  let sev := if text then 0 else sev0 in
  let event1 :=
    if text
    then withDOMContexts (withDOMContexts event (c :: cs))
           (map (fun c => withSeverity c 0) (c :: cs))
    else withDOMContexts event (c :: cs) in
  let old := HasTracerEvents tracer in
  let raised := OverallSeverity tracer <? sev in
  let t1 := withHasTracerEvents tracer true in
  let tnew := if raised then withOverallSeverity t1 sev else t1 in
  let c1 := withOverallSeverity (withTracerEvents t1 []) sev in
  let c2 := if raised then c1 else withTracerEvents t1 [] in
  exists db1 e1 db2 e2,
    (if raised then db_Updates c1 (overall_severity sev) db = (db1, e1)
     else db1 = db /\ e1 = None) /\
    (if negb old then db_Updates c2 (has_tracer_events true) db1 = (db2, e2)
     else db2 = db1 /\ e2 = e1) /\
    getDOMContexts gohtml_Format html_Parse event tracer db
    = ((event1, sev, e2), db2,
       (if raised then [Updates c1 (overall_severity sev) e1] else []) ++
       (if negb old then [Updates c2 (has_tracer_events true) e2] else []) ++
       (if negb old || raised
        then [UpdateSubscribers (PubTracer tnew)] else [])).
Proof.
  intros Hparse Hwalk text sev event1 old raised t1 tnew c1 c2.
  unfold getDOMContexts. rewrite Hparse, Hwalk.
  cbn [length Nat.eqb withDOMContexts EventType].
  fold text.
  assert (Hpair :
    (if text
     then (withDOMContexts (withDOMContexts event (c :: cs))
             (map (fun c0 => withSeverity c0 0)
                (DOMContexts (withDOMContexts event (c :: cs)))), 0)
     else (withDOMContexts event (c :: cs), sev0)) = (event1, sev)).
  { subst event1 sev. now destruct text. }
  rewrite Hpair. cbv beta iota zeta. run_M.
  cbn [OverallSeverity withHasTracerEvents HasTracerEvents].
  fold old raised t1. fold c1.
  subst tnew c2.
  destruct raised.
  - destruct (db_Updates c1 (overall_severity sev) db) as [db1 e1] eqn:Hu1.
    change (HasTracerEvents (withOverallSeverity t1 sev)) with true.
    destruct old; cbn [negb orb].
    + exists db1, e1, db1, e1. repeat first [reflexivity | assumption | split].
    + destruct (db_Updates c1 (has_tracer_events true) db1) as [db2 e2] eqn:Hu2.
      exists db1, e1, db2, e2. repeat first [reflexivity | assumption | split].
  - change (HasTracerEvents t1) with true.
    destruct old; cbn [negb orb].
    + exists db, None, db, None. repeat first [reflexivity | assumption | split].
    + destruct (db_Updates (withTracerEvents t1 []) (has_tracer_events true) db)
        as [db2 e2] eqn:Hu2.
      exists db, None, db2, e2. repeat first [reflexivity | assumption | split].
Qed.

End CallFacts.

Section CallShapes.

Context {DB : Type} `{Store DB}.
Variable gohtml_Format : string -> string.
Variable html_Parse : string -> result Node.
Variable json_Marshal : TracerEvent -> string * option error.

(** The walk from the start of [getDOMContexts] ends at most at 3. *)
Lemma walk_highest_bound n Parent tracer ev :
  snd (getTracerLocation gohtml_Format n Parent tracer ev ([], 0)) <= 3.
Proof.
  rewrite getTracerLocation_findingsOf. cbn [fst snd]. rewrite N.max_0_l.
  apply maxSeverity_le. apply findingsOf_Forall.
  - intros m pn c Hc. apply inRuleTable_bound.
    exact (proj1 (nodeFinding_table gohtml_Format m pn tracer ev c Hc)).
  - intros nd a c Hc. apply inRuleTable_bound.
    exact (proj1 (attrFinding_table nd tracer ev a c Hc)).
Qed.

Lemma getDOMContexts_entries event tracer (db : DB) :
  Forall (fromGetDOMContexts tracer)
    (snd (getDOMContexts gohtml_Format html_Parse event tracer db)).
Proof.
  destruct (html_Parse (RawData (RawEvent_ event))) as [doc|perr] eqn:Hparse.
  2:{ unfold getDOMContexts. rewrite Hparse. run_M. cbn. now repeat constructor. }
  pose proof (walk_highest_bound doc None (TracerPayload tracer) event) as Hb.
  destruct (getTracerLocation gohtml_Format doc None (TracerPayload tracer)
              event ([], 0)) as [[|c cs] sev0] eqn:Hwalk.
  - unfold getDOMContexts. rewrite Hparse, Hwalk. run_M. cbn. constructor.
  - destruct (getDOMContexts_found gohtml_Format html_Parse event tracer db
                doc c cs sev0 Hparse Hwalk)
      as (db1 & e1 & db2 & e2 & _ & _ & ->).
    cbn [snd] in *.
    assert (Hsev : (if String.eqb (EventType event) "text" then 0 else sev0) <= 3)
      by (destruct (String.eqb (EventType event) "text"); lia).
    destruct (N.ltb_spec (OverallSeverity tracer)
                (if String.eqb (EventType event) "text" then 0 else sev0));
      destruct (HasTracerEvents tracer) eqn:Hold; cbn;
      repeat constructor; trivial.
Qed.

(** The run of [createAndPublish], written out. *)
Lemma createAndPublish_shape tracer event (db : DB) :
  let stored := withRawEvent event RawEvent_zero in
  createAndPublish json_Marshal tracer event db
  = match db_Create stored db with
    | (db1, Err e) =>
        ((EmptyString, Some e), db1, [Create stored (Err e); LogWarning e])
    | (db1, Ok id) =>
        let copy := withID event id in
        (json_Marshal copy, db1,
         Create stored (Ok id)
         :: Send {| Event := copy;
                    Update_ID := int_of_uint (Tracer_ID tracer) |}
         :: UpdateSubscribers (PubEvent copy)
         :: match snd (json_Marshal copy) with
            | Some e => [LogWarning e]
            | None => []
            end ++
            if existsb isSevere (DOMContexts event)
            then [UpdateSubscribers (PubNotification tracer copy)] else [])
    end.
Proof.
  unfold createAndPublish. run_M.
  destruct (db_Create (withRawEvent event RawEvent_zero) db) as [db1 [id|e]];
    [|reflexivity].
  change (DOMContexts (withID event id)) with (DOMContexts event).
  change (existsb (fun c => 2 <=? Severity c) (DOMContexts event))
    with (existsb isSevere (DOMContexts event)).
  destruct (json_Marshal (withID event id)) as [ret [e|]];
    destruct (existsb isSevere (DOMContexts event)); reflexivity.
Qed.

(** The three ways through [AddEvent]. *)
Lemma AddEvent_cases tracer event (db : DB) :
  (Format (RawEvent_ event) = JSON /\
   AddEvent gohtml_Format html_Parse json_Marshal tracer event db
   = createAndPublish json_Marshal tracer event db) \/
  (Format (RawEvent_ event) = HTML /\
   exists event' sev e db1 t1,
     getDOMContexts gohtml_Format html_Parse event tracer db
     = ((event', sev, Some e), db1, t1) /\
     AddEvent gohtml_Format html_Parse json_Marshal tracer event db
     = ((EmptyString, Some e), db1, t1 ++ [LogWarning e])) \/
  (Format (RawEvent_ event) = HTML /\
   exists event' sev db1 t1 res db2 t2,
     getDOMContexts gohtml_Format html_Parse event tracer db
     = ((event', sev, None), db1, t1) /\
     createAndPublish json_Marshal tracer event' db1 = (res, db2, t2) /\
     AddEvent gohtml_Format html_Parse json_Marshal tracer event db
     = (res, db2, t1 ++ t2)).
Proof.
  unfold AddEvent. destruct (Format (RawEvent_ event)); [|left; now split].
  right. unfold mbind, M_bind.
  destruct (getDOMContexts gohtml_Format html_Parse event tracer db)
    as [[[[event' sev] [e|]] db1] t1].
  - left. split; [reflexivity|]. exists event', sev, e, db1, t1.
    split; [reflexivity|]. run_M. reflexivity.
  - right. split; [reflexivity|].
    destruct (createAndPublish json_Marshal tracer event' db1)
      as [[res db2] t2] eqn:Hpub.
    exists event', sev, db1, t1, res, db2, t2. now repeat split.
Qed.

End CallShapes.

(** X7. Markup in which the tracer's payload occurs nowhere:
    [getDOMContexts] hands the event back untouched with a nil error, makes
    no call on the store and publishes nothing, and [AddEvent] goes on to
    create and publish the event exactly as it came; the tracer is neither
    updated nor published. *)
Theorem AddEvent_payload_absent :
  forall (DB : Type) (S : Store DB) gohtml_Format html_Parse json_Marshal
         tracer event doc (db : DB),
    Format (RawEvent_ event) = HTML ->
    html_Parse (RawData (RawEvent_ event)) = Ok doc ->
    occurrences doc (TracerPayload tracer) = 0%nat ->
    getDOMContexts gohtml_Format html_Parse event tracer db
    = ((event, 0, None), db, []) /\
    AddEvent gohtml_Format html_Parse json_Marshal tracer event db
    = createAndPublish json_Marshal tracer event db /\
    Forall (fun ef => isTracerUpdate ef = false)
      (snd (AddEvent gohtml_Format html_Parse json_Marshal tracer event db)).
Proof.
  intros DB S fmt parse marshal tracer event doc db Hfmt Hparse Hnone.
  assert (Hwalk :
    getTracerLocation fmt doc None (TracerPayload tracer) event ([], 0) = ([], 0)).
  { rewrite getTracerLocation_findingsOf. cbn [fst snd app].
    pose proof (findingsOf_length fmt doc None (TracerPayload tracer) event)
      as Hlen.
    rewrite Hnone in Hlen.
    destruct (findingsOf fmt doc None (TracerPayload tracer) event);
      [reflexivity|discriminate]. }
  assert (Hdom : getDOMContexts fmt parse event tracer db
                 = ((event, 0, None), db, [])).
  { unfold getDOMContexts. rewrite Hparse, Hwalk. reflexivity. }
  assert (Hadd : AddEvent fmt parse marshal tracer event db
                 = createAndPublish marshal tracer event db).
  { unfold AddEvent. rewrite Hfmt. unfold mbind, M_bind. rewrite Hdom.
    destruct (createAndPublish marshal tracer event db) as [[res db2] t2].
    reflexivity. }
  split; [exact Hdom|]. split; [exact Hadd|]. rewrite Hadd.
  pose proof (createAndPublish_trace marshal tracer event db) as Htrace.
  destruct (createAndPublish marshal tracer event db) as [[res db2] t2].
  exact (proj1 Htrace).
Qed.

Lemma AddEvent_payload_absent_witness :
  getDOMContexts Fixtures.plain Fixtures.parse (Fixtures.eventOf "dom")
    Inputs.absentTracer Fixtures.emptyDB
  = ((Fixtures.eventOf "dom", 0, None), Fixtures.emptyDB, []).
Proof.
  exact (proj1
    (AddEvent_payload_absent MemDB MemStore Fixtures.plain Fixtures.parse
       Fixtures.marshal Inputs.absentTracer (Fixtures.eventOf "dom")
       Fixtures.document Fixtures.emptyDB eq_refl eq_refl eq_refl)).
Defined.

(** X8. Where the walk found something, the tracer is published exactly
    when it had no events before or its severity is raised, whatever the
    store answers to the updates. The published tracer has
    [HasTracerEvents] set and as [OverallSeverity] the larger of the old
    value and [sev], where [sev] is the largest severity among the findings
    left on the event. *)
Theorem getDOMContexts_publishes_tracer :
  forall (DB : Type) (S : Store DB) gohtml_Format html_Parse
         event tracer doc (db : DB),
    html_Parse (RawData (RawEvent_ event)) = Ok doc ->
    fst (getTracerLocation gohtml_Format doc None (TracerPayload tracer)
           event ([], 0)) <> [] ->
    let '(event', sev, err, db', trace) :=
      getDOMContexts gohtml_Format html_Parse event tracer db in
    let published :=
      withOverallSeverity (withHasTracerEvents tracer true)
        (N.max (OverallSeverity tracer) sev) in
    sev = maxSeverity (DOMContexts event') /\
    (In (UpdateSubscribers (PubTracer published)) trace <->
     HasTracerEvents tracer = false \/ OverallSeverity tracer < sev) /\
    (forall t, In (UpdateSubscribers (PubTracer t)) trace -> t = published).
Proof.
  intros DB S fmt parse event tracer doc db Hparse Hfound.
  pose proof (getTracerLocation_fresh fmt doc None (TracerPayload tracer) event)
    as Hmax.
  destruct (getTracerLocation fmt doc None (TracerPayload tracer) event ([], 0))
    as [[|c cs] sev0] eqn:Hwalk; [now destruct Hfound|].
  cbn [fst snd] in Hmax.
  destruct (getDOMContexts_found fmt parse event tracer db doc c cs sev0
              Hparse Hwalk) as (db1 & e1 & db2 & e2 & _ & _ & ->).
  cbv zeta.
  set (sev := if String.eqb (EventType event) "text" then 0 else sev0).
  assert (Hsev : sev = maxSeverity
            (DOMContexts
               (if String.eqb (EventType event) "text"
                then withDOMContexts (withDOMContexts event (c :: cs))
                       (map (fun c => withSeverity c 0) (c :: cs))
                else withDOMContexts event (c :: cs)))).
  { subst sev. destruct (String.eqb (EventType event) "text");
      cbn [DOMContexts withDOMContexts];
      [symmetry; apply maxSeverity_zeroed|exact Hmax]. }
  split; [exact Hsev|]. clear Hsev Hmax.
  assert (Hlist : forall (l : list Effect) p,
    (forall ef, In ef l ->
                match ef with
                | UpdateSubscribers (PubTracer t) => t = p
                | _ => True
                end) ->
    forall t, In (UpdateSubscribers (PubTracer t)) l -> t = p).
  { intros l p Hl t Hin. exact (Hl _ Hin). }
  destruct (N.ltb_spec (OverallSeverity tracer) sev) as [Hlt|Hge];
    destruct (HasTracerEvents tracer) eqn:Hold; cbn [negb orb app].
  - rewrite (N.max_r _ _ (N.lt_le_incl _ _ Hlt)). split.
    + split; [intros _; now right|intros _; right; left; reflexivity].
    + apply Hlist. intros ef [<-|[<-|[]]]; exact I || reflexivity.
  - rewrite (N.max_r _ _ (N.lt_le_incl _ _ Hlt)). split.
    + split; [intros _; now left|intros _; right; right; left; reflexivity].
    + apply Hlist. intros ef [<-|[<-|[<-|[]]]]; exact I || reflexivity.
  - rewrite (N.max_l _ _ Hge). split.
    + split; [intros []|intros [Hx|Hx]; [discriminate|lia]].
    + intros t [].
  - rewrite (N.max_l _ _ Hge). split.
    + split; [intros _; now left|intros _; right; left; reflexivity].
    + apply Hlist. intros ef [<-|[<-|[]]]; exact I || reflexivity.
Qed.

Lemma getDOMContexts_publishes_tracer_witness :
  let '(event', sev, err, db', trace) :=
    getDOMContexts Fixtures.plain Fixtures.parse (Fixtures.eventOf "dom")
      Fixtures.tracer Fixtures.emptyDB in
  let published :=
    withOverallSeverity (withHasTracerEvents Fixtures.tracer true)
      (N.max (OverallSeverity Fixtures.tracer) sev) in
  sev = maxSeverity (DOMContexts event') /\
  (In (UpdateSubscribers (PubTracer published)) trace <->
   HasTracerEvents Fixtures.tracer = false \/
   OverallSeverity Fixtures.tracer < sev) /\
  (forall t, In (UpdateSubscribers (PubTracer t)) trace -> t = published).
Proof.
  apply (getDOMContexts_publishes_tracer MemDB MemStore Fixtures.plain
           Fixtures.parse (Fixtures.eventOf "dom") Fixtures.tracer
           Fixtures.document Fixtures.emptyDB);
    [reflexivity|vm_compute; discriminate].
Defined.

(** X9. When the raw event parses, the error [getDOMContexts] returns is
    the outcome of the last [Updates] it made, and nil when it made none:
    each [Updates] assigns to the same [err]. For a tracer without events
    the update of [has_tracer_events] comes last, so a refused update of
    [overall_severity] is returned only if that second update is refused
    too. *)
Theorem getDOMContexts_returns_last_Updates :
  forall (DB : Type) (S : Store DB) gohtml_Format html_Parse
         event tracer doc (db : DB),
    html_Parse (RawData (RawEvent_ event)) = Ok doc ->
    let '(event', sev, err, db', trace) :=
      getDOMContexts gohtml_Format html_Parse event tracer db in
    err = lastUpdatesError trace /\
    (HasTracerEvents tracer = false -> DOMContexts event' <> DOMContexts event ->
     exists c, In (Updates c (has_tracer_events true) err) trace).
Proof.
  intros DB S fmt parse event tracer doc db Hparse.
  destruct (getTracerLocation fmt doc None (TracerPayload tracer) event ([], 0))
    as [[|c cs] sev0] eqn:Hwalk.
  - unfold getDOMContexts. rewrite Hparse, Hwalk. run_M. cbn.
    split; [reflexivity|]. intros _ Hne. now destruct Hne.
  - destruct (getDOMContexts_found fmt parse event tracer db doc c cs sev0
                Hparse Hwalk) as (db1 & e1 & db2 & e2 & Hu1 & Hu2 & ->).
    destruct (OverallSeverity tracer <?
              (if String.eqb (EventType event) "text" then 0 else sev0));
      destruct (HasTracerEvents tracer) eqn:Hold; cbn [negb orb app] in *.
    + destruct Hu2 as [_ ->]. split; [reflexivity|discriminate].
    + split; [reflexivity|]. intros _ _. eexists. right. left. reflexivity.
    + destruct Hu1 as [_ ->]. destruct Hu2 as [_ ->].
      split; [reflexivity|discriminate].
    + split; [reflexivity|]. intros _ _. eexists. left. reflexivity.
Qed.

Lemma getDOMContexts_returns_last_Updates_witness :
  let '(event', sev, err, db', trace) :=
    @getDOMContexts nat RefusingStore Fixtures.plain Fixtures.parse
      (Fixtures.eventOf "dom") Fixtures.tracer 0%nat in
  (err = lastUpdatesError trace /\
   (HasTracerEvents Fixtures.tracer = false ->
    DOMContexts event' <> DOMContexts (Fixtures.eventOf "dom") ->
    exists c, In (Updates c (has_tracer_events true) err) trace)) /\
  err = None /\ writesSucceed trace = false.
Proof.
  split; [|split; reflexivity].
  exact (getDOMContexts_returns_last_Updates nat RefusingStore Fixtures.plain
           Fixtures.parse (Fixtures.eventOf "dom") Fixtures.tracer
           Fixtures.document 0%nat eq_refl).
Defined.

Lemma getDOMContexts_entry {DB : Type} `{Store DB} gohtml_Format html_Parse
    event tracer (db : DB) ef :
  In ef (snd (getDOMContexts gohtml_Format html_Parse event tracer db)) ->
  fromGetDOMContexts tracer ef.
Proof.
  intros Hin.
  pose proof (getDOMContexts_entries gohtml_Format html_Parse event tracer db)
    as Hall.
  rewrite Forall_forall in Hall. apply Hall. now apply list_elem_of_In.
Qed.

Lemma createAndPublish_entry {DB : Type} `{Store DB} json_Marshal
    tracer event (db : DB) ef :
  In ef (snd (createAndPublish json_Marshal tracer event db)) ->
  isTracerUpdate ef = false.
Proof.
  intros Hin.
  pose proof (createAndPublish_trace json_Marshal tracer event db) as Htrace.
  destruct (createAndPublish json_Marshal tracer event db) as [[res db2] t2].
  destruct Htrace as (Hall & _). rewrite Forall_forall in Hall.
  apply Hall. now apply list_elem_of_In.
Qed.

(** X10. Every [Updates] that [AddEvent] makes is on the row of the tracer
    it was given, with [TracerEvents] emptied, and only ever raises: an
    update of [overall_severity] writes a value above the tracer's
    [OverallSeverity] and at most 3, and an update of [has_tracer_events]
    writes true for a tracer that had it false. *)
Theorem AddEvent_updates_only_raise :
  forall (DB : Type) (S : Store DB) gohtml_Format html_Parse json_Marshal
         tracer event (db : DB) c f err,
    In (Updates c f err)
       (snd (AddEvent gohtml_Format html_Parse json_Marshal tracer event db)) ->
    Tracer_ID c = Tracer_ID tracer /\ TracerEvents c = [] /\
    match f with
    | overall_severity s =>
        OverallSeverity tracer < s /\ s <= 3 /\ OverallSeverity c = s
    | has_tracer_events b => b = true /\ HasTracerEvents tracer = false
    end.
Proof.
  intros DB S fmt parse marshal tracer event db c f err Hin.
  assert (Hfrom : fromGetDOMContexts tracer (Updates c f err)).
  { destruct (AddEvent_cases fmt parse marshal tracer event db)
      as [[_ Hrun]|[[_ Hrun]|[_ Hrun]]].
    - rewrite Hrun in Hin. now apply createAndPublish_entry in Hin.
    - destruct Hrun as (event' & sev & e & db1 & t1 & Hdom & Hrun).
      rewrite Hrun in Hin. cbn [snd] in Hin.
      apply in_app_or in Hin as [Hin|[Hin|[]]]; [|discriminate].
      apply (getDOMContexts_entry fmt parse event tracer db).
      now rewrite Hdom.
    - destruct Hrun as (event' & sev & db1 & t1 & res & db2 & t2 &
                        Hdom & Hpub & Hrun).
      rewrite Hrun in Hin. cbn [snd] in Hin.
      apply in_app_or in Hin as [Hin|Hin].
      + apply (getDOMContexts_entry fmt parse event tracer db).
        now rewrite Hdom.
      + assert (Hno : isTracerUpdate (Updates c f err) = false).
        { apply (createAndPublish_entry marshal tracer event' db1).
          now rewrite Hpub. }
        discriminate Hno. }
  destruct f; cbn in Hfrom; tauto.
Qed.

Lemma AddEvent_updates_only_raise_witness :
  exists c err,
    In (Updates c (overall_severity 3) err)
       (snd (AddEvent Fixtures.plain Fixtures.parse Fixtures.marshal
               Fixtures.tracer (Fixtures.eventOf "dom") Fixtures.emptyDB)) /\
    Tracer_ID c = Tracer_ID Fixtures.tracer /\ TracerEvents c = [] /\
    OverallSeverity Fixtures.tracer < 3 /\ 3 <= 3 /\ OverallSeverity c = 3.
Proof.
  exists (withOverallSeverity
            (withTracerEvents (withHasTracerEvents Fixtures.tracer true) []) 3),
    None.
  assert (Hin :
    In (Updates
          (withOverallSeverity
             (withTracerEvents (withHasTracerEvents Fixtures.tracer true) []) 3)
          (overall_severity 3) None)
       (snd (AddEvent Fixtures.plain Fixtures.parse Fixtures.marshal
               Fixtures.tracer (Fixtures.eventOf "dom") Fixtures.emptyDB))).
  { left. reflexivity. }
  split; [exact Hin|].
  exact (AddEvent_updates_only_raise MemDB MemStore Fixtures.plain
           Fixtures.parse Fixtures.marshal Fixtures.tracer
           (Fixtures.eventOf "dom") Fixtures.emptyDB _ _ _ Hin).
Defined.

Section CallTrace.

Context {DB : Type} `{Store DB}.
Variable gohtml_Format : string -> string.
Variable html_Parse : string -> result Node.
Variable json_Marshal : TracerEvent -> string * option error.

Lemma withDOMContexts_same event : withDOMContexts event (DOMContexts event) = event.
Proof. now destruct event. Qed.

(** [getDOMContexts] changes nothing of the event but its findings. *)
Lemma getDOMContexts_event event tracer (db : DB) :
  let event' :=
    fst (fst (fst (fst (getDOMContexts gohtml_Format html_Parse event tracer db)))) in
  event' = withDOMContexts event (DOMContexts event').
Proof.
  destruct (html_Parse (RawData (RawEvent_ event))) as [doc|perr] eqn:Hparse.
  2:{ unfold getDOMContexts. rewrite Hparse. run_M. cbn.
      symmetry. apply withDOMContexts_same. }
  destruct (getTracerLocation gohtml_Format doc None (TracerPayload tracer)
              event ([], 0)) as [[|c cs] sev0] eqn:Hwalk.
  - unfold getDOMContexts. rewrite Hparse, Hwalk. run_M. cbn.
    symmetry. apply withDOMContexts_same.
  - destruct (getDOMContexts_found gohtml_Format html_Parse event tracer db
                doc c cs sev0 Hparse Hwalk)
      as (db1 & e1 & db2 & e2 & _ & _ & ->).
    cbn [fst]. now destruct (String.eqb (EventType event) "text").
Qed.

(** The trace of [AddEvent]: what [getDOMContexts] wrote, then either the
    warning for its error or the trace of [createAndPublish]. *)
Lemma AddEvent_trace tracer event (db : DB) :
  exists t1 event' db1,
    Forall (fromGetDOMContexts tracer) t1 /\
    event' = withDOMContexts event (DOMContexts event') /\
    ((exists e,
         AddEvent gohtml_Format html_Parse json_Marshal tracer event db
         = ((EmptyString, Some e), db1, t1 ++ [LogWarning e])) \/
     AddEvent gohtml_Format html_Parse json_Marshal tracer event db
     = (let '(res, db2, t2) :=
          createAndPublish json_Marshal tracer event' db1 in
        (res, db2, t1 ++ t2))).
Proof.
  destruct (AddEvent_cases gohtml_Format html_Parse json_Marshal tracer event db)
    as [[_ Hrun]|[[_ Hrun]|[_ Hrun]]].
  - exists [], event, db. split; [constructor|].
    split; [symmetry; apply withDOMContexts_same|]. right. rewrite Hrun.
    now destruct (createAndPublish json_Marshal tracer event db) as [[res db2] t2].
  - destruct Hrun as (event' & sev & e & db1 & t1 & Hdom & Hrun).
    pose proof (getDOMContexts_entries gohtml_Format html_Parse event tracer db)
      as Hall.
    pose proof (getDOMContexts_event event tracer db) as Hev.
    rewrite Hdom in Hall, Hev. cbn [fst snd] in Hall, Hev.
    exists t1, event', db1. split; [exact Hall|]. split; [exact Hev|].
    left. now exists e.
  - destruct Hrun as (event' & sev & db1 & t1 & res & db2 & t2 &
                      Hdom & Hpub & Hrun).
    pose proof (getDOMContexts_entries gohtml_Format html_Parse event tracer db)
      as Hall.
    pose proof (getDOMContexts_event event tracer db) as Hev.
    rewrite Hdom in Hall, Hev. cbn [fst snd] in Hall, Hev.
    exists t1, event', db1. split; [exact Hall|]. split; [exact Hev|].
    right. now rewrite Hpub.
Qed.

Lemma fromGetDOMContexts_In tracer t1 ef :
  Forall (fromGetDOMContexts tracer) t1 -> In ef t1 ->
  fromGetDOMContexts tracer ef.
Proof.
  intros Hall Hin. rewrite Forall_forall in Hall. apply Hall.
  now apply list_elem_of_In.
Qed.

End CallTrace.

Lemma fromGetDOMContexts_quiet tracer ef :
  fromGetDOMContexts tracer ef ->
  isSend ef = false /\ isPublishedEvent ef = false /\
  isNotification ef = false /\ (forall event r, ef <> Create event r).
Proof.
  destruct ef as [| | | | | |[]]; cbn; intros Hef;
    try (now destruct Hef); repeat split; discriminate.
Qed.

Lemma created_fromGetDOMContexts tracer t1 :
  Forall (fromGetDOMContexts tracer) t1 -> created t1 = [].
Proof.
  unfold created. induction 1 as [|ef t1 Hef _ IH]; [reflexivity|].
  cbn [omap list_omap]. rewrite IH.
  destruct ef as [|ev [id|]| | | | |]; try reflexivity; now destruct Hef.
Qed.

(** X11. When the store refuses the [Create], [AddEvent] returns that
    error with a nil [ret], and the event reaches neither the cache nor the
    subscribers: the trace holds no send on [inUpdateChanEvent], no
    publication of the event and no notification, and no event was
    created. What [getDOMContexts] did before, updates included, stays
    done. *)
Theorem AddEvent_create_refused :
  forall (DB : Type) (S : Store DB) gohtml_Format html_Parse json_Marshal
         tracer event (db : DB) stored e,
    let r := AddEvent gohtml_Format html_Parse json_Marshal tracer event db in
    In (Create stored (Err e)) (snd r) ->
    fst (fst r) = (EmptyString, Some e) /\
    (forall ef, In ef (snd r) ->
                isSend ef = false /\ isPublishedEvent ef = false) /\
    created (snd r) = [] /\
    exists t1, snd r = t1 ++ [Create stored (Err e); LogWarning e] /\
               Forall (fromGetDOMContexts tracer) t1.
Proof.
  intros DB S fmt parse marshal tracer event db stored e r Hin. subst r.
  destruct (AddEvent_trace fmt parse marshal tracer event db)
    as (t1 & event' & db1 & Hall & Hev & [(e0 & Hrun)|Hrun]);
    rewrite Hrun in Hin |- *; clear Hrun.
  - cbn [snd] in Hin. apply in_app_or in Hin as [Hin|[Hin|[]]];
      [|discriminate].
    apply (fromGetDOMContexts_In tracer t1 _ Hall) in Hin. now destruct Hin.
  - rewrite createAndPublish_shape in Hin |- *.
    destruct (db_Create (withRawEvent event' RawEvent_zero) db1)
      as [db2 [id|e']].
    + exfalso. cbv zeta in Hin.
      destruct (marshal (withID event' id)) as [ret [em|]];
        destruct (existsb isSevere (DOMContexts event'));
        cbn [fst snd app] in Hin;
        apply in_app_or in Hin as [Hin|Hin];
        try (apply (fromGetDOMContexts_In tracer t1 _ Hall) in Hin;
             now destruct Hin);
        cbn [In] in Hin;
        repeat match goal with
               | Hx : _ \/ _ |- _ => destruct Hx as [Hx|Hx]
               | Hx : False |- _ => destruct Hx
               | Hx : _ = _ |- _ => discriminate Hx
               end.
    + cbn [fst snd] in Hin |- *.
      apply in_app_or in Hin as [Hin|[Hin|[Hin|[]]]];
        [apply (fromGetDOMContexts_In tracer t1 _ Hall) in Hin;
         now destruct Hin| |discriminate].
      injection Hin as Hstored He. subst e'. rewrite Hstored.
      split; [reflexivity|]. split; [|split].
      * intros ef Hef. apply in_app_or in Hef as [Hef|[<-|[<-|[]]]];
          [|now split|now split].
        apply (fromGetDOMContexts_In tracer t1 _ Hall) in Hef.
        apply fromGetDOMContexts_quiet in Hef. tauto.
      * rewrite created_app, (created_fromGetDOMContexts tracer t1 Hall).
        reflexivity.
      * exists t1. now split.
Qed.

Lemma AddEvent_create_refused_witness :
  let r :=
    @AddEvent unit FullStore Fixtures.plain Fixtures.parse Fixtures.marshal
      Fixtures.tracer (Fixtures.eventOf "dom") tt in
  fst (fst r) = (EmptyString, Some "disk full") /\
  List.filter isTracerUpdate (snd r) <> [] /\
  created (snd r) = [].
Proof.
  intros r.
  assert (Hin :
    In (Create
          (withRawEvent
             (fst (fst (fst (fst
                (@getDOMContexts unit FullStore Fixtures.plain Fixtures.parse
                   (Fixtures.eventOf "dom") Fixtures.tracer tt)))))
             RawEvent_zero)
          (Err "disk full")) (snd r)).
  { vm_compute. right. right. right. left. reflexivity. }
  destruct (AddEvent_create_refused unit FullStore Fixtures.plain Fixtures.parse
              Fixtures.marshal Fixtures.tracer (Fixtures.eventOf "dom") tt
              _ _ Hin) as (Hres & _ & Hcreated & _).
  split; [exact Hres|]. split; [|exact Hcreated].
  vm_compute. discriminate.
Defined.

(** X12. When the store accepts the [Create], the event it was given has
    an empty raw event, and the trace of [AddEvent] from there on is, in
    this order: the send to the cache under [int(tracer.ID)] and the
    publication of the copy, which is the stored event with the
    identifier the store gave and the raw event of the incoming event put
    back; a warning if marshalling failed; and the notification, carrying
    the tracer as it was passed in, exactly when one of the findings has
    severity 2 or more. [AddEvent] returns what [json.Marshal] made of the
    copy. *)
Theorem AddEvent_created_event_is_sent :
  forall (DB : Type) (S : Store DB) gohtml_Format html_Parse json_Marshal
         tracer event (db : DB) stored id,
    let r := AddEvent gohtml_Format html_Parse json_Marshal tracer event db in
    In (Create stored (Ok id)) (snd r) ->
    let copy := withRawEvent (withID stored id) (RawEvent_ event) in
    RawEvent_ stored = RawEvent_zero /\
    fst (fst r) = json_Marshal copy /\
    exists t1,
      Forall (fromGetDOMContexts tracer) t1 /\
      snd r
      = t1 ++
        Create stored (Ok id)
        :: Send {| Event := copy; Update_ID := int_of_uint (Tracer_ID tracer) |}
        :: UpdateSubscribers (PubEvent copy)
        :: match snd (json_Marshal copy) with
           | Some e => [LogWarning e]
           | None => []
           end ++
           if existsb isSevere (DOMContexts stored)
           then [UpdateSubscribers (PubNotification tracer copy)] else [].
Proof.
  intros DB S fmt parse marshal tracer event db stored id r Hin copy.
  subst r copy.
  destruct (AddEvent_trace fmt parse marshal tracer event db)
    as (t1 & event' & db1 & Hall & Hev & [(e0 & Hrun)|Hrun]);
    rewrite Hrun in Hin |- *; clear Hrun.
  - cbn [snd] in Hin. apply in_app_or in Hin as [Hin|[Hin|[]]];
      [|discriminate].
    apply (fromGetDOMContexts_In tracer t1 _ Hall) in Hin. now destruct Hin.
  - rewrite createAndPublish_shape in Hin |- *.
    destruct (db_Create (withRawEvent event' RawEvent_zero) db1)
      as [db2 [id'|e']].
    + cbv zeta in Hin |- *.
      assert (Hhead : stored = withRawEvent event' RawEvent_zero /\ id = id').
      { destruct (marshal (withID event' id')) as [ret [em|]];
          destruct (existsb isSevere (DOMContexts event'));
          cbn [fst snd app] in Hin;
          apply in_app_or in Hin as [Hin|Hin];
          try (apply (fromGetDOMContexts_In tracer t1 _ Hall) in Hin;
               now destruct Hin);
          cbn [In] in Hin;
          repeat match goal with
                 | Hx : _ \/ _ |- _ => destruct Hx as [Hx|Hx]
                 | Hx : False |- _ => destruct Hx
                 | Hx : Create _ _ = Create _ _ |- _ =>
                     injection Hx as Hx1 Hx2; now subst
                 | Hx : _ = _ |- _ => discriminate Hx
                 end. }
      destruct Hhead as [-> ->].
      assert (Hcopy :
        withRawEvent (withID (withRawEvent event' RawEvent_zero) id')
          (RawEvent_ event) = withID event' id').
      { rewrite Hev. reflexivity. }
      rewrite Hcopy. cbn [fst snd].
      split; [reflexivity|]. split; [reflexivity|].
      exists t1. split; [exact Hall|]. reflexivity.
    + exfalso. cbn [snd] in Hin.
      apply in_app_or in Hin as [Hin|[Hin|[Hin|[]]]];
        [apply (fromGetDOMContexts_In tracer t1 _ Hall) in Hin;
         now destruct Hin|discriminate|discriminate].
Qed.

Lemma AddEvent_created_event_is_sent_witness :
  let r :=
    AddEvent Fixtures.plain Fixtures.parse Fixtures.marshal Fixtures.tracer
      (Fixtures.eventOf "dom") Fixtures.emptyDB in
  exists stored,
    In (Create stored (Ok 1)) (snd r) /\
    RawEvent_ stored = RawEvent_zero /\
    fst (fst r)
    = Fixtures.marshal
        (withRawEvent (withID stored 1) (RawEvent_ (Fixtures.eventOf "dom"))).
Proof.
  intros r.
  exists (withRawEvent
            (fst (fst (fst (fst
               (getDOMContexts Fixtures.plain Fixtures.parse
                  (Fixtures.eventOf "dom") Fixtures.tracer Fixtures.emptyDB)))))
            RawEvent_zero).
  assert (Hin :
    In (Create
          (withRawEvent
             (fst (fst (fst (fst
                (getDOMContexts Fixtures.plain Fixtures.parse
                   (Fixtures.eventOf "dom") Fixtures.tracer Fixtures.emptyDB)))))
             RawEvent_zero) (Ok 1)) (snd r)).
  { vm_compute. right. right. right. left. reflexivity. }
  split; [exact Hin|].
  destruct (AddEvent_created_event_is_sent MemDB MemStore Fixtures.plain
              Fixtures.parse Fixtures.marshal Fixtures.tracer
              (Fixtures.eventOf "dom") Fixtures.emptyDB _ _ Hin)
    as (Hraw & Hres & _).
  split; [exact Hraw|exact Hres].
Defined.

Lemma notifications_fromGetDOMContexts tracer t1 :
  Forall (fromGetDOMContexts tracer) t1 -> List.filter isNotification t1 = [].
Proof.
  induction 1 as [|ef t1 Hef _ IH]; [reflexivity|].
  cbn [List.filter]. rewrite IH.
  now rewrite (proj1 (proj2 (proj2 (fromGetDOMContexts_quiet tracer ef Hef)))).
Qed.

Lemma existsb_isSevere_low cs :
  Forall (fun c => Severity c <= 1) cs -> existsb isSevere cs = false.
Proof.
  induction 1 as [|c cs Hc _ IH]; [reflexivity|].
  cbn [existsb]. rewrite IH. unfold isSevere.
  destruct (N.leb_spec 2 (Severity c)); [lia|reflexivity].
Qed.

Lemma getDOMContexts_response {DB : Type} `{Store DB} gohtml_Format html_Parse
    event tracer (db : DB) :
  isResponse event = true -> DOMContexts event = [] ->
  Forall (fun c => Severity c <= 1)
    (DOMContexts
       (fst (fst (fst (fst
          (getDOMContexts gohtml_Format html_Parse event tracer db)))))).
Proof.
  intros Hresp Hnone.
  destruct (html_Parse (RawData (RawEvent_ event))) as [doc|perr] eqn:Hparse.
  2:{ unfold getDOMContexts. rewrite Hparse. run_M. cbn. rewrite Hnone.
      constructor. }
  destruct (getTracerLocation gohtml_Format doc None (TracerPayload tracer)
              event ([], 0)) as [[|c cs] sev0] eqn:Hwalk.
  - unfold getDOMContexts. rewrite Hparse, Hwalk. run_M. cbn. rewrite Hnone.
    constructor.
  - destruct (getDOMContexts_found gohtml_Format html_Parse event tracer db
                doc c cs sev0 Hparse Hwalk)
      as (db1 & e1 & db2 & e2 & _ & _ & ->).
    cbn [fst].
    assert (Hkind : String.eqb (EventType event) "text" = false).
    { unfold isResponse in Hresp. apply String.eqb_eq in Hresp.
      now rewrite Hresp. }
    rewrite Hkind. cbn [DOMContexts withDOMContexts].
    replace (c :: cs) with
      (fst (getTracerLocation gohtml_Format doc None (TracerPayload tracer)
              event ([], 0))) by now rewrite Hwalk.
    rewrite getTracerLocation_findingsOf. cbn [fst app].
    apply findingsOf_Forall.
    + intros m pn c0 Hc.
      rewrite (proj2 (nodeFinding_table gohtml_Format m pn _ event c0 Hc) Hresp).
      lia.
    + intros nd a c0 Hc.
      rewrite (proj2 (attrFinding_table nd _ event a c0 Hc) Hresp). lia.
Qed.

(** X13. A "response" event that arrives without findings never raises
    the notification: whatever the document holds, its findings stay below
    severity 2, so the trace of [AddEvent] has no notification in it. *)
Theorem AddEvent_response_never_notifies :
  forall (DB : Type) (S : Store DB) gohtml_Format html_Parse json_Marshal
         tracer event (db : DB),
    isResponse event = true ->
    DOMContexts event = [] ->
    List.filter isNotification
      (snd (AddEvent gohtml_Format html_Parse json_Marshal tracer event db))
    = [] /\
    Forall (fun ev => Forall (fun c => Severity c <= 1) (DOMContexts ev))
      (created
         (snd (AddEvent gohtml_Format html_Parse json_Marshal tracer event db))).
Proof.
  intros DB S fmt parse marshal tracer event db Hresp Hnone.
  assert (Hpub : forall event' (db1 : DB),
    Forall (fun c => Severity c <= 1) (DOMContexts event') ->
    List.filter isNotification
      (snd (createAndPublish marshal tracer event' db1)) = [] /\
    Forall (fun ev => Forall (fun c => Severity c <= 1) (DOMContexts ev))
      (created (snd (createAndPublish marshal tracer event' db1)))).
  { intros event' db1 Hlow. rewrite createAndPublish_shape.
    rewrite (existsb_isSevere_low _ Hlow).
    destruct (db_Create (withRawEvent event' RawEvent_zero) db1)
      as [db2 [id|e]]; cbv zeta; cbn [snd].
    - destruct (snd (marshal (withID event' id))); cbn;
        (split; [reflexivity|repeat constructor; exact Hlow]).
    - cbn. split; [reflexivity|constructor]. }
  destruct (AddEvent_cases fmt parse marshal tracer event db)
    as [[_ Hrun]|[[_ Hrun]|[_ Hrun]]].
  - rewrite Hrun. apply Hpub. rewrite Hnone. constructor.
  - destruct Hrun as (event' & sev & e & db1 & t1 & Hdom & ->).
    pose proof (getDOMContexts_entries fmt parse event tracer db) as Hall.
    rewrite Hdom in Hall. cbn [snd] in Hall |- *.
    rewrite List.filter_app, created_app,
      (notifications_fromGetDOMContexts tracer t1 Hall),
      (created_fromGetDOMContexts tracer t1 Hall).
    cbn. split; [reflexivity|constructor].
  - destruct Hrun as (event' & sev & db1 & t1 & res & db2 & t2 &
                      Hdom & Hcp & ->).
    pose proof (getDOMContexts_entries fmt parse event tracer db) as Hall.
    pose proof (getDOMContexts_response fmt parse event tracer db Hresp Hnone)
      as Hlow.
    rewrite Hdom in Hall, Hlow. cbn [fst snd] in Hall, Hlow |- *.
    rewrite List.filter_app, created_app,
      (notifications_fromGetDOMContexts tracer t1 Hall),
      (created_fromGetDOMContexts tracer t1 Hall).
    destruct (Hpub event' db1 Hlow) as [Hn Hc]. rewrite Hcp in Hn, Hc.
    cbn [snd app] in *. now split.
Qed.

Lemma AddEvent_response_never_notifies_witness :
  List.filter isNotification
    (snd (AddEvent Fixtures.plain Fixtures.parse Fixtures.marshal
            Fixtures.tracer (Fixtures.eventOf "response") Fixtures.emptyDB))
  = [].
Proof.
  exact (proj1
    (AddEvent_response_never_notifies MemDB MemStore Fixtures.plain
       Fixtures.parse Fixtures.marshal Fixtures.tracer
       (Fixtures.eventOf "response") Fixtures.emptyDB eq_refl eq_refl)).
Defined.

(** ** The load path, in general *)

Section LoadShape.

Context {DB : Type} `{Store DB}.

(** The loop from position [length done] on: each element left to visit
    is either kept as it is or given the raw event the store holds for it,
    and the store is asked exactly for those given one. [picked] marks
    them. *)
Lemma rangeTracerEvents_shape vs : forall done cache (db : DB),
  exists picked cache',
    map snd picked = vs /\
    rangeTracerEvents (length done) vs (done ++ vs, cache) db
    = ((done ++ map (fun p : bool * TracerEvent =>
                       if fst p then withRawEvent (snd p) (db_Related (snd p) db)
                       else snd p) picked,
        cache'),
       db,
       map (fun p => Related (snd p)) (List.filter fst picked)) /\
    (forall v rest, vs = v :: rest ->
       cache !! int_of_uint (RawEventID v) = None ->
       exists rest', picked = (true, v) :: rest').
Proof.
  induction vs as [|v vs IH]; intros done cache db.
  - exists [], cache. split; [reflexivity|]. split; [|discriminate].
    cbn [rangeTracerEvents]. run_M. reflexivity.
  - cbn [rangeTracerEvents resolveRawEvent]. unfold mbind at 1, M_bind at 1.
    destruct (cache !! int_of_uint (RawEventID v)) as [cachedEvent|] eqn:Hhit.
    + destruct (IH (done ++ [v]) cache db) as (picked & cache' & Hsnd & Hrun & _).
      rewrite length_app, Nat.add_1_r, <- app_assoc in Hrun. cbn [app] in Hrun.
      exists ((false, v) :: picked), cache'.
      split; [cbn [map snd]; now rewrite Hsnd|]. split; [|intros; congruence].
      run_M. rewrite Hrun. cbn [map fst snd List.filter app].
      now rewrite <- app_assoc.
    + set (v' := withRawEvent v (db_Related v db)).
      destruct (IH (done ++ [v']) (<[Z.of_nat (length done) := db_Related v db]> cache) db)
        as (picked & cache' & Hsnd & Hrun & _).
      rewrite length_app, Nat.add_1_r, <- app_assoc in Hrun. cbn [app] in Hrun.
      exists ((true, v) :: picked), cache'.
      split; [cbn [map snd]; now rewrite Hsnd|].
      split; [|intros v0 rest [= <- <-] _; now eexists].
      run_M.
      replace (alter (fun e => withRawEvent e (db_Related v db)) (length done)
                 (done ++ v :: vs)) with (done ++ v' :: vs).
      2:{ rewrite <- (Nat.add_0_r (length done)) at 1.
          now rewrite alter_app_r. }
      rewrite Hrun. cbn [map fst snd List.filter app].
      now rewrite <- app_assoc.
Qed.

(** With no [RawEventID] inside the positions of the list, no lookup in
    the local cache ever hits. *)
Lemma rangeTracerEvents_fresh vs : forall done cache (db : DB) n,
  (forall z, is_Some (cache !! z) -> (0 <= z < Z.of_nat (length done))%Z) ->
  (length done + length vs)%nat = n ->
  Forall (fun f => ~ (0 <= int_of_uint (RawEventID f) < Z.of_nat n)%Z) vs ->
  exists cache',
    rangeTracerEvents (length done) vs (done ++ vs, cache) db
    = ((done ++ map (fun f => withRawEvent f (db_Related f db)) vs, cache'),
       db, map Related vs).
Proof.
  induction vs as [|v vs IH]; intros done cache db n Hkeys Hn Hfresh.
  - exists cache. cbn [rangeTracerEvents]. run_M. reflexivity.
  - apply Forall_cons in Hfresh as [Hv Hfresh]. cbn [length] in Hn.
    cbn [rangeTracerEvents resolveRawEvent]. unfold mbind at 1, M_bind at 1.
    destruct (cache !! int_of_uint (RawEventID v)) as [cachedEvent|] eqn:Hhit.
    { exfalso. apply Hv.
      assert (Hin := Hkeys _ (ex_intro _ cachedEvent Hhit)). lia. }
    set (v' := withRawEvent v (db_Related v db)).
    destruct (IH (done ++ [v'])
                (<[Z.of_nat (length done) := db_Related v db]> cache) db n)
      as (cache' & Hrun).
    + intros z [x Hz]. rewrite length_app, Nat.add_1_r.
      destruct (decide (Z.of_nat (length done) = z)) as [<-|Hne]; [lia|].
      rewrite lookup_insert_ne in Hz by exact Hne.
      assert (Hin := Hkeys _ (ex_intro _ x Hz)). lia.
    + rewrite length_app. cbn [length]. lia.
    + exact Hfresh.
    + rewrite length_app, Nat.add_1_r, <- app_assoc in Hrun. cbn [app] in Hrun.
      exists cache'. run_M.
      replace (alter (fun e => withRawEvent e (db_Related v db)) (length done)
                 (done ++ v :: vs)) with (done ++ v' :: vs).
      2:{ rewrite <- (Nat.add_0_r (length done)) at 1.
          now rewrite alter_app_r. }
      rewrite Hrun. cbn [map app]. now rewrite <- app_assoc.
Qed.

(** The run of [getTracerEventsDB], written out. *)
Lemma getTracerEventsDB_shape tracerID (db : DB) :
  match db_Find tracerID db with
  | Err err =>
      getTracerEventsDB tracerID db
      = (Err err, db, [Find tracerID; LogWarning err])
  | Ok found =>
      exists picked,
        map snd picked = found /\
        getTracerEventsDB tracerID db
        = (Ok (map (fun p : bool * TracerEvent =>
                      if fst p
                      then withRawEvent (snd p) (db_Related (snd p) db)
                      else snd p) picked),
           db,
           Find tracerID
           :: map (fun p => Related (snd p)) (List.filter fst picked)) /\
        (forall v rest, found = v :: rest ->
           exists rest', picked = (true, v) :: rest')
  end.
Proof.
  unfold getTracerEventsDB. run_M.
  destruct (db_Find tracerID db) as [found|err]; [|reflexivity].
  destruct (rangeTracerEvents_shape found [] ∅ db)
    as (picked & cache' & Hsnd & Hrun & Hhead).
  cbn [length app] in Hrun. exists picked. split; [exact Hsnd|]. split.
  - rewrite Hrun. cbn [app]. now rewrite app_nil_r.
  - intros v rest Hfound. apply (Hhead v rest Hfound). apply lookup_empty.
Qed.

Lemma isLoadEntry_Related (l : list TracerEvent) :
  Forall (fun e => isLoadEntry e = true) (map Related l).
Proof. induction l; constructor; [reflexivity|assumption]. Qed.

(** A load leaves the store as it is and writes load entries only. *)
Lemma getTracerEventsDB_reads tracerID (db : DB) :
  exists r trace,
    getTracerEventsDB tracerID db = (r, db, trace) /\
    Forall (fun e => isLoadEntry e = true) trace /\
    storeLoads trace = 1%nat /\
    (forall err, r = Err err -> db_Find tracerID db = Err err).
Proof.
  pose proof (getTracerEventsDB_shape tracerID db) as Hshape.
  destruct (db_Find tracerID db) as [found|err].
  - destruct Hshape as (picked & _ & Hrun & _). rewrite Hrun.
    eexists _, _. split; [reflexivity|]. split; [|split; [|discriminate]].
    + constructor; [reflexivity|].
      rewrite <- (map_map snd Related). apply isLoadEntry_Related.
    + change (storeLoads ([Find tracerID] ++
                map (fun p : bool * TracerEvent => Related (snd p))
                  (List.filter fst picked)) = 1%nat).
      rewrite storeLoads_app, (storeLoads_none (map _ _)); [reflexivity|].
      rewrite <- (map_map snd Related).
      induction (map snd (List.filter fst picked)); constructor;
        [reflexivity|assumption].
  - rewrite Hshape. eexists _, _. split; [reflexivity|].
    split; [repeat constructor|]. split; [reflexivity|congruence].
Qed.

End LoadShape.

(** X14. [getTracerEventsDB] hands back the events [Find] gave, in their
    order and number, each either as found or with the raw event the store
    holds for that very event: an event never gets the raw event of
    another one. The store is asked for a raw event exactly for the events
    that come back with one, in order; the first event always is one of
    them. The store is left as it is, and a refused [Find] is logged and
    returned without any fetch. *)
Theorem getTracerEventsDB_own_raw_event_or_none :
  forall (DB : Type) (S : Store DB) (tracerID : N) (db : DB),
    match db_Find tracerID db with
    | Err err =>
        getTracerEventsDB tracerID db
        = (Err err, db, [Find tracerID; LogWarning err])
    | Ok found =>
        exists picked : list (bool * TracerEvent),
          map snd picked = found /\
          getTracerEventsDB tracerID db
          = (Ok (map (fun p : bool * TracerEvent =>
                        if fst p
                        then withRawEvent (snd p) (db_Related (snd p) db)
                        else snd p) picked),
             db,
             Find tracerID
             :: map (fun p => Related (snd p)) (List.filter fst picked)) /\
          (forall v rest, found = v :: rest ->
             exists rest', picked = (true, v) :: rest')
    end.
Proof. intros DB S tracerID db. apply getTracerEventsDB_shape. Qed.

(** X15. When no event found has a [RawEventID] that, read as an [int],
    is a position of the list, every event comes back with its own raw
    event and the store is asked once per event, also for events that
    share a raw event. *)
Theorem getTracerEventsDB_without_position_clash :
  forall (DB : Type) (S : Store DB) (tracerID : N) (db : DB) found,
    db_Find tracerID db = Ok found ->
    Forall (fun f => ~ (0 <= int_of_uint (RawEventID f)
                        < Z.of_nat (length found))%Z) found ->
    getTracerEventsDB tracerID db
    = (Ok (map (fun f => withRawEvent f (db_Related f db)) found), db,
       Find tracerID :: map Related found).
Proof.
  intros DB S tracerID db found Hfind Hfresh.
  unfold getTracerEventsDB. run_M. rewrite Hfind.
  destruct (rangeTracerEvents_fresh found [] ∅ db (length found))
    as (cache' & Hrun).
  - intros z [x Hz]. rewrite lookup_empty in Hz. discriminate.
  - reflexivity.
  - exact Hfresh.
  - cbn [length app] in Hrun. rewrite Hrun. cbn [app].
    now rewrite app_nil_r.
Qed.

Lemma getTracerEventsDB_without_position_clash_witness :
  getTracerEventsDB 1 Fixtures.sharedDB
  = (Ok (map (fun f => withRawEvent f (db_Related f Fixtures.sharedDB))
           [Fixtures.row 1 5; Fixtures.row 2 5]),
     Fixtures.sharedDB,
     Find 1 :: map Related [Fixtures.row 1 5; Fixtures.row 2 5]).
Proof.
  apply (getTracerEventsDB_without_position_clash MemDB MemStore 1
           Fixtures.sharedDB [Fixtures.row 1 5; Fixtures.row 2 5]).
  - reflexivity.
  - repeat constructor; vm_compute; intros [_ Hlt]; discriminate Hlt.
Defined.

(** ** The goroutine, over any run *)

Section WorkerFacts.

Context {DB : Type} `{Store DB}.

Lemma step_reads m (events : gmap Z (list TracerEvent)) (db : DB) :
  exists r trace,
    tracerEventCache_step events m db = (r, db, trace) /\
    Forall (fun e => isLoadEntry e = true) trace /\
    (storeLoads trace <= if isRead m then 1 else 0)%nat /\
    match r with
    | Ok (events', reply) =>
        length (option_list reply) = (if isRead m then 1 else 0)%nat /\
        (forall l, reply = Some l ->
           exists i, m = inR i /\ events' !!! i = l)
    | Err err => exists i, m = inR i /\ i <> (-1)%Z /\ loadFails i db
    end.
Proof.
  destruct m as [i|u].
  - cbn [tracerEventCache_step isRead].
    destruct (i =? -1)%Z eqn:Hi; cbn [negb].
    + run_M. eexists _, _. split; [reflexivity|]. split; [constructor|].
      split; [cbn; lia|]. split; [reflexivity|discriminate].
    + apply Z.eqb_neq in Hi.
      destruct (length (events !!! i) =? 0)%nat.
      * destruct (getTracerEventsDB_reads (uint_of_int i) db)
          as (r & trace & Hrun & Hload & Hone & Herr).
        unfold mbind, M_bind. rewrite Hrun.
        destruct r as [loaded|err]; run_M; eexists _, _;
          (split; [reflexivity|]); rewrite app_nil_r;
          (split; [exact Hload|]); (split; [lia|]).
        -- split; [reflexivity|]. intros l [= <-]. exists i.
           split; [reflexivity|]. apply lookup_total_insert_eq.
        -- exists i. split; [reflexivity|]. split; [exact Hi|].
           exists err. now apply Herr.
      * run_M. eexists _, _. split; [reflexivity|]. split; [constructor|].
        split; [cbn; lia|]. split; [reflexivity|].
        intros l [= <-]. now exists i.
  - rewrite step_update. eexists _, _. split; [reflexivity|].
    split; [constructor|]. split; [cbn; lia|]. split; [reflexivity|discriminate].
Qed.

Lemma tracerEventCache_reads msgs :
  forall (events : gmap Z (list TracerEvent)) out (db : DB),
    exists r trace,
      tracerEventCache events out msgs db = (r, db, trace) /\
      Forall (fun e => isLoadEntry e = true) trace /\
      (storeLoads trace <= length (List.filter isRead msgs))%nat /\
      match r with
      | Ok (events', out') =>
          exists replies,
            out' = out ++ replies /\
            length replies = length (List.filter isRead msgs)
      | Err err => exists i, In (inR i) msgs /\ i <> (-1)%Z /\ loadFails i db
      end.
Proof.
  induction msgs as [|m msgs IH]; intros events out db.
  - cbn [tracerEventCache]. run_M. eexists _, _. split; [reflexivity|].
    split; [constructor|]. split; [cbn; lia|].
    exists []. now rewrite app_nil_r.
  - rewrite tracerEventCache_cons.
    destruct (step_reads m events db) as (r1 & t1 & Hstep & Hload1 & Hone1 & Hr1).
    rewrite Hstep. destruct r1 as [[events1 reply]|err].
    + destruct (IH events1 (out ++ option_list reply) db)
        as (r2 & t2 & Hrun & Hload2 & Hone2 & Hr2).
      rewrite Hrun. destruct Hr1 as [Hlen _].
      eexists _, _. split; [reflexivity|].
      split; [apply Forall_app; now split|].
      assert (Hcount : length (List.filter isRead (m :: msgs))
                       = ((if isRead m then 1 else 0)
                          + length (List.filter isRead msgs))%nat).
      { cbn [List.filter]. now destruct (isRead m). }
      split; [rewrite storeLoads_app, Hcount; lia|].
      destruct r2 as [[events2 out2]|err].
      * destruct Hr2 as (replies & -> & Hreplies).
        exists (option_list reply ++ replies).
        split; [now rewrite app_assoc|].
        rewrite length_app, Hcount. lia.
      * destruct Hr2 as (i & Hin & Hi & Hfail). exists i.
        split; [now right|now split].
    + eexists _, _. split; [reflexivity|]. split; [exact Hload1|].
      destruct Hr1 as (i & -> & Hi & Hfail).
      split; [cbn [isRead] in *; apply Z.eqb_neq in Hi as Hi';
              rewrite Hi' in *; cbn [negb List.filter isRead] in *;
              rewrite Hi'; cbn [negb length]; lia|].
      exists i. split; [now left|now split].
Qed.

Lemma updatesFor_cons t m msgs :
  updatesFor t (m :: msgs) = updatesFor t [m] ++ updatesFor t msgs.
Proof.
  unfold updatesFor. cbn [omap list_omap].
  destruct m as [i|u]; [reflexivity|].
  destruct (Update_ID u =? t)%Z; reflexivity.
Qed.

(** A message other than the flush, when the list of [t] is not empty or
    the message is no read of [t], only appends to the list of [t]. *)
Lemma step_grows t m (events : gmap Z (list TracerEvent)) (db : DB) :
  isFlush m = false ->
  events !!! t <> [] \/ isReadOf t m = false ->
  match tracerEventCache_step events m db with
  | (Ok (events', _), _, _) =>
      events' !!! t = events !!! t ++ updatesFor t [m]
  | (Err _, _, _) => True
  end.
Proof.
  intros Hflush Hpre. destruct m as [i|u].
  - cbn [isFlush] in Hflush. cbn [isReadOf] in Hpre.
    cbn [tracerEventCache_step]. rewrite Hflush.
    change (updatesFor t [inR i]) with (@nil TracerEvent). rewrite app_nil_r.
    destruct (length (events !!! i) =? 0)%nat eqn:Hlen.
    + apply length_zero_nil in Hlen.
      assert (Hne : i <> t).
      { destruct Hpre as [Hfull|Hread]; [congruence|].
        now apply Z.eqb_neq in Hread. }
      destruct (getTracerEventsDB_reads (uint_of_int i) db)
        as (r & trace & Hrun & _).
      unfold mbind, M_bind. rewrite Hrun.
      destruct r as [loaded|err]; run_M; [|exact I].
      now apply lookup_total_insert_ne.
    + run_M. reflexivity.
  - rewrite step_update. unfold updatesFor. cbn [omap list_omap].
    destruct (Update_ID u =? t)%Z eqn:Hid.
    + apply Z.eqb_eq in Hid. subst t. apply lookup_total_insert_eq.
    + apply Z.eqb_neq in Hid. rewrite app_nil_r.
      now apply lookup_total_insert_ne.
Qed.

Lemma tracerEventCache_grows t msgs :
  forall (events : gmap Z (list TracerEvent)) out (db : DB),
    forallb (fun m => negb (isFlush m)) msgs = true ->
    events !!! t <> [] \/
    forallb (fun m => negb (isReadOf t m)) msgs = true ->
    match tracerEventCache events out msgs db with
    | (Ok (events', _), _, _) =>
        events' !!! t = events !!! t ++ updatesFor t msgs
    | (Err _, _, _) => True
    end.
Proof.
  induction msgs as [|m msgs IH]; intros events out db Hflush Hpre.
  - cbn [tracerEventCache]. run_M. now rewrite app_nil_r.
  - cbn [forallb] in Hflush. apply andb_prop in Hflush as [Hm Hflush].
    apply negb_true_iff in Hm.
    rewrite tracerEventCache_cons.
    assert (Hpre1 : events !!! t <> [] \/ isReadOf t m = false).
    { destruct Hpre as [Hfull|Hreads]; [now left|right].
      cbn [forallb] in Hreads. apply andb_prop in Hreads as [Hr _].
      now apply negb_true_iff in Hr. }
    pose proof (step_grows t m events db Hm Hpre1) as Hstep.
    destruct (tracerEventCache_step events m db)
      as [[[[events1 reply]|err] db1] t1]; [|exact I].
    assert (Hpre2 : events1 !!! t <> [] \/
                    forallb (fun m => negb (isReadOf t m)) msgs = true).
    { destruct Hpre as [Hfull|Hreads].
      - left. rewrite Hstep. intros Hnil. apply app_eq_nil in Hnil as [Hnil _].
        now apply Hfull.
      - right. cbn [forallb] in Hreads. now apply andb_prop in Hreads as [_ Hr]. }
    pose proof (IH events1 (out ++ option_list reply) db1 Hflush Hpre2) as Hrest.
    destruct (tracerEventCache events1 (out ++ option_list reply) msgs db1)
      as [[[[events2 out2]|err] db2] t2]; [|exact I].
    rewrite Hrest, Hstep, (updatesFor_cons t m msgs). now rewrite app_assoc.
Qed.

End WorkerFacts.

(** X16. Whatever the goroutine receives, it never writes: the store is
    left as it is and the trace holds nothing but the queries, fetches and
    warnings of loads. There are at most as many loads as reads other
    than the flush. *)
Theorem tracerEventCache_never_writes :
  forall (DB : Type) (S : Store DB) (events : gmap Z (list TracerEvent)) out
         msgs (db : DB),
    let '(r, db', trace) := tracerEventCache events out msgs db in
    db' = db /\
    Forall (fun e => isLoadEntry e = true) trace /\
    (storeLoads trace <= length (List.filter isRead msgs))%nat.
Proof.
  intros DB S events out msgs db.
  destruct (tracerEventCache_reads msgs events out db)
    as (r & trace & Hrun & Hload & Hcount & _).
  rewrite Hrun. now split.
Qed.

Section ReplyOrder.

Context {DB : Type} `{Store DB}.

(** The run up to a read, the turn of that read, and the place of its
    answer on [out]. *)
Lemma tracerEventCache_reply_at pre i post :
  forall (events : gmap Z (list TracerEvent)) out (db : DB) events' out',
    i <> (-1)%Z ->
    fst (fst (tracerEventCache events out (pre ++ inR i :: post) db))
    = Ok (events', out') ->
    exists events1 replies1 t1 events2 reply t2 rest,
      tracerEventCache events out pre db
      = (Ok (events1, out ++ replies1), db, t1) /\
      length replies1 = length (List.filter isRead pre) /\
      tracerEventCache_step events1 (inR i) db
      = (Ok (events2, Some reply), db, t2) /\
      reply = events2 !!! i /\
      out' = out ++ replies1 ++ reply :: rest.
Proof.
  intros events out db events' out' Hi Hrun.
  rewrite tracerEventCache_app in Hrun.
  destruct (tracerEventCache_reads pre events out db)
    as (r1 & t1 & Hrun1 & _ & _ & Hr1).
  rewrite Hrun1 in Hrun. destruct r1 as [[events1 out1]|err1];
    [|discriminate Hrun].
  destruct Hr1 as (replies1 & -> & Hlen1).
  rewrite tracerEventCache_cons in Hrun.
  destruct (step_reads (inR i) events1 db)
    as (r2 & t2 & Hstep & _ & _ & Hr2).
  rewrite Hstep in Hrun. destruct r2 as [[events2 reply]|err2];
    [|discriminate Hrun].
  destruct Hr2 as [Hlen Hreply].
  assert (Hread : isRead (inR i) = true).
  { cbn [isRead]. apply negb_true_iff. now apply Z.eqb_neq. }
  rewrite Hread in Hlen. destruct reply as [reply|]; [|discriminate Hlen].
  destruct (Hreply reply eq_refl) as (i0 & [= <-] & Hlist).
  destruct (tracerEventCache_reads post events2
              ((out ++ replies1) ++ option_list (Some reply)) db)
    as (r3 & t3 & Hrun3 & _ & _ & Hr3).
  rewrite Hrun3 in Hrun. destruct r3 as [[events3 out3]|err3];
    [|discriminate Hrun].
  destruct Hr3 as (rest & -> & _). cbn [fst] in Hrun.
  injection Hrun as _ <-.
  exists events1, replies1, t1, events2, reply, t2, rest.
  split; [exact Hrun1|]. split; [exact Hlen1|]. split; [exact Hstep|].
  split; [now symmetry|]. cbn [option_list].
  rewrite <- !app_assoc. reflexivity.
Qed.

End ReplyOrder.

(** X17. The goroutine sends one list on [out] for each read other than
    the flush, in the order of the reads, and nothing for an update or the
    flush; what was on [out] before stays in front. The answer to the read
    that comes after [pre] stands at the place on [out] given by the number
    of reads in [pre], and it is the list the map holds for the identifier
    of that read when its turn is over, as the turn of the goroutine on
    the map left by [pre] produced it. The goroutine stops early only when
    the store refused the load of a read. *)
Theorem tracerEventCache_one_reply_per_read :
  forall (DB : Type) (S : Store DB) (events : gmap Z (list TracerEvent)) out
         msgs (db : DB),
    match fst (fst (tracerEventCache events out msgs db)) with
    | Ok (events', out') =>
        exists replies,
          out' = out ++ replies /\
          length replies = length (List.filter isRead msgs) /\
          forall pre i post,
            msgs = pre ++ inR i :: post -> i <> (-1)%Z ->
            exists events1 out1 t1 events2 reply t2,
              tracerEventCache events out pre db
              = (Ok (events1, out1), db, t1) /\
              tracerEventCache_step events1 (inR i) db
              = (Ok (events2, Some reply), db, t2) /\
              reply = events2 !!! i /\
              replies !! length (List.filter isRead pre) = Some reply
    | Err err => exists i, In (inR i) msgs /\ i <> (-1)%Z /\ loadFails i db
    end.
Proof.
  intros DB S events out msgs db.
  destruct (tracerEventCache_reads msgs events out db)
    as (r & trace & Hrun & _ & _ & Hr).
  pose proof (fun pre i post =>
                tracerEventCache_reply_at pre i post events out db) as Hat.
  rewrite Hrun in *. cbn [fst] in *.
  destruct r as [[events' out']|err]; [|exact Hr].
  destruct Hr as (replies & -> & Hlen).
  exists replies. split; [reflexivity|]. split; [exact Hlen|].
  intros pre i post -> Hi.
  destruct (Hat pre i post events' (out ++ replies) Hi)
    as (events1 & replies1 & t1 & events2 & reply & t2 & rest &
        Hpre & Hlen1 & Hstep & Hreply & Hout).
  { rewrite Hrun. reflexivity. }
  exists events1, (out ++ replies1), t1, events2, reply, t2.
  split; [exact Hpre|]. split; [exact Hstep|]. split; [exact Hreply|].
  apply app_inv_head in Hout. rewrite Hout, <- Hlen1.
  now apply list_lookup_middle.
Qed.

(** X18. Over messages without a flush, when the list of [t] is not empty
    at the start or [t] is not read, the list of [t] only grows: at the
    end it is the list from the start followed by the events of the
    updates for [t], in the order they arrived. Loads for other tracers
    and updates of other tracers leave it alone. *)
Theorem tracerEventCache_list_grows_by_updates :
  forall (DB : Type) (S : Store DB) (events : gmap Z (list TracerEvent)) out
         (t : Z) msgs (db : DB),
    forallb (fun m => negb (isFlush m)) msgs = true ->
    events !!! t <> [] \/
    forallb (fun m => negb (isReadOf t m)) msgs = true ->
    match tracerEventCache events out msgs db with
    | (Ok (events', _), _, _) =>
        events' !!! t = events !!! t ++ updatesFor t msgs
    | (Err _, _, _) => True
    end.
Proof.
  intros DB S events out t msgs db. apply tracerEventCache_grows.
Qed.

Lemma tracerEventCache_list_grows_by_updates_witness :
  match
    tracerEventCache (∅ : gmap Z (list TracerEvent)) []
      [inU {| Event := Fixtures.row 7 5; Update_ID := 1 |};
       inR 2;
       inU {| Event := Fixtures.row 8 5; Update_ID := 2 |};
       inU {| Event := Fixtures.row 9 5; Update_ID := 1 |}]
      Fixtures.sharedDB
  with
  | (Ok (events', _), _, _) =>
      events' !!! 1%Z
      = (∅ : gmap Z (list TracerEvent)) !!! 1%Z ++
        updatesFor 1
          [inU {| Event := Fixtures.row 7 5; Update_ID := 1 |};
           inR 2;
           inU {| Event := Fixtures.row 8 5; Update_ID := 2 |};
           inU {| Event := Fixtures.row 9 5; Update_ID := 1 |}]
  | (Err _, _, _) => True
  end.
Proof.
  exact (tracerEventCache_list_grows_by_updates MemDB MemStore ∅ [] 1%Z
           [inU {| Event := Fixtures.row 7 5; Update_ID := 1 |};
            inR 2;
            inU {| Event := Fixtures.row 8 5; Update_ID := 2 |};
            inU {| Event := Fixtures.row 9 5; Update_ID := 1 |}]
           Fixtures.sharedDB eq_refl (or_intror eq_refl)).
Defined.

(** ** The callers of the goroutine *)

Lemma int_of_uint_cases (u : N) :
  (u < 2 ^ 64)%N ->
  (Z.of_N u < 2 ^ 63 /\ int_of_uint u = Z.of_N u)%Z \/
  (2 ^ 63 <= Z.of_N u /\ int_of_uint u = Z.of_N u - 2 ^ 64)%Z.
Proof.
  intros Hu. assert (Hz : (0 <= Z.of_N u < 2 ^ 64)%Z).
  { split; [lia|]. change (2 ^ 64)%Z with (Z.of_N (2 ^ 64)). lia. }
  unfold int_of_uint.
  destruct (Z.lt_ge_cases (Z.of_N u) (2 ^ 63)) as [Hlow|Hhigh]; [left|right].
  - split; [exact Hlow|]. rewrite Z.mod_small; lia.
  - split; [exact Hhigh|].
    replace (Z.of_N u + 2 ^ 63)%Z
      with ((Z.of_N u - 2 ^ 63) + 1 * 2 ^ 64)%Z by lia.
    rewrite Z_mod_plus_full, Z.mod_small; lia.
Qed.

(** [uint(int(u))] is [u]. *)
Lemma uint_of_int_of_uint (u : N) :
  (u < 2 ^ 64)%N -> uint_of_int (int_of_uint u) = u.
Proof.
  intros Hu. assert (Hz : (0 <= Z.of_N u < 2 ^ 64)%Z).
  { split; [lia|]. change (2 ^ 64)%Z with (Z.of_N (2 ^ 64)). lia. }
  unfold uint_of_int.
  destruct (int_of_uint_cases u Hu) as [[Hlow ->]|[Hhigh ->]].
  - rewrite Z.mod_small by lia. apply N2Z.id.
  - replace (Z.of_N u - 2 ^ 64)%Z with (Z.of_N u + (-1) * 2 ^ 64)%Z by lia.
    rewrite Z_mod_plus_full, Z.mod_small by lia. apply N2Z.id.
Qed.

(** [int(u)] is -1 for the largest [uint] only. *)
Lemma int_of_uint_flush (u : N) :
  (u < 2 ^ 64)%N -> int_of_uint u = (-1)%Z <-> u = (2 ^ 64 - 1)%N.
Proof.
  intros Hu. assert (Hz : (0 <= Z.of_N u < 2 ^ 64)%Z).
  { split; [lia|]. change (2 ^ 64)%Z with (Z.of_N (2 ^ 64)). lia. }
  destruct (int_of_uint_cases u Hu) as [[Hlow ->]|[Hhigh ->]]; split.
  - lia.
  - intros ->. exfalso. revert Hlow. vm_compute. discriminate.
  - intros Heq. apply N2Z.inj.
    change (Z.of_N (2 ^ 64 - 1)) with (2 ^ 64 - 1)%Z. lia.
  - intros ->. reflexivity.
Qed.

(** ** Raw events *)

Lemma firstOrCreate_keeps_format q db :
  Format (snd (fst (Inputs.firstOrCreate q db))) = Format q.
Proof.
  unfold Inputs.firstOrCreate.
  match goal with |- context [List.find ?f ?l] =>
    destruct (List.find f l) as [r|] eqn:Hfind end; [|reflexivity].
  apply find_some in Hfind as [_ Hsame].
  apply andb_prop in Hsame as [_ Hsame]. cbn [fst snd].
  destruct (Format r), (Format q); congruence.
Qed.

(** X21. With a store that answers [FirstOrCreate] with a raw event of
    the format it was asked for, the raw event [AddEventData] returns
    without an error is tagged JSON exactly when [json.Valid] accepts the
    text, and HTML otherwise. So [AddEvent] never looks for findings in an
    event that carries the raw event of a valid JSON text: it creates and
    publishes the event as it came, whatever the tracer. *)
Theorem AddEventData_tag_decides_classification :
  forall (DB : Type) (S : Store DB) json_Valid json_MarshalIndent
         gohtml_Format html_Parse json_Marshal
         (db_FirstOrCreate : RawEvent -> DB -> DB * RawEvent * option error)
         eventData (db : DB),
    (forall q d, Format (snd (fst (db_FirstOrCreate q d))) = Format q) ->
    let '((re, err), db', trace) :=
      AddEventData json_Valid json_MarshalIndent gohtml_Format
        db_FirstOrCreate eventData db in
    err = None ->
    Format re = (if json_Valid eventData then JSON else HTML) /\
    (json_Valid eventData = true ->
     forall tracer event (db2 : DB),
       AddEvent gohtml_Format html_Parse json_Marshal tracer
         (withRawEvent event re) db2
       = createAndPublish json_Marshal tracer (withRawEvent event re) db2).
Proof.
  intros DB S valid indent fmt parse marshal foc eventData db Hlaw.
  unfold AddEventData.
  assert (Hadd : forall re, Format re = JSON ->
    forall tracer event (db2 : DB),
      AddEvent fmt parse marshal tracer (withRawEvent event re) db2
      = createAndPublish marshal tracer (withRawEvent event re) db2).
  { intros re Hre tracer event db2. unfold AddEvent.
    change (Format (RawEvent_ (withRawEvent event re))) with (Format re).
    now rewrite Hre. }
  destruct (valid eventData); cbn [negb].
  - destruct (indent eventData) as [ind|err0]; [|discriminate].
    pose proof (Hlaw {| RawID := 0; RawData := ind; Format := JSON |} db) as Hq.
    destruct (foc {| RawID := 0; RawData := ind; Format := JSON |} db)
      as [[db' re] [err|]]; [discriminate|].
    cbn [fst snd Format] in Hq. intros _. split; [exact Hq|].
    intros _. now apply Hadd.
  - pose proof (Hlaw {| RawID := 0; RawData := fmt eventData; Format := HTML |} db)
      as Hq.
    destruct (foc {| RawID := 0; RawData := fmt eventData; Format := HTML |} db)
      as [[db' re] [err|]]; [discriminate|].
    cbn [fst snd Format] in Hq. intros _. split; [exact Hq|discriminate].
Qed.

Lemma AddEventData_tag_decides_classification_witness :
  let '((re, err), db', trace) :=
    AddEventData Inputs.valid Inputs.indent Fixtures.plain
      Inputs.firstOrCreate "[1, 2]" Fixtures.emptyDB in
  err = None ->
  Format re = (if Inputs.valid "[1, 2]" then JSON else HTML) /\
  (Inputs.valid "[1, 2]" = true ->
   forall tracer event (db2 : MemDB),
     AddEvent Fixtures.plain Fixtures.parse Fixtures.marshal tracer
       (withRawEvent event re) db2
     = createAndPublish Fixtures.marshal tracer (withRawEvent event re) db2).
Proof.
  apply (AddEventData_tag_decides_classification MemDB MemStore
           Inputs.valid Inputs.indent Fixtures.plain Fixtures.parse
           Fixtures.marshal Inputs.firstOrCreate "[1, 2]" Fixtures.emptyDB).
  exact firstOrCreate_keeps_format.
Defined.

(** X22. [AddEventData] logs one warning when it returns an error and
    none otherwise. When [json.MarshalIndent] fails for a valid JSON text,
    the store is not called: the zero raw event and that error are
    returned and the store is as before. A text [json.Valid] accepts is
    never passed through [gohtml.Format], and one it rejects is never
    passed to [json.MarshalIndent]. *)
Theorem AddEventData_error_paths :
  forall (DB : Type) json_Valid json_MarshalIndent gohtml_Format
         (db_FirstOrCreate : RawEvent -> DB -> DB * RawEvent * option error)
         eventData (db : DB),
    let run indent format :=
      AddEventData json_Valid indent format db_FirstOrCreate eventData db in
    let '((re, err), db', trace) := run json_MarshalIndent gohtml_Format in
    (err = None <-> trace = []) /\
    (length trace <= 1)%nat /\
    (forall e, json_Valid eventData = true ->
               json_MarshalIndent eventData = Err e ->
               re = RawEvent_zero /\ err = Some e /\ db' = db /\
               trace = [LogWarning e]) /\
    (json_Valid eventData = true ->
     forall format', run json_MarshalIndent format'
                     = run json_MarshalIndent gohtml_Format) /\
    (json_Valid eventData = false ->
     forall indent', run indent' gohtml_Format
                     = run json_MarshalIndent gohtml_Format).
Proof.
  intros DB valid indent fmt foc eventData db run. subst run. cbv beta.
  unfold AddEventData.
  destruct (valid eventData); cbn [negb].
  - destruct (indent eventData) as [ind|err0].
    + destruct (foc {| RawID := 0; RawData := ind; Format := JSON |} db)
        as [[db' re] [err|]].
      * split; [split; discriminate|]. split; [cbn; lia|].
        split; [discriminate|]. split; [reflexivity|discriminate].
      * split; [split; reflexivity|]. split; [cbn; lia|].
        split; [discriminate|]. split; [reflexivity|discriminate].
    + split; [split; discriminate|]. split; [cbn; lia|].
      split; [intros e _ [= <-]; now repeat split|].
      split; [reflexivity|discriminate].
  - destruct (foc {| RawID := 0; RawData := fmt eventData; Format := HTML |} db)
      as [[db' re] [err|]].
    + split; [split; discriminate|]. split; [cbn; lia|].
      split; [discriminate|]. split; [discriminate|reflexivity].
    + split; [split; reflexivity|]. split; [cbn; lia|].
      split; [discriminate|]. split; [discriminate|reflexivity].
Qed.

(** ** From [AddEvent] to [GetEvents] *)

Section EndToEnd.

Context {DB : Type} `{Store DB}.
Variable gohtml_Format : string -> string.
Variable html_Parse : string -> result Node.
Variable json_Marshal : TracerEvent -> string * option error.

(** What [AddEvent] sends to the cache. *)
Lemma AddEvent_sends tracer event (db : DB) u :
  In (Send u)
    (snd (AddEvent gohtml_Format html_Parse json_Marshal tracer event db)) ->
  Update_ID u = int_of_uint (Tracer_ID tracer) /\
  RawEvent_ (Event u) = RawEvent_ event /\
  exists stored,
    In (Create stored (Ok (ID (Event u))))
      (snd (AddEvent gohtml_Format html_Parse json_Marshal tracer event db)) /\
    RawEvent_ stored = RawEvent_zero /\
    Event u = withRawEvent (withID stored (ID (Event u))) (RawEvent_ event).
Proof.
  intros Hin.
  destruct (AddEvent_trace gohtml_Format html_Parse json_Marshal tracer event db)
    as (t1 & event' & db1 & Hall & Hev & [(e0 & Hrun)|Hrun]);
    rewrite Hrun in Hin |- *; clear Hrun.
  - cbn [snd] in Hin. apply in_app_or in Hin as [Hin|[Hin|[]]];
      [|discriminate].
    apply (fromGetDOMContexts_In tracer t1 _ Hall) in Hin. now destruct Hin.
  - rewrite createAndPublish_shape in Hin |- *.
    destruct (db_Create (withRawEvent event' RawEvent_zero) db1)
      as [db2 [id'|e']]; cbv zeta in Hin |- *; cbn [snd] in Hin |- *.
    + apply in_app_or in Hin as [Hin|Hin].
      { apply (fromGetDOMContexts_In tracer t1 _ Hall) in Hin.
        now destruct Hin. }
      assert (Hu : u = {| Event := withID event' id';
                          Update_ID := int_of_uint (Tracer_ID tracer) |}).
      { destruct Hin as [Hin|[Hin|[Hin|Hin]]]; try discriminate;
          [now injection Hin|].
        apply in_app_or in Hin as [Hin|Hin].
        - destruct (snd (json_Marshal (withID event' id')));
            [destruct Hin as [Hin|[]]; discriminate|destruct Hin].
        - destruct (existsb isSevere (DOMContexts event'));
            [destruct Hin as [Hin|[]]; discriminate|destruct Hin]. }
      subst u. cbn [Event Update_ID]. split; [reflexivity|].
      assert (Hraw : RawEvent_ event' = RawEvent_ event).
      { rewrite Hev. destruct event; reflexivity. }
      split; [destruct event'; exact Hraw|].
      exists (withRawEvent event' RawEvent_zero).
      split; [|split].
      * apply in_or_app. right. left. destruct event'; reflexivity.
      * destruct event'; reflexivity.
      * rewrite <- Hraw. destruct event'; reflexivity.
    + apply in_app_or in Hin as [Hin|[Hin|[Hin|[]]]]; try discriminate.
      apply (fromGetDOMContexts_In tracer t1 _ Hall) in Hin. now destruct Hin.
Qed.

End EndToEnd.

(** ** The channels *)

Section ChannelFacts.

Context {DB : Type} `{Store DB}.

Lemma run_cons a sched s recv (db : DB) :
  run (a :: sched) s recv db
  = match act a s db with
    | (Done s' got, db1, t1) =>
        let '(r, db2, t2) := run sched s' (recv ++ option_list got) db1 in
        (r, db2, t1 ++ t2)
    | (Blocked, db1, t1) => (Blocked, db1, t1)
    | (Fatal err, db1, t1) => (Fatal err, db1, t1)
    end.
Proof.
  cbn [run]. unfold mbind, M_bind.
  destruct (act a s db) as [[[|err|s' got] db1] t1].
  - run_M. now rewrite app_nil_r.
  - run_M. now rewrite app_nil_r.
  - reflexivity.
Qed.

Lemma chan_send_Some {A} (ch : list A) x ch' :
  chan_send ch x = Some ch' -> ch' = ch ++ [x].
Proof.
  unfold chan_send. destruct (length ch <? capacity)%nat; congruence.
Qed.

Lemma act_SendUpdate u s (db : DB) :
  act (SendUpdate u) s db
  = (match chan_send (inUpdateChanEvent s) u with
     | Some ch =>
         Done {| inReadChanEvent := inReadChanEvent s;
                 inUpdateChanEvent := ch;
                 outChanEvent := outChanEvent s;
                 goroutine_events := goroutine_events s;
                 goroutine_sending := goroutine_sending s |} None
     | None => Blocked
     end, db, []).
Proof. cbn [act]. destruct (chan_send (inUpdateChanEvent s) u); reflexivity. Qed.

Lemma act_SelectUpdate s (db : DB) :
  act SelectUpdate s db
  = (match goroutine_sending s, inUpdateChanEvent s with
     | None, e :: rest =>
         Done {| inReadChanEvent := inReadChanEvent s;
                 inUpdateChanEvent := rest;
                 outChanEvent := outChanEvent s;
                 goroutine_events :=
                   <[Update_ID e := (goroutine_events s !!! Update_ID e)
                                    ++ [Event e]]> (goroutine_events s);
                 goroutine_sending := None |} None
     | _, _ => Blocked
     end, db, []).
Proof.
  cbn [act].
  destruct (goroutine_sending s), (inUpdateChanEvent s) as [|e rest];
    try reflexivity.
  unfold mbind, M_bind. rewrite step_update. reflexivity.
Qed.

Lemma act_SendOut s (db : DB) :
  act SendOut s db
  = (match goroutine_sending s with
     | Some l =>
         match chan_send (outChanEvent s) l with
         | Some ch =>
             Done {| inReadChanEvent := inReadChanEvent s;
                     inUpdateChanEvent := inUpdateChanEvent s;
                     outChanEvent := ch;
                     goroutine_events := goroutine_events s;
                     goroutine_sending := None |} None
         | None => Blocked
         end
     | None => Blocked
     end, db, []).
Proof.
  cbn [act]. destruct (goroutine_sending s) as [l|]; [|reflexivity].
  destruct (chan_send (outChanEvent s) l); reflexivity.
Qed.

Lemma sentUpdates_cons a sched :
  sentUpdates (a :: sched)
  = match a with SendUpdate u => [u] | _ => [] end ++ sentUpdates sched.
Proof. destruct a; reflexivity. Qed.

(** With no read in [inReadChanEvent] and no caller acting, the store is
    not touched, and [outChanEvent] changes at most by the one list the
    goroutine stood ready to send. *)
Lemma run_no_read sched : forall s recv (db : DB),
  quiet sched = true ->
  inReadChanEvent s = [] ->
  exists o,
    run sched s recv db = (o, db, []) /\
    match o with
    | Blocked => True
    | Fatal _ => False
    | Done s' recv' =>
        recv' = recv /\ inReadChanEvent s' = [] /\
        ((outChanEvent s' = outChanEvent s /\
          goroutine_sending s' = goroutine_sending s) \/
         (exists l, goroutine_sending s = Some l /\
                    outChanEvent s' = outChanEvent s ++ [l] /\
                    goroutine_sending s' = None))
    end.
Proof.
  induction sched as [|a sched IH]; intros s recv db Hquiet HinR.
  - exists (Done s recv). split; [reflexivity|]. now repeat split; try left.
  - unfold quiet in Hquiet. cbn [forallb] in Hquiet.
    apply andb_prop in Hquiet as [Ha Hquiet]. apply negb_true_iff in Ha.
    rewrite run_cons.
    destruct a as [i| |u| | |]; try discriminate Ha.
    + rewrite act_SendUpdate.
      destruct (chan_send (inUpdateChanEvent s) u) as [ch|];
        [|exists Blocked; now split].
      match goal with |- context [run sched ?s1 ?r1 db] =>
        destruct (IH s1 r1 db Hquiet HinR) as (o & Hrun & Ho) end.
      rewrite Hrun. exists o. split; [reflexivity|].
      destruct o as [|err|s' recv']; try exact Ho.
      destruct Ho as (-> & HinR' & Hout). cbn [option_list].
      split; [apply app_nil_r|]. split; [exact HinR'|exact Hout].
    + cbn [act]. rewrite HinR.
      exists Blocked. destruct (goroutine_sending s); now split.
    + rewrite act_SelectUpdate.
      destruct (goroutine_sending s) as [l|] eqn:Hsend;
        [exists Blocked; now split|].
      destruct (inUpdateChanEvent s) as [|e rest];
        [exists Blocked; now split|].
      match goal with |- context [run sched ?s1 ?r1 db] =>
        destruct (IH s1 r1 db Hquiet HinR) as (o & Hrun & Ho) end.
      rewrite Hrun. exists o. split; [reflexivity|].
      destruct o as [|err|s' recv']; try exact Ho.
      destruct Ho as (-> & HinR' & Hout). cbn [option_list].
      split; [apply app_nil_r|]. split; [exact HinR'|].
      cbn [outChanEvent goroutine_sending] in Hout.
      destruct Hout as [Hsame|(l & Hl & _)]; [now left|discriminate Hl].
    + rewrite act_SendOut.
      destruct (goroutine_sending s) as [l|] eqn:Hsend;
        [|exists Blocked; now split].
      destruct (chan_send (outChanEvent s) l) as [ch|] eqn:Hch;
        [|exists Blocked; now split].
      apply chan_send_Some in Hch. subst ch.
      match goal with |- context [run sched ?s1 ?r1 db] =>
        destruct (IH s1 r1 db Hquiet HinR) as (o & Hrun & Ho) end.
      rewrite Hrun. exists o. split; [reflexivity|].
      destruct o as [|err|s' recv']; try exact Ho.
      destruct Ho as (-> & HinR' & Hout). cbn [option_list].
      split; [apply app_nil_r|]. split; [exact HinR'|].
      cbn [outChanEvent goroutine_sending] in Hout. right. exists l.
      destruct Hout as [[Hout Hs]|(l' & Hl & _)]; [|discriminate Hl].
      now repeat split.
Qed.

Lemma step_flush (events : gmap Z (list TracerEvent)) (db : DB) :
  tracerEventCache_step events (inR (-1)) db = (Ok (∅, None), db, []).
Proof. reflexivity. Qed.

Lemma step_read_cached (events : gmap Z (list TracerEvent)) i (db : DB) :
  i <> (-1)%Z -> events !!! i <> [] ->
  tracerEventCache_step events (inR i) db
  = (Ok (events, Some (events !!! i)), db, []).
Proof.
  intros Hi Hfull. cbn [tracerEventCache_step].
  apply Z.eqb_neq in Hi. rewrite Hi.
  destruct (length (events !!! i) =? 0)%nat eqn:Hlen;
    [now apply length_zero_nil in Hlen|reflexivity].
Qed.

End ChannelFacts.

Section CallFacts.

Context {DB : Type} `{Store DB}.

Lemma updates_none (events : gmap Z (list TracerEvent)) (db : DB) :
  tracerEventCache events [] (map inU []) db = (Ok (events, []), db, []).
Proof. reflexivity. Qed.

Lemma updates_cons (events : gmap Z (list TracerEvent)) e us E1 (db : DB) :
  tracerEventCache
    (<[Update_ID e := (events !!! Update_ID e) ++ [Event e]]> events) []
    (map inU us) db = (Ok (E1, []), db, []) ->
  tracerEventCache events [] (map inU (e :: us)) db = (Ok (E1, []), db, []).
Proof.
  intros Hrun. cbn [map]. rewrite tracerEventCache_cons, step_update.
  cbn [option_list option_rect app]. now rewrite Hrun.
Qed.

(** One read waits in [inReadChanEvent], nothing is on [outChanEvent],
    the goroutine stands at its [select], and no caller acts. A list is
    on [outChanEvent] at the end only as the answer to that read, made by
    the turn of the goroutine on the map the updates it took before had
    left. *)
Lemma run_one_read sched : forall s recv i (db : DB),
  quiet sched = true ->
  inReadChanEvent s = [i] ->
  outChanEvent s = [] ->
  goroutine_sending s = None ->
  exists o trace,
    run sched s recv db = (o, db, trace) /\
    (i = (-1)%Z -> trace = []) /\
    match o with
    | Blocked => True
    | Fatal err =>
        exists us E1,
          tookUpdates s sched db us E1 /\
          tracerEventCache_step E1 (inR i) db = (Err err, db, trace)
    | Done s' recv' =>
        recv' = recv /\
        (outChanEvent s' = [] \/
         exists us E1 E2 l,
           tookUpdates s sched db us E1 /\
           tracerEventCache_step E1 (inR i) db
           = (Ok (E2, Some l), db, trace) /\
           inReadChanEvent s' = [] /\ outChanEvent s' = [l] /\
           goroutine_sending s' = None)
    end.
Proof.
  induction sched as [|a sched IH]; intros s recv i db Hquiet HinR Hout Hsend.
  - exists (Done s recv), []. split; [reflexivity|]. split; [reflexivity|].
    split; [reflexivity|now left].
  - pose proof Hquiet as Hall. unfold quiet in Hall. cbn [forallb] in Hall.
    apply andb_prop in Hall as [Ha Hrest]. apply negb_true_iff in Ha.
    rewrite run_cons.
    destruct a as [i0| |u| | |]; try discriminate Ha.
    + (* an update is sent *)
      rewrite act_SendUpdate.
      destruct (chan_send (inUpdateChanEvent s) u) as [ch|] eqn:Hch;
        [|exists Blocked, []; now repeat split].
      apply chan_send_Some in Hch. subst ch.
      match goal with |- context [run sched ?s1 ?r1 db] =>
        destruct (IH s1 r1 i db Hrest HinR Hout Hsend)
          as (o & trace & Hrun & Hflush & Ho) end.
      rewrite Hrun. exists o, trace. split; [reflexivity|].
      split; [exact Hflush|].
      assert (Htook : forall us E1,
        tookUpdates
          {| inReadChanEvent := inReadChanEvent s;
             inUpdateChanEvent := inUpdateChanEvent s ++ [u];
             outChanEvent := outChanEvent s;
             goroutine_events := goroutine_events s;
             goroutine_sending := goroutine_sending s |} sched db us E1 ->
        tookUpdates s (SendUpdate u :: sched) db us E1).
      { intros us E1 [Hpre Hupd]. split; [|exact Hupd].
        cbn [inUpdateChanEvent] in Hpre. rewrite sentUpdates_cons.
        now rewrite <- app_assoc in Hpre. }
      destruct o as [|err|s' recv'].
      * exact I.
      * destruct Ho as (us & E1 & Hus & Hstep). exists us, E1.
        split; [now apply Htook|exact Hstep].
      * destruct Ho as (-> & Hcases). cbn [option_list].
        split; [apply app_nil_r|].
        destruct Hcases as [Hempty|(us & E1 & E2 & l & Hus & Hrestc)];
          [now left|right].
        exists us, E1, E2, l. split; [now apply Htook|exact Hrestc].
    + (* the goroutine takes the read *)
      cbn [act]. rewrite Hsend, HinR. unfold mbind at 1, M_bind at 1.
      destruct (step_reads (inR i) (goroutine_events s) db)
        as (r & t & Hstep & _ & _ & Hr).
      assert (Hnone : tookUpdates s (SelectRead :: sched) db []
                        (goroutine_events s)).
      { split; [apply prefix_nil|apply updates_none]. }
      assert (Ht : i = (-1)%Z -> t = [] /\ r = Ok (∅, None)).
      { intros ->. rewrite step_flush in Hstep. now injection Hstep as <- <-. }
      rewrite Hstep. destruct r as [[E2 reply]|err]; run_M.
      * match goal with |- context [run sched ?s1 ?r1 db] =>
          destruct (run_no_read sched s1 r1 db Hrest eq_refl)
            as (o & Hrun & Ho) end.
        rewrite Hrun. rewrite !app_nil_r. exists o, t.
        split; [reflexivity|]. split; [intros Hi; now apply Ht|].
        destruct o as [|err|s' recv']; [exact I|destruct Ho|].
        destruct Ho as (-> & HinR' & Hcases). split; [apply app_nil_r|].
        cbn [outChanEvent goroutine_sending] in Hcases. rewrite Hout in Hcases.
        destruct Hcases as [[Hempty _]|(l & -> & Hl & Hs')]; [now left|right].
        exists [], (goroutine_events s), E2, l.
        split; [exact Hnone|]. split; [exact Hstep|]. now repeat split.
      * exists (Fatal err), t. rewrite app_nil_r. split; [reflexivity|].
        split; [intros Hi; now destruct (Ht Hi)|].
        exists [], (goroutine_events s). split; [exact Hnone|exact Hstep].
    + (* the goroutine takes an update *)
      rewrite act_SelectUpdate, Hsend.
      destruct (inUpdateChanEvent s) as [|e rest] eqn:HinU;
        [exists Blocked, []; now repeat split|].
      match goal with |- context [run sched ?s1 ?r1 db] =>
        destruct (IH s1 r1 i db Hrest HinR Hout eq_refl)
          as (o & trace & Hrun & Hflush & Ho) end.
      rewrite Hrun. exists o, trace. split; [reflexivity|].
      split; [exact Hflush|].
      assert (Htook : forall us E1,
        tookUpdates
          {| inReadChanEvent := inReadChanEvent s;
             inUpdateChanEvent := rest;
             outChanEvent := outChanEvent s;
             goroutine_events :=
               <[Update_ID e := (goroutine_events s !!! Update_ID e)
                                ++ [Event e]]> (goroutine_events s);
             goroutine_sending := None |} sched db us E1 ->
        tookUpdates s (SelectUpdate :: sched) db (e :: us) E1).
      { intros us E1 [Hpre Hupd]. split.
        - rewrite HinU, sentUpdates_cons. cbn [app inUpdateChanEvent] in *.
          now apply prefix_cons.
        - cbn [goroutine_events] in Hupd. now apply updates_cons. }
      destruct o as [|err|s' recv'].
      * exact I.
      * destruct Ho as (us & E1 & Hus & Hstep). exists (e :: us), E1.
        split; [now apply Htook|exact Hstep].
      * destruct Ho as (-> & Hcases). cbn [option_list].
        split; [apply app_nil_r|].
        destruct Hcases as [Hempty|(us & E1 & E2 & l & Hus & Hrestc)];
          [now left|right].
        exists (e :: us), E1, E2, l. split; [now apply Htook|exact Hrestc].
    + (* nothing to send *)
      rewrite act_SendOut, Hsend. exists Blocked, []. now repeat split.
Qed.

(** A call of [getTracerEventsCache] that no other caller overlaps: it
    starts in an idle state and only the goroutine and [AddEvent] act
    until it has its list. *)
Lemma getTracerEventsCache_alone tracerID between s (db : DB) :
  idle s = true ->
  quiet between = true ->
  exists o trace,
    getTracerEventsCache tracerID between s db = (o, db, trace) /\
    (int_of_uint tracerID = (-1)%Z -> o = Blocked /\ trace = []) /\
    match o with
    | Blocked => True
    | Fatal err =>
        exists us E1,
          tookUpdates s between db us E1 /\
          tracerEventCache_step E1 (inR (int_of_uint tracerID)) db
          = (Err err, db, trace)
    | Done s' l =>
        exists us E1 E2,
          tookUpdates s between db us E1 /\
          tracerEventCache_step E1 (inR (int_of_uint tracerID)) db
          = (Ok (E2, Some l), db, trace) /\
          idle s' = true
    end.
Proof.
  intros Hidle Hquiet. unfold idle in Hidle.
  destruct (inReadChanEvent s) as [|i0 r0] eqn:HinR; [|discriminate].
  destruct (outChanEvent s) as [|l0 o0] eqn:Hout; [|discriminate].
  destruct (goroutine_sending s) as [l0|] eqn:Hsend; [discriminate|].
  unfold getTracerEventsCache. unfold mbind at 1, M_bind at 1.
  cbn [act]. rewrite HinR. cbn [chan_send length Nat.ltb Nat.leb capacity app].
  unfold mret at 1, M_ret at 1. unfold mbind at 1, M_bind at 1.
  match goal with |- context [run between ?s1 [] db] =>
    destruct (run_one_read between s1 [] (int_of_uint tracerID) db Hquiet
                eq_refl Hout Hsend)
      as (o & trace & Hrun & Hflush & Ho);
    assert (Htook : forall us E1,
              tookUpdates s1 between db us E1 -> tookUpdates s between db us E1)
      by (intros us E1 Hus; exact Hus) end.
  rewrite Hrun. destruct o as [|err|s2 recv2]; run_M.
  - exists Blocked, (trace ++ []). rewrite app_nil_r.
    split; [reflexivity|]. split; [|exact I].
    intros Hi. split; [reflexivity|now apply Hflush].
  - exists (Fatal err), (trace ++ []). rewrite app_nil_r.
    split; [reflexivity|].
    destruct Ho as (us & E1 & Hus & Hstep).
    split; [|exists us, E1; split; [now apply Htook|exact Hstep]].
    intros Hi. rewrite Hi, step_flush in Hstep. discriminate Hstep.
  - destruct Ho as (_ & [Hempty|(us & E1 & E2 & l & Hus & Hstep & HinR2 &
                                  Hout2 & Hsend2)]).
    + cbn [act]. rewrite Hempty. exists Blocked, (trace ++ [] ++ []).
      rewrite !app_nil_r. split; [reflexivity|]. split; [|exact I].
      intros Hi. split; [reflexivity|now apply Hflush].
    + cbn [act]. rewrite Hout2. exists (Done
        {| inReadChanEvent := inReadChanEvent s2;
           inUpdateChanEvent := inUpdateChanEvent s2;
           outChanEvent := [];
           goroutine_events := goroutine_events s2;
           goroutine_sending := goroutine_sending s2 |} l), (trace ++ [] ++ []).
      rewrite !app_nil_r. split; [reflexivity|]. split.
      * intros Hi. rewrite Hi, step_flush in Hstep. discriminate Hstep.
      * exists us, E1, E2. split; [now apply Htook|]. split; [exact Hstep|].
        unfold idle. cbn [inReadChanEvent outChanEvent goroutine_sending].
        now rewrite HinR2, Hsend2.
Qed.

End CallFacts.

Lemma step_read_loads {DB : Type} `{Store DB}
    (events : gmap Z (list TracerEvent)) i (db : DB) E2 l t :
  i <> (-1)%Z -> events !!! i = [] ->
  tracerEventCache_step events (inR i) db = (Ok (E2, Some l), db, t) ->
  getTracerEventsDB (uint_of_int i) db = (Ok l, db, t) /\
  E2 = <[i := l]> events.
Proof.
  intros Hi Hnil Hstep. cbn [tracerEventCache_step] in Hstep.
  apply Z.eqb_neq in Hi. rewrite Hi, Hnil in Hstep.
  cbn [length Nat.eqb] in Hstep.
  destruct (getTracerEventsDB_reads (uint_of_int i) db)
    as (r & trace & Hrun & _).
  unfold mbind, M_bind in Hstep. rewrite Hrun in Hstep.
  destruct r as [loaded|err]; run_M; [|discriminate Hstep].
  rewrite app_nil_r in Hstep. injection Hstep as <- <- <-.
  rewrite Hrun. now split.
Qed.

Lemma isFlush_updates (us : list tracerUpdate) :
  forallb (fun m => negb (isFlush m)) (map inU us) = true.
Proof. induction us as [|u us IH]; [reflexivity|exact IH]. Qed.

(** X19. A call of [GetEvents] for a tracer identifier below the largest
    [uint] that no other call overlaps: it starts with no read waiting,
    no answer on [outChanEvent] and the goroutine at its [select], and
    until it has its list only the goroutine and [AddEvent] act. The
    conversions to [int] and back give the identifier again and never the
    flush value. If the call returns, it marshals the answer of the
    goroutine to this very read: the turn for [int(tracerID)] on the map
    as the updates taken before it, the oldest waiting ones, had left it,
    which is the list that map holds if it is not empty, without a call on
    the store, and the list loaded from the store otherwise. A marshalling
    error is logged and returned with the text; the store is left as it
    is, and the process exits only when the store refuses the load. *)
Theorem GetEvents_alone_reads_the_tracer_asked_for :
  forall (DB : Type) (S : Store DB)
         (json_MarshalEvents : list TracerEvent -> string * option error)
         (tracerID : N) between s (db : DB),
    (tracerID < 2 ^ 64 - 1)%N ->
    idle s = true ->
    quiet between = true ->
    let i := int_of_uint tracerID in
    i <> (-1)%Z /\
    uint_of_int i = tracerID /\
    exists o trace,
      GetEvents json_MarshalEvents tracerID between s db = (o, db, trace) /\
      match o with
      | Blocked => True
      | Fatal err => loadFails i db
      | Done s' (ret, err) =>
          exists us E1 E2 l t,
            tookUpdates s between db us E1 /\
            tracerEventCache_step E1 (inR i) db = (Ok (E2, Some l), db, t) /\
            l = E2 !!! i /\
            (E1 !!! i <> [] -> l = E1 !!! i /\ t = []) /\
            (E1 !!! i = [] -> getTracerEventsDB tracerID db = (Ok l, db, t)) /\
            (ret, err) = json_MarshalEvents l /\
            trace = t ++ match err with
                         | Some e => [LogWarning e]
                         | None => []
                         end /\
            idle s' = true
      end.
Proof.
  intros DB S marshal tracerID between s db Hid Hidle Hquiet i.
  assert (Hu : (tracerID < 2 ^ 64)%N) by lia.
  assert (Hi : i <> (-1)%Z).
  { intros Heq. apply (int_of_uint_flush tracerID Hu) in Heq. lia. }
  assert (Hback : uint_of_int i = tracerID) by now apply uint_of_int_of_uint.
  split; [exact Hi|]. split; [exact Hback|].
  destruct (getTracerEventsCache_alone tracerID between s db Hidle Hquiet)
    as (o & trace & Hrun & _ & Ho).
  unfold GetEvents. unfold mbind at 1, M_bind at 1. rewrite Hrun.
  fold i in Ho. destruct o as [|err|s' l].
  - exists Blocked, (trace ++ []). split; [reflexivity|exact I].
  - exists (Fatal err), (trace ++ []). split; [reflexivity|].
    destruct Ho as (us & E1 & _ & Hstep).
    destruct (step_reads (inR i) E1 db) as (r & t & Hstep' & _ & _ & Hr).
    rewrite Hstep in Hstep'. injection Hstep' as <- <-.
    destruct Hr as (i0 & [= <-] & _ & Hfail). exact Hfail.
  - destruct Ho as (us & E1 & E2 & Hus & Hstep & Hidle').
    destruct (marshal l) as [ret err] eqn:Hm.
    exists (Done s' (ret, err)),
      (trace ++ match err with Some e => [LogWarning e] | None => [] end).
    split; [destruct err as [e|]; run_M; now rewrite ?app_nil_r|].
    exists us, E1, E2, l, trace. split; [exact Hus|]. split; [exact Hstep|].
    split; [|split; [|split; [|now repeat split]]].
    + destruct (step_reads (inR i) E1 db) as (r & t & Hstep' & _ & _ & Hr).
      rewrite Hstep in Hstep'. injection Hstep' as <- <-.
      destruct Hr as [_ Hreply].
      destruct (Hreply l eq_refl) as (i0 & [= <-] & Hl). now symmetry.
    + intros Hfull. rewrite (step_read_cached E1 i db Hi Hfull) in Hstep.
      injection Hstep as _ <- <-. now split.
    + intros Hnil. rewrite <- Hback.
      exact (proj1 (step_read_loads E1 i db E2 l trace Hi Hnil Hstep)).
Qed.

Lemma GetEvents_alone_reads_the_tracer_asked_for_witness :
  let i := int_of_uint 1 in
  i <> (-1)%Z /\
  uint_of_int i = 1 /\
  exists o trace,
    GetEvents Inputs.marshalEvents 1 [SelectRead; SendOut] init
      Fixtures.sharedDB = (o, Fixtures.sharedDB, trace) /\
    match o with
    | Blocked => True
    | Fatal err => loadFails i Fixtures.sharedDB
    | Done s' (ret, err) =>
        exists us E1 E2 l t,
          tookUpdates init [SelectRead; SendOut] Fixtures.sharedDB us E1 /\
          tracerEventCache_step E1 (inR i) Fixtures.sharedDB
          = (Ok (E2, Some l), Fixtures.sharedDB, t) /\
          l = E2 !!! i /\
          (E1 !!! i <> [] -> l = E1 !!! i /\ t = []) /\
          (E1 !!! i = [] ->
           getTracerEventsDB 1 Fixtures.sharedDB
           = (Ok l, Fixtures.sharedDB, t)) /\
          (ret, err) = Inputs.marshalEvents l /\
          trace = t ++ match err with
                       | Some e => [LogWarning e]
                       | None => []
                       end /\
          idle s' = true
    end.
Proof.
  apply (GetEvents_alone_reads_the_tracer_asked_for MemDB MemStore
           Inputs.marshalEvents 1 [SelectRead; SendOut] init
           Fixtures.sharedDB); reflexivity.
Defined.

(** The call of the witness runs to its end: the two events of tracer 1
    are loaded and marshalled. *)
Example GetEvents_alone_run :
  GetEvents Inputs.marshalEvents 1 [SelectRead; SendOut] init
    Fixtures.sharedDB
  = (Done {| inReadChanEvent := []; inUpdateChanEvent := [];
             outChanEvent := [];
             goroutine_events :=
               {[ 1%Z := [withRawEvent (Fixtures.row 1 5) Fixtures.rawParagraph;
                          withRawEvent (Fixtures.row 2 5) Fixtures.rawParagraph] ]};
             goroutine_sending := None |} ("[]", None),
     Fixtures.sharedDB,
     [Find 1; Related (Fixtures.row 1 5); Related (Fixtures.row 2 5)]).
Proof. vm_compute. reflexivity. Qed.

(** Two calls that overlap: a read of tracer 1 waits in
    [inReadChanEvent] when the call for tracer 2 starts. The goroutine
    answers the older read first, and the call for tracer 2 receives the
    list of tracer 1. *)
Example getTracerEventsCache_overlapped :
  fst (fst (getTracerEventsCache 2 [SelectRead; SendOut]
              {| inReadChanEvent := [1%Z]; inUpdateChanEvent := [];
                 outChanEvent := []; goroutine_events := ∅;
                 goroutine_sending := None |} Fixtures.sharedDB))
  = Done {| inReadChanEvent := [2%Z]; inUpdateChanEvent := [];
            outChanEvent := [];
            goroutine_events :=
              {[ 1%Z := [withRawEvent (Fixtures.row 1 5) Fixtures.rawParagraph;
                         withRawEvent (Fixtures.row 2 5) Fixtures.rawParagraph] ]};
            goroutine_sending := None |}
      [withRawEvent (Fixtures.row 1 5) Fixtures.rawParagraph;
       withRawEvent (Fixtures.row 2 5) Fixtures.rawParagraph].
Proof. vm_compute. reflexivity. Qed.

(** The caller that sent the largest [uint] is let go by the answer to
    another caller's read. *)
Example getTracerEventsCache_flush_overlapped :
  match fst (fst (getTracerEventsCache (2 ^ 64 - 1)
                    [SendRead 1; SelectRead; SelectRead; SendOut] init
                    Fixtures.sharedDB)) with
  | Done _ l =>
      l = [withRawEvent (Fixtures.row 1 5) Fixtures.rawParagraph;
           withRawEvent (Fixtures.row 2 5) Fixtures.rawParagraph]
  | _ => False
  end.
Proof. vm_compute. reflexivity. Qed.

Section Progress.

Context {DB : Type} `{Store DB}.
Variable json_MarshalEvents : list TracerEvent -> string * option error.

(** A call that starts with no read waiting: its send goes through, and
    it has the oldest list on [outChanEvent] after the steps between. *)
Lemma getTracerEventsCache_run tracerID between s (db : DB) :
  inReadChanEvent s = [] ->
  getTracerEventsCache tracerID between s db
  = match
      run between
        {| inReadChanEvent := [int_of_uint tracerID];
           inUpdateChanEvent := inUpdateChanEvent s;
           outChanEvent := outChanEvent s;
           goroutine_events := goroutine_events s;
           goroutine_sending := goroutine_sending s |} [] db
    with
    | (Done s2 _, db', t) =>
        match outChanEvent s2 with
        | l :: rest =>
            (Done {| inReadChanEvent := inReadChanEvent s2;
                     inUpdateChanEvent := inUpdateChanEvent s2;
                     outChanEvent := rest;
                     goroutine_events := goroutine_events s2;
                     goroutine_sending := goroutine_sending s2 |} l, db', t)
        | [] => (Blocked, db', t)
        end
    | (Blocked, db', t) => (Blocked, db', t)
    | (Fatal err, db', t) => (Fatal err, db', t)
    end.
Proof.
  intros HinR. unfold getTracerEventsCache. cbn [act]. rewrite HinR.
  cbn [chan_send length Nat.ltb Nat.leb capacity app]. run_M.
  match goal with |- context [run between ?s1 [] db] =>
    destruct (run between s1 [] db) as [[[|err|s2 r2] db'] t] end;
    cbn [app]; rewrite ?app_nil_r; try reflexivity.
  destruct (outChanEvent s2); now rewrite ?app_nil_r.
Qed.

Lemma GetEvents_answered tracerID s (db : DB) :
  idle s = true ->
  int_of_uint tracerID <> (-1)%Z ->
  fst (fst (GetEvents json_MarshalEvents tracerID [SelectRead; SendOut] s db))
  <> Blocked.
Proof.
  intros Hidle Hi. unfold idle in Hidle.
  destruct (inReadChanEvent s) as [|i0 r0] eqn:HinR; [|discriminate].
  destruct (outChanEvent s) as [|l0 o0] eqn:Hout; [|discriminate].
  destruct (goroutine_sending s) as [l0|] eqn:Hsend; [discriminate|].
  unfold GetEvents. unfold mbind at 1, M_bind at 1.
  rewrite (getTracerEventsCache_run tracerID _ s db HinR).
  rewrite run_cons. cbn [act goroutine_sending inReadChanEvent goroutine_events].
  rewrite Hsend. unfold mbind at 1, M_bind at 1.
  destruct (step_reads (inR (int_of_uint tracerID)) (goroutine_events s) db)
    as (r & t & Hstep & _ & _ & Hr).
  rewrite Hstep. destruct r as [[E2 reply]|err]; run_M; [|cbn; discriminate].
  destruct Hr as [Hlen _].
  assert (Hread : isRead (inR (int_of_uint tracerID)) = true).
  { cbn [isRead]. apply negb_true_iff. now apply Z.eqb_neq. }
  rewrite Hread in Hlen. destruct reply as [l|]; [|discriminate Hlen].
  rewrite run_cons, act_SendOut.
  cbn [goroutine_sending outChanEvent]. rewrite Hout.
  cbn [chan_send length Nat.ltb Nat.leb capacity app run]. run_M.
  cbn [outChanEvent].
  destruct (json_MarshalEvents l) as [ret [e|]]; cbn; discriminate.
Qed.

End Progress.

(** X20. A call of [GetEvents] with the largest [uint] that no other
    call overlaps never gets a list: as an [int] the identifier is -1,
    the value [ClearTracerEventCache] sends, so the goroutine empties its
    map and sends nothing, the store is not touched, and the receive of
    the caller cannot be taken whatever the goroutine and [AddEvent] do.
    With every other identifier the caller has its list once the
    goroutine has taken the read and sent its answer, unless the process
    exited. *)
Theorem GetEvents_alone_of_largest_uint_blocks :
  forall (DB : Type) (S : Store DB)
         (json_MarshalEvents : list TracerEvent -> string * option error)
         (tracerID : N) s (db : DB),
    (tracerID < 2 ^ 64)%N ->
    idle s = true ->
    (int_of_uint tracerID = (-1)%Z <-> tracerID = (2 ^ 64 - 1)%N) /\
    (tracerID = (2 ^ 64 - 1)%N ->
     (forall between,
        quiet between = true ->
        GetEvents json_MarshalEvents tracerID between s db
        = (Blocked, db, [])) /\
     act (SendRead (int_of_uint tracerID)) s db
     = act ClearTracerEventCache s db /\
     run [ClearTracerEventCache; SelectRead] s [] db
     = (Done {| inReadChanEvent := [];
                inUpdateChanEvent := inUpdateChanEvent s;
                outChanEvent := [];
                goroutine_events := ∅;
                goroutine_sending := None |} [], db, [])) /\
    (tracerID <> (2 ^ 64 - 1)%N ->
     fst (fst (GetEvents json_MarshalEvents tracerID [SelectRead; SendOut]
                 s db)) <> Blocked).
Proof.
  intros DB S marshal tracerID s db Hu Hidle.
  pose proof (int_of_uint_flush tracerID Hu) as Hflush.
  split; [exact Hflush|]. split.
  - intros Hmax. apply Hflush in Hmax. split; [|split].
    + intros between Hquiet.
      destruct (getTracerEventsCache_alone tracerID between s db Hidle Hquiet)
        as (o & trace & Hrun & Hblocked & _).
      destruct (Hblocked Hmax) as [-> ->].
      unfold GetEvents. unfold mbind at 1, M_bind at 1. rewrite Hrun.
      reflexivity.
    + now rewrite Hmax.
    + unfold idle in Hidle.
      destruct (inReadChanEvent s) as [|i0 r0] eqn:HinR; [|discriminate].
      destruct (outChanEvent s) as [|l0 o0] eqn:Hout; [|discriminate].
      destruct (goroutine_sending s) as [l0|] eqn:Hsend; [discriminate|].
      rewrite run_cons. unfold ClearTracerEventCache. cbn [act].
      rewrite HinR.
      cbn [chan_send length Nat.ltb Nat.leb capacity app].
      unfold mret at 1, M_ret at 1.
      rewrite run_cons. cbn [act goroutine_sending inReadChanEvent].
      rewrite Hsend. unfold mbind at 1, M_bind at 1.
      rewrite step_flush. run_M.
      cbn [run outChanEvent inUpdateChanEvent]. run_M. now rewrite Hout.
  - intros Hother. apply GetEvents_answered; [exact Hidle|].
    intros Hi. now apply Hother, Hflush.
Qed.

Lemma GetEvents_alone_of_largest_uint_blocks_witness :
  (int_of_uint (2 ^ 64 - 1) = (-1)%Z <-> (2 ^ 64 - 1)%N = (2 ^ 64 - 1)%N) /\
  ((2 ^ 64 - 1)%N = (2 ^ 64 - 1)%N ->
   (forall between,
      quiet between = true ->
      GetEvents Inputs.marshalEvents (2 ^ 64 - 1) between init
        Fixtures.sharedDB
      = (Blocked, Fixtures.sharedDB, [])) /\
   act (SendRead (int_of_uint (2 ^ 64 - 1))) init Fixtures.sharedDB
   = act ClearTracerEventCache init Fixtures.sharedDB /\
   run [ClearTracerEventCache; SelectRead] init [] Fixtures.sharedDB
   = (Done {| inReadChanEvent := [];
              inUpdateChanEvent := inUpdateChanEvent init;
              outChanEvent := [];
              goroutine_events := ∅;
              goroutine_sending := None |} [], Fixtures.sharedDB, [])) /\
  ((2 ^ 64 - 1)%N <> (2 ^ 64 - 1)%N ->
   fst (fst (GetEvents Inputs.marshalEvents (2 ^ 64 - 1)
               [SelectRead; SendOut] init Fixtures.sharedDB)) <> Blocked).
Proof.
  apply (GetEvents_alone_of_largest_uint_blocks MemDB MemStore
           Inputs.marshalEvents (2 ^ 64 - 1) init Fixtures.sharedDB);
    reflexivity.
Defined.

(** X23. From [AddEvent] to [GetEvents], for a tracer identifier below
    the largest [uint]. What [AddEvent] puts on [inUpdateChanEvent] is
    filed under the identifier of the tracer; it is the event the store
    created, under the identifier the store gave, with the raw event of
    the incoming event put back. From an idle state with no other update
    waiting, once the update is sent and the goroutine has taken it, the
    state is idle again and the list of the tracer is the one the map
    held followed by this event. A call of [GetEvents] for the tracer
    that starts there and that no other call overlaps never loads from
    the store and does not end the process; if it returns, it marshals
    that list followed by the events of the updates for the tracer that
    the goroutine took before the read, also when the map held no list
    for the tracer before. *)
Theorem AddEvent_then_GetEvents_alone :
  forall (DB : Type) (S : Store DB) gohtml_Format html_Parse json_Marshal
         (json_MarshalEvents : list TracerEvent -> string * option error)
         tracer event (db : DB) u s between (db2 : DB),
    (Tracer_ID tracer < 2 ^ 64 - 1)%N ->
    In (Send u)
      (snd (AddEvent gohtml_Format html_Parse json_Marshal tracer event db)) ->
    idle s = true ->
    inUpdateChanEvent s = [] ->
    quiet between = true ->
    let t := int_of_uint (Tracer_ID tracer) in
    let now_ := goroutine_events s !!! t ++ [Event u] in
    Update_ID u = t /\
    RawEvent_ (Event u) = RawEvent_ event /\
    (exists stored,
       In (Create stored (Ok (ID (Event u))))
         (snd (AddEvent gohtml_Format html_Parse json_Marshal tracer event db)) /\
       RawEvent_ stored = RawEvent_zero /\
       Event u = withRawEvent (withID stored (ID (Event u))) (RawEvent_ event)) /\
    exists s1,
      run [SendUpdate u; SelectUpdate] s [] db2 = (Done s1 [], db2, []) /\
      idle s1 = true /\
      inUpdateChanEvent s1 = [] /\
      goroutine_events s1 !!! t = now_ /\
      exists o trace,
        GetEvents json_MarshalEvents (Tracer_ID tracer) between s1 db2
        = (o, db2, trace) /\
        match o with
        | Blocked => True
        | Fatal _ => False
        | Done s2 (ret, err) =>
            exists us,
              us `prefix_of` sentUpdates between /\
              (ret, err)
              = json_MarshalEvents (now_ ++ updatesFor t (map inU us)) /\
              trace = match err with
                      | Some e => [LogWarning e]
                      | None => []
                      end
        end.
Proof.
  intros DB S fmt parse marshal marshalEvents tracer event db u s between db2
    Hid Hin Hidle HinU Hquiet t now_.
  destruct (AddEvent_sends fmt parse marshal tracer event db u Hin)
    as (Hkey & Hraw & Hstored).
  split; [exact Hkey|]. split; [exact Hraw|]. split; [exact Hstored|].
  assert (Hu : (Tracer_ID tracer < 2 ^ 64)%N) by lia.
  assert (Ht : t <> (-1)%Z).
  { intros Heq. apply (int_of_uint_flush (Tracer_ID tracer) Hu) in Heq. lia. }
  pose proof Hidle as Hfields. unfold idle in Hfields.
  destruct (inReadChanEvent s) as [|i0 r0] eqn:HinR; [|discriminate].
  destruct (outChanEvent s) as [|l0 o0] eqn:Hout; [|discriminate].
  destruct (goroutine_sending s) as [l0|] eqn:Hsend; [discriminate|].
  set (s1 := {| inReadChanEvent := [];
                inUpdateChanEvent := [];
                outChanEvent := [];
                goroutine_events := <[t := now_]> (goroutine_events s);
                goroutine_sending := None |}).
  assert (Hrun : run [SendUpdate u; SelectUpdate] s [] db2
                 = (Done s1 [], db2, [])).
  { rewrite run_cons, act_SendUpdate, HinU.
    cbn [chan_send length Nat.ltb Nat.leb capacity app].
    rewrite run_cons, act_SelectUpdate.
    cbn [goroutine_sending inUpdateChanEvent inReadChanEvent outChanEvent
         goroutine_events].
    rewrite Hsend, HinR, Hout, Hkey. cbn [run]. run_M. reflexivity. }
  assert (Hlist : goroutine_events s1 !!! t = now_)
    by apply lookup_total_insert_eq.
  exists s1. split; [exact Hrun|]. split; [reflexivity|].
  split; [reflexivity|]. split; [exact Hlist|].
  destruct (getTracerEventsCache_alone (Tracer_ID tracer) between s1 db2
              eq_refl Hquiet) as (o & trace & Hcall & _ & Ho).
  fold t in Ho.
  assert (Hcached : forall us E1,
    tookUpdates s1 between db2 us E1 ->
    us `prefix_of` sentUpdates between /\
    E1 !!! t = now_ ++ updatesFor t (map inU us) /\
    tracerEventCache_step E1 (inR t) db2
    = (Ok (E1, Some (now_ ++ updatesFor t (map inU us))), db2, [])).
  { intros us E1 [Hpre Hupd]. split; [exact Hpre|].
    assert (Hfull : goroutine_events s1 !!! t <> []).
    { rewrite Hlist. subst now_. intros Hnil.
      now apply app_eq_nil in Hnil as [_ Hnil]. }
    pose proof (tracerEventCache_grows t (map inU us) (goroutine_events s1)
                  [] db2 (isFlush_updates us) (or_introl Hfull)) as Hgrow.
    rewrite Hupd, Hlist in Hgrow.
    assert (Hne : E1 !!! t <> []).
    { rewrite Hgrow. subst now_. rewrite <- app_assoc. intros Hnil.
      apply app_eq_nil in Hnil as [_ Hnil]. discriminate Hnil. }
    split; [exact Hgrow|]. rewrite <- Hgrow.
    now apply step_read_cached. }
  unfold GetEvents. unfold mbind at 1, M_bind at 1. rewrite Hcall.
  destruct o as [|err|s2 l].
  - exists Blocked, (trace ++ []). split; [reflexivity|exact I].
  - destruct Ho as (us & E1 & Hus & Hstep).
    destruct (Hcached us E1 Hus) as (_ & _ & Hok).
    rewrite Hok in Hstep. discriminate Hstep.
  - destruct Ho as (us & E1 & E2 & Hus & Hstep & _).
    destruct (Hcached us E1 Hus) as (Hpre & _ & Hok).
    rewrite Hok in Hstep. injection Hstep as _ <- <-.
    destruct (marshalEvents (now_ ++ updatesFor t (map inU us)))
      as [ret err] eqn:Hm.
    exists (Done s2 (ret, err)),
      (match err with Some e => [LogWarning e] | None => [] end).
    split; [destruct err as [e|]; run_M; reflexivity|].
    exists us. now repeat split.
Qed.

Lemma AddEvent_then_GetEvents_alone_witness :
  let u := {| Event := withID (withRawEvent (Fixtures.eventOf "dom")
                                 Fixtures.rawStructured) 1;
              Update_ID := 1 |} in
  let event := withRawEvent (Fixtures.eventOf "dom") Fixtures.rawStructured in
  let between := [SelectRead; SendOut] in
  let t := int_of_uint (Tracer_ID Fixtures.tracer) in
  let now_ := goroutine_events init !!! t ++ [Event u] in
  Update_ID u = t /\
  RawEvent_ (Event u) = RawEvent_ event /\
  (exists stored,
     In (Create stored (Ok (ID (Event u))))
       (snd (AddEvent Fixtures.plain Fixtures.parse Fixtures.marshal
               Fixtures.tracer event Fixtures.emptyDB)) /\
     RawEvent_ stored = RawEvent_zero /\
     Event u = withRawEvent (withID stored (ID (Event u))) (RawEvent_ event)) /\
  exists s1,
    run [SendUpdate u; SelectUpdate] init [] Fixtures.sharedDB
    = (Done s1 [], Fixtures.sharedDB, []) /\
    idle s1 = true /\
    inUpdateChanEvent s1 = [] /\
    goroutine_events s1 !!! t = now_ /\
    exists o trace,
      GetEvents Inputs.marshalEvents (Tracer_ID Fixtures.tracer) between s1
        Fixtures.sharedDB
      = (o, Fixtures.sharedDB, trace) /\
      match o with
      | Blocked => True
      | Fatal _ => False
      | Done s2 (ret, err) =>
          exists us,
            us `prefix_of` sentUpdates between /\
            (ret, err)
            = Inputs.marshalEvents (now_ ++ updatesFor t (map inU us)) /\
            trace = match err with
                    | Some e => [LogWarning e]
                    | None => []
                    end
      end.
Proof.
  apply (AddEvent_then_GetEvents_alone MemDB MemStore Fixtures.plain
           Fixtures.parse Fixtures.marshal Inputs.marshalEvents
           Fixtures.tracer
           (withRawEvent (Fixtures.eventOf "dom") Fixtures.rawStructured)
           Fixtures.emptyDB
           {| Event := withID (withRawEvent (Fixtures.eventOf "dom")
                                 Fixtures.rawStructured) 1;
              Update_ID := 1 |}
           init [SelectRead; SendOut] Fixtures.sharedDB).
  - reflexivity.
  - vm_compute. right. left. reflexivity.
  - reflexivity.
  - reflexivity.
  - reflexivity.
Defined.

(** The run of the witness: the update is taken before the read, no
    load is made although the store holds two older events of the tracer,
    and the list marshalled holds the new event alone. *)
Example AddEvent_then_GetEvents_run :
  let u := {| Event := withID (withRawEvent (Fixtures.eventOf "dom")
                                 Fixtures.rawStructured) 1;
              Update_ID := 1 |} in
  run [SendUpdate u; SelectUpdate; SendRead 1; SelectRead; SendOut; Receive]
    init [] Fixtures.sharedDB
  = (Done {| inReadChanEvent := []; inUpdateChanEvent := [];
             outChanEvent := [];
             goroutine_events := {[ 1%Z := [Event u] ]};
             goroutine_sending := None |} [[Event u]],
     Fixtures.sharedDB, []).
Proof. vm_compute. reflexivity. Qed.
